(** * gatewayrpc: schema extraction and the forwarding gateway

    A shallow embedding of [server.go] (the schema extractor of package
    [gatewayrpc]), of [gateway/request.go] (the per-request context handed to
    the callback) and of the gateway handler of package [gateway]
    ([Gateway.ServeHTTP], [AddURL], [getMethod], [resolveURL]).

    Go maps are stdpp [gmap]s, Go pointers to immutable records are the
    records themselves ([option] where [nil] is a legal value), pointers to
    records that are shared and copied ([*url.URL]) are locations of an
    explicit store, and the library calls the code makes (Unicode tables, the
    JSON codec, DNS, the HTTP client) are section variables. *)

From stdpp Require Import gmap strings list fin_maps.
From Stdlib Require Import ZArith String Ascii.

Set Warnings "-register-all".
Local Open Scope string_scope.

(** ** Results of fallible calls: Go's [(value, error)] pairs *)

Inductive result (E A : Type) : Type :=
| Ok (a : A)
| Err (e : E).
Arguments Ok {E A} a.
Arguments Err {E A} e.

Definition bind {E A B : Type} (r : result E A) (k : A -> result E B) : result E B :=
  match r with
  | Ok a => k a
  | Err e => Err e
  end.

Notation "x <- r ;; k" := (bind r (fun x => k))
  (at level 100, r at next level, right associativity).

Definition isOk {E A : Type} (r : result E A) : bool :=
  match r with Ok _ => true | Err _ => false end.

(** ** The few functions of Go's [strings] package the code calls *)

Module strings.

(** [cut sep s]: the text before and after the first [sep] in [s]. *)
Fixpoint cut (sep : ascii) (s : string) : option (string * string) :=
  match s with
  | EmptyString => None
  | String c rest =>
      if Ascii.eqb c sep then Some (EmptyString, rest)
      else match cut sep rest with
           | Some (before, after) => Some (String c before, after)
           | None => None
           end
  end.

(** [strings.SplitN(s, sep, 2)] for a one-byte separator. *)
Definition SplitN2 (s : string) (sep : ascii) : list string :=
  match cut sep s with
  | Some (before, after) => [before; after]
  | None => [s]
  end.

(** [strings.Index(s, sep)] for a one-byte separator; [None] is Go's -1. *)
Definition Index (s : string) (sep : ascii) : option nat :=
  match cut sep s with
  | Some (before, _) => Some (String.length before)
  | None => None
  end.

(** The slice [s[:n]]. *)
Definition take (n : nat) (s : string) : string := String.substring 0 n s.

Definition HasPrefix (s p : string) : bool := String.prefix p s.

End strings.

(** ** Package gatewaytypes: the published schema *)

(** [reflect.Kind], in the order of its constants. *)
Inductive Kind : Set :=
| Invalid | Bool | Int | Int8 | Int16 | Int32 | Int64
| Uint | Uint8 | Uint16 | Uint32 | Uint64 | Uintptr
| Float32 | Float64 | Complex64 | Complex128
| Array | Chan | Func | Interface | Map | Ptr | Slice
| String_ | Struct | UnsafePointer.

(** The numeric value of a kind (Go's [iota] numbering). *)
Definition Kind_uint (k : Kind) : N :=
  match k with
  | Invalid => 0 | Bool => 1 | Int => 2 | Int8 => 3 | Int16 => 4
  | Int32 => 5 | Int64 => 6 | Uint => 7 | Uint8 => 8 | Uint16 => 9
  | Uint32 => 10 | Uint64 => 11 | Uintptr => 12 | Float32 => 13
  | Float64 => 14 | Complex64 => 15 | Complex128 => 16 | Array => 17
  | Chan => 18 | Func => 19 | Interface => 20 | Map => 21 | Ptr => 22
  | Slice => 23 | String_ => 24 | Struct => 25 | UnsafePointer => 26
  end%N.

Definition Kind_eqb (a b : Kind) : bool := (Kind_uint a =? Kind_uint b)%N.

(** [gatewaytypes.Type]: a struct of four arms, of which the extractor fills
    one. [ObjectOf] is a Go map: [None] is the nil map, [Some ∅] the empty
    one that [map[string]*Type{}] allocates. *)
Inductive Type_ : Type := mkType {
  TypeOf : Kind;
  ArrayOf : option Type_;
  ObjectOf : option (gmap string Type_);
  MapOf : option Type_
}.

(** The composite literals [&Type{TypeOf: k}], [&Type{ArrayOf: t}], ... *)
Definition Type_TypeOf (k : Kind) : Type_ := mkType k None None None.
Definition Type_ArrayOf (t : Type_) : Type_ := mkType Invalid (Some t) None None.
Definition Type_ObjectOf (m : gmap string Type_) : Type_ := mkType Invalid None (Some m) None.
Definition Type_MapOf (t : Type_) : Type_ := mkType Invalid None None (Some t).

(** [len(t.ObjectOf)]: zero for the nil map. *)
Definition len_ObjectOf (t : Type_) : nat :=
  match ObjectOf t with
  | Some m => size m
  | None => 0
  end.

Record gatewaytypes_Method : Type := mkMethod_ {
  gatewaytypes_Method_Name : string;
  Args : option Type_;
  Returns : option Type_
}.

Record Service : Type := mkService {
  Service_Name : string;
  Methods : gmap string gatewaytypes_Method
}.

(** ** What the code sees of Go's [reflect] package *)

Module reflect.

(** A type's [PkgPath()] and [Name()]; both empty for an unnamed type, the
    package path empty for a predeclared one. *)
Record TypeName : Set := mkName { PkgPath : string; Name : string }.

Definition unnamed : TypeName := mkName "" "".

(** [reflect.StructField]: the tag is kept as the key/value pairs that
    [StructTag.Get] looks through. *)
Record StructField (T : Type) : Type := mkField {
  Field_Name : string;
  Field_Tag : list (string * string);
  Anonymous : bool;
  Field_Type : T
}.
Arguments mkField {T}.
Arguments Field_Name {T}.
Arguments Field_Tag {T}.
Arguments Anonymous {T}.
Arguments Field_Type {T}.

(** [reflect.Type], by the shape the extractor can observe. [RBasic] stands
    for the types of a kind without element type (booleans, numbers, strings,
    unsafe pointers). *)
Inductive rtype : Type :=
| RBasic (n : TypeName) (k : Kind)
| RArray (n : TypeName) (len : N) (elem : rtype)
| RChan (n : TypeName) (elem : rtype)
| RFunc (n : TypeName)
| RInterface (n : TypeName) (methods : list string)
| RMap (n : TypeName) (key elem : rtype)
| RPtr (n : TypeName) (elem : rtype)
| RSlice (n : TypeName) (elem : rtype)
| RStruct (n : TypeName) (fields : list (StructField rtype)).

Definition Kind_of (t : rtype) : Kind :=
  match t with
  | RBasic _ k => k
  | RArray _ _ _ => Array
  | RChan _ _ => Chan
  | RFunc _ => Func
  | RInterface _ _ => Interface
  | RMap _ _ _ => Map
  | RPtr _ _ => Ptr
  | RSlice _ _ => Slice
  | RStruct _ _ => Struct
  end.

Definition TypeName_of (t : rtype) : TypeName :=
  match t with
  | RBasic n _ | RArray n _ _ | RChan n _ | RFunc n | RInterface n _
  | RMap n _ _ | RPtr n _ | RSlice n _ | RStruct n _ => n
  end.

Definition Name_of (t : rtype) : string := Name (TypeName_of t).
Definition PkgPath_of (t : rtype) : string := PkgPath (TypeName_of t).

(** [t.Elem()] of an array, channel, map, pointer or slice type. *)
Definition Elem (t : rtype) : option rtype :=
  match t with
  | RArray _ _ e | RChan _ e | RMap _ _ e | RPtr _ e | RSlice _ e => Some e
  | _ => None
  end.

Definition TypeName_eqb (a b : TypeName) : bool :=
  String.eqb (PkgPath a) (PkgPath b) && String.eqb (Name a) (Name b).

Definition list_eqb {A : Type} (eqb : A -> A -> bool) : list A -> list A -> bool :=
  fix go (l1 l2 : list A) : bool :=
    match l1, l2 with
    | [], [] => true
    | x :: l1', y :: l2' => eqb x y && go l1' l2'
    | _, _ => false
    end.

Definition Tag_eqb : list (string * string) -> list (string * string) -> bool :=
  list_eqb (fun a b => String.eqb (fst a) (fst b) && String.eqb (snd a) (snd b)).

(** [t1 == t2] on [reflect.Type] values: the same type. *)
Fixpoint rtype_eqb (t1 t2 : rtype) {struct t1} : bool :=
  match t1, t2 with
  | RBasic n1 k1, RBasic n2 k2 => TypeName_eqb n1 n2 && Kind_eqb k1 k2
  | RArray n1 l1 e1, RArray n2 l2 e2 =>
      TypeName_eqb n1 n2 && (l1 =? l2)%N && rtype_eqb e1 e2
  | RChan n1 e1, RChan n2 e2 => TypeName_eqb n1 n2 && rtype_eqb e1 e2
  | RFunc n1, RFunc n2 => TypeName_eqb n1 n2
  | RInterface n1 m1, RInterface n2 m2 =>
      TypeName_eqb n1 n2 && list_eqb String.eqb m1 m2
  | RMap n1 k1 e1, RMap n2 k2 e2 =>
      TypeName_eqb n1 n2 && rtype_eqb k1 k2 && rtype_eqb e1 e2
  | RPtr n1 e1, RPtr n2 e2 => TypeName_eqb n1 n2 && rtype_eqb e1 e2
  | RSlice n1 e1, RSlice n2 e2 => TypeName_eqb n1 n2 && rtype_eqb e1 e2
  | RStruct n1 fs1, RStruct n2 fs2 =>
      TypeName_eqb n1 n2 &&
      (fix fields (l1 l2 : list (StructField rtype)) : bool :=
         match l1, l2 with
         | [], [] => true
         | f1 :: l1', f2 :: l2' =>
             String.eqb (Field_Name f1) (Field_Name f2) &&
             Tag_eqb (Field_Tag f1) (Field_Tag f2) &&
             Bool.eqb (Anonymous f1) (Anonymous f2) &&
             rtype_eqb (Field_Type f1) (Field_Type f2) &&
             fields l1' l2'
         | _, _ => false
         end) fs1 fs2
  | _, _ => false
  end.

(** [tag.Get(key)]: the value of the first pair under [key], else [""]. *)
Fixpoint Tag_Get (tag : list (string * string)) (key : string) : string :=
  match tag with
  | [] => ""
  | (k, v) :: rest => if String.eqb k key then v else Tag_Get rest key
  end.

(** [reflect.Method]: [In] lists the parameter types, receiver first. *)
Record Method : Type := mkMethod {
  Method_Name : string;
  Method_PkgPath : string;
  In : list rtype;
  Out : list rtype
}.

(** A receiver value as [reflect.TypeOf] shows it: its type and the method
    set of that type, sorted by name. *)
Record Receiver : Type := mkReceiver {
  TypeOf_rcv : rtype;
  MethodSet : list Method
}.

End reflect.

(** ** Package gatewayrpc: [server.go] *)

Module gatewayrpc.
Import reflect.

Inductive error : Type :=
| errReceiverNotExported            (* "receiver not exported" *)
| errUnsupportedMapType (t : rtype) (* "unsupported map type: %v" *)
| errUnsupportedInterface (t : rtype) (* "unsupported interface: %v" *)
| errUnsupportedType (t : rtype)    (* "unsupported type: %v" *)
| errInner (msg : string).          (* an error of the wrapped rpc server *)

(** [typeOfError], [typeOfRequest] and [typeOfEmptyInterface]: the types of
    [error], [http.Request] (a named type, known by its name) and
    [interface{}]. *)
Definition typeOfError : rtype := RInterface (mkName "" "error") ["Error"].
Definition typeOfRequest : rtype := RStruct (mkName "net/http" "Request") [].
Definition typeOfEmptyInterface : rtype := RInterface unnamed [].

Section Extractor.

(** [utf8.DecodeRuneInString] (its first result) and [unicode.IsUpper]. *)
Variable utf8_DecodeRuneInString : string -> Z.
Variable unicode_IsUpper : Z -> bool.

(** The wrapped gorilla server and its [RegisterService]. *)
Variable RpcServer : Type.
Variable rpc_RegisterService :
  RpcServer -> Receiver -> string -> RpcServer * option string.

Definition isExported (name : string) : bool :=
  let r := utf8_DecodeRuneInString name in
  unicode_IsUpper r.

Fixpoint isExportedOrBuiltin (t : rtype) : bool :=
  match t with
  | RPtr _ e => isExportedOrBuiltin e
  | _ => isExported (Name_of t) || String.eqb (PkgPath_of t) ""
  end.

Definition getFieldKey (f : StructField rtype) : string :=
  let key := Field_Name f in
  let jsonTag := Tag_Get (Field_Tag f) "json" in
  if String.eqb jsonTag "" then key
  else
    match strings.SplitN2 jsonTag ","%char with
    | [] => key
    | part0 :: _ => if String.eqb part0 "" then key else part0
    end.

(** [for k, v := range src { m[k] = v }] *)
Definition copyInto (src : option (gmap string Type_)) (m : gmap string Type_)
  : gmap string Type_ :=
  match src with
  | Some o => o ∪ m
  | None => m
  end.

(** One turn of the loop over a struct's fields, [walk] being the recursive
    call. *)
Definition processField (walk : rtype -> result error Type_)
    (m : gmap string Type_) (f : StructField rtype)
  : result error (gmap string Type_) :=
  if negb (isExported (Field_Name f)) then Ok m
  else
    let key := getFieldKey f in
    innerT <- walk (Field_Type f) ;;
    if Anonymous f && (0 <? len_ObjectOf innerT)%nat
    then Ok (copyInto (ObjectOf innerT) m)
    else Ok (<[key := innerT]> m).

(** The flattening rule in the words of the specification, to compare
    [processField] with: an embedded field whose walk is an object arm is
    merged into the enclosing object, every other exported field is inserted
    under its key. *)
Definition flattening_rule_spec (walk : rtype -> result error Type_)
    (m : gmap string Type_) (f : StructField rtype)
  : result error (gmap string Type_) :=
  if negb (isExported (Field_Name f)) then Ok m
  else
    innerT <- walk (Field_Type f) ;;
    match Anonymous f, ObjectOf innerT with
    | true, Some o => Ok (o ∪ m)
    | _, _ => Ok (<[getFieldKey f := innerT]> m)
    end.

Definition processFields (walk : rtype -> result error Type_)
  : gmap string Type_ -> list (StructField rtype) -> result error (gmap string Type_) :=
  fix loop m fields :=
    match fields with
    | [] => Ok m
    | f :: rest => m' <- processField walk m f ;; loop m' rest
    end.

(** Bool through floats, plus string. *)
Definition isScalarKind (kind : Kind) : bool :=
  ((Kind_uint Bool <=? Kind_uint kind)%N && (Kind_uint kind <=? Kind_uint Float64)%N)
  || Kind_eqb kind String_.

Fixpoint processType (t : rtype) : result error Type_ :=
  let t := match t with RPtr _ e => e | _ => t end in
  match t with
  | RBasic _ kind =>
      if isScalarKind kind then Ok (Type_TypeOf kind)
      else Err (errUnsupportedType t)
  | RArray _ _ e | RSlice _ e =>
      innerT <- processType e ;;
      Ok (Type_ArrayOf innerT)
  | RMap _ k e =>
      if negb (Kind_eqb (Kind_of k) String_) then Err (errUnsupportedMapType t)
      else
        innerT <- processType e ;;
        Ok (Type_MapOf innerT)
  | RInterface _ _ =>
      if negb (rtype_eqb t typeOfEmptyInterface) then Err (errUnsupportedInterface t)
      else Ok (Type_TypeOf Interface)
  | RStruct _ fields =>
      m <- processFields processType ∅ fields ;;
      Ok (Type_ObjectOf m)
  | RPtr _ _ | RChan _ _ | RFunc _ => Err (errUnsupportedType t)
  end.

Definition getName (rcv : Receiver) (name : string) : result error string :=
  if negb (String.eqb name "") then Ok name
  else
    let t := TypeOf_rcv rcv in
    let t := match t with RPtr _ e => e | _ => t end in
    let rcvName := Name_of t in
    if negb (isExported rcvName) then Err errReceiverNotExported
    else Ok rcvName.

(** The test [getMethods] applies to each method of the receiver. *)
Definition isRPCMethod (method : Method) : bool :=
  String.eqb (Method_PkgPath method) "" &&
  match In method with
  | [_; reqType; args; reply] =>
      (Kind_eqb (Kind_of reqType) Ptr &&
       match Elem reqType with
       | Some e => rtype_eqb e typeOfRequest
       | None => false
       end) &&
      (Kind_eqb (Kind_of args) Ptr && isExportedOrBuiltin args) &&
      (Kind_eqb (Kind_of reply) Ptr && isExportedOrBuiltin reply) &&
      match Out method with
      | [returnType] => rtype_eqb returnType typeOfError
      | _ => false
      end
  | _ => false
  end.

Definition getMethods (rcv : Receiver) : list Method :=
  List.filter isRPCMethod (MethodSet rcv).

Record Server : Type := mkServer {
  Server_rpc : RpcServer;
  services : list Service
}.

(** The loop of [RegisterService] over the accepted methods; [In(2)] and
    [In(3)] exist for every method [getMethods] returns. *)
Fixpoint registerMethods (methods : list Method)
    (acc : gmap string gatewaytypes_Method)
  : result error (gmap string gatewaytypes_Method) :=
  match methods with
  | [] => Ok acc
  | method :: rest =>
      match In method with
      | [_; _; in2; in3] =>
          args <- processType in2 ;;
          res <- processType in3 ;;
          registerMethods rest
            (<[Method_Name method :=
                 mkMethod_ (Method_Name method) (Some args) (Some res)]> acc)
      | _ => registerMethods rest acc
      end
  end.

Definition RegisterService (s : Server) (receiver : Receiver) (name : string)
  : Server * option error :=
  let '(inner, err) := rpc_RegisterService (Server_rpc s) receiver name in
  let s := mkServer inner (services s) in
  match err with
  | Some e => (s, Some (errInner e))
  | None =>
      match getName receiver name with
      | Err e => (s, Some e)
      | Ok name =>
          match registerMethods (getMethods receiver) ∅ with
          | Err e => (s, Some e)
          | Ok methods =>
              (mkServer inner (services s ++ [mkService name methods]), None)
          end
      end
  end.

(** [NewServer]: the wrapped server [fresh] that [rpc.NewServer] returns,
    with the new server itself ([self], as reflection shows it) registered on
    it under the name [RPC]; the result of that registration is dropped. *)
Definition NewServer (fresh : RpcServer) (self : Receiver) : Server :=
  let '(inner, _) := rpc_RegisterService fresh self "RPC" in
  mkServer inner [].

(** [GetServices]: the reply's [Services], the error being nil. *)
Definition GetServices (s : Server) : list Service := services s.

(** Registrations one after the other, their errors dropped. *)
Definition registerAll (s : Server) (regs : list (Receiver * string)) : Server :=
  foldl (fun s reg => fst (RegisterService s (fst reg) (snd reg))) s regs.

(** The kinds of a leaf: the scalar kinds, and [Interface] for
    [interface{}]. *)
Definition isLeafKind (kind : Kind) : bool :=
  isScalarKind kind || Kind_eqb kind Interface.

(** The shape of a descriptor: at every node one arm is filled and the
    others are zero, and a [TypeOf] arm holds the kind of a leaf. An object
    may be without fields: such a node has no children and is no [TypeOf]
    leaf, so this asks less than the comment of [Type], which wants every
    leaf to be a [TypeOf] leaf. *)
Inductive wellformed : Type_ -> Prop :=
| wf_TypeOf (kind : Kind) :
    isLeafKind kind = true -> wellformed (Type_TypeOf kind)
| wf_ArrayOf (t : Type_) :
    wellformed t -> wellformed (Type_ArrayOf t)
| wf_ObjectOf (m : gmap string Type_) :
    (forall k t, m !! k = Some t -> wellformed t) -> wellformed (Type_ObjectOf m)
| wf_MapOf (t : Type_) :
    wellformed t -> wellformed (Type_MapOf t).

(** The exported fields of a struct, in order. *)
Definition exportedFields (fields : list (StructField rtype)) : list (StructField rtype) :=
  List.filter (fun f => isExported (Field_Name f)) fields.

End Extractor.

End gatewayrpc.


(** ** Package gateway: [gateway/request.go] and the gateway handler *)

Module gateway.

(** Byte slices ([[]byte], [json.RawMessage]); the nil and the empty slice
    are both the empty string. *)
Abbreviation bytes := string.

Inductive error : Type :=
| errInvalidURL             (* "invalid url specified" *)
| errInvalidMethodEndpoint  (* "invalid method endpoint given" *)
| errNoRemoteService        (* "no remote service for given name" *)
| errCannotHandleMethod     (* "remote service cannot handle this method" *)
| errOther (msg : string).  (* an error of a library or of the callback *)

(** [url.URL] *)
Record URL : Type := mkURL {
  Scheme : string;
  Opaque : string;
  User : option (string * option string);
  Host : string;
  Path : string;
  RawPath : string;
  ForceQuery : bool;
  RawQuery : string;
  Fragment : string
}.

Definition URL_with_Host (u : URL) (host : string) : URL :=
  mkURL (Scheme u) (Opaque u) (User u) host (Path u) (RawPath u)
        (ForceQuery u) (RawQuery u) (Fragment u).

(** The [url.URL] values that live behind pointers: a [*url.URL] is an index
    into the store, [None] the nil pointer. The code allocates URLs and never
    writes to one it did not just allocate, so the store only grows. *)
Abbreviation loc := nat.
Abbreviation store := (list URL).

(** A store that has grown keeps what it held. *)
Definition extends (h' h : store) : Prop := ∀ l u, h !! l = Some u → h' !! l = Some u.

(** [http.Header], with [Get] and [Add] on canonical keys. *)
Abbreviation Header := (list (string * string)).

Fixpoint Header_Get (h : Header) (key : string) : string :=
  match h with
  | [] => ""
  | (k, v) :: rest => if String.eqb k key then v else Header_Get rest key
  end.

Definition Header_Add (h : Header) (key value : string) : Header := h ++ [(key, value)].

Definition Header_Set (h : Header) (key value : string) : Header :=
  List.filter (fun kv => negb (String.eqb (fst kv) key)) h ++ [(key, value)].

(** [Values]: all the values of a key, in order. *)
Definition Header_Values (h : Header) (key : string) : list string :=
  snd <$> List.filter (fun kv => String.eqb (fst kv) key) h.

(** [http.Request], the fields the gateway reads or writes. *)
Record HttpRequest : Type := mkHttpRequest {
  Method : string;
  ReqHeader : Header;
  ReqURL : option loc;
  RequestURI : string;
  Body : bytes;
  ContentLength : Z
}.

(** [remoteService]: the embedded [gatewaytypes.Service], the embedded
    [*url.URL] and the original URL string. *)
Record remoteService : Type := mkRemoteService {
  rs_Service : Service;
  rs_URL : option loc;
  origURL : string
}.

(** The zero values that [getMethod] returns next to an error. *)
Definition zeroService : Service := mkService "" ∅.
Definition zeroRemoteService : remoteService := mkRemoteService zeroService None "".
Definition zeroMethod : gatewaytypes_Method := mkMethod_ "" None None.

(** *** The libraries and the outside world

    What the gateway calls and does not define. Go values handed to and from
    the JSON codec are of an abstract type [Value], the destination of a
    decode is a [Target]. [Ext] is the state of everything outside the
    process (DNS and its cache, the backends, the network).

    [json2.EncodeClientRequest] draws the id of the request it encodes at
    random: [json2_EncodeClientRequest] is the encoding one call gives, and
    nothing below compares the bytes of two calls. *)
Class Externals : Type := {
  Value : Type;
  Target : Type;
  Ext : Type;
  Regexp : Type;
  regexp_MatchString : Regexp -> string -> bool;
  strings_ToLower : string -> string;
  json_Marshal : Value -> result error bytes;
  json_Unmarshal : bytes -> Target -> result error Value;
  json2_EncodeClientRequest : string -> bytes -> result error bytes;
  json2_DecodeClientResponse : bytes -> result error bytes;
  url_Parse : string -> result error URL;
  URL_String : URL -> string;
  srv_MaybeSRV : Ext -> string -> string * Ext;
  rpcutil_GetServices : Ext -> string -> result error (list Service) * Ext;
  fmt_Sprintf : string -> list string -> string;
  (* http.DefaultClient.Do: the response's content type and body *)
  http_DefaultClient_Do :
    Ext -> store -> HttpRequest -> result error (string * bytes) * Ext
}.

Section Gateway.
Context `{Externals}.

(** What has been done with an [http.ResponseWriter], in order: the
    gateway's own [WriteHeader] and [Fprint] of a plain-text error, and the
    calls of the two write methods of a codec request, which frame the
    response in the client's codec. What a codec request sends on such a call
    (status line and body) is the codec's affair; the event is the call with
    its arguments. *)
Inductive Payload : Type :=
| PValue (v : Value)
| PRaw (b : bytes).

Inductive Written : Type :=
| WriteHeader (status : Z)
| Fprint (text : string)
| CodecWriteError (status : Z) (err : error)
| CodecWriteResponse (v : Payload).

Record ResponseWriter : Type := mkResponseWriter {
  RespHeader : Header;
  written : list Written
}.

Definition w_add_header (w : ResponseWriter) (key value : string) : ResponseWriter :=
  mkResponseWriter (Header_Add (RespHeader w) key value) (written w).

Definition w_set_header (w : ResponseWriter) (key value : string) : ResponseWriter :=
  mkResponseWriter (Header_Set (RespHeader w) key value) (written w).

Definition w_write (w : ResponseWriter) (x : Written) : ResponseWriter :=
  mkResponseWriter (RespHeader w) (written w ++ [x]).

(** The status line the HTTP server sends when the gateway itself wrote
    first: that of its [WriteHeader], and 200 when nothing sets one. When a
    codec request wrote first the status is the codec's, [None] here:
    [json2] answers 200 whatever status its [WriteError] is given. *)
Definition statusCode (w : ResponseWriter) : option Z :=
  match written w with
  | [] => Some 200%Z
  | WriteHeader status :: _ => Some status
  | Fprint _ :: _ => Some 200%Z
  | _ => None
  end.

Definition writeErrorf (w : ResponseWriter) (status : Z) (msg : string)
    (args : list string) : ResponseWriter :=
  let w := w_write w (WriteHeader status) in
  let w := w_set_header w "Content-Type" "text/plain; charset=utf-8" in
  w_write w (Fprint (fmt_Sprintf msg args)).

(** [rpc.CodecRequest]: the method and arguments the codec decoded from the
    request ([ReadRequest] into a typed destination, and into a
    [*json.RawMessage], which yields the raw parameters). Its two write
    methods are handed the response writer: a call is recorded as the event
    [CodecWriteError] or [CodecWriteResponse], and [codec_Header] is what
    that call does to the headers of the response ([json2] sets
    [Content-Type] to [application/json; charset=utf-8]). *)
Record CodecRequest : Type := mkCodecRequest {
  codec_Method : result error string;
  codec_ReadRequest : Target -> result error Value;
  codec_ReadRequest_raw : result error bytes;
  codec_Header : Written -> Header -> Header
}.

(** [codecReq.WriteError(w, ...)] and [codecReq.WriteResponse(w, ...)]. *)
Definition codec_write (c : CodecRequest) (w : ResponseWriter) (x : Written)
  : ResponseWriter :=
  mkResponseWriter (codec_Header c x (RespHeader w)) (written w ++ [x]).

(** [rpc.Codec]: [NewRequest] reads the request, body included. *)
Record Codec : Type := mkCodec {
  NewRequest : HttpRequest -> CodecRequest
}.

(** *** [request.go]: the context handed to the callback

    [respWriter] is the handler's own [http.ResponseWriter]: the context and
    the handler write to one object, so the handler goes on with the writer
    it finds in the context once the callback has returned. The embedded
    [*http.Request] is likewise the handler's request. *)
Record Request : Type := mkRequest {
  http : HttpRequest;
  RemoteMethod : gatewaytypes_Method;
  ServiceName : string;
  respWriter : ResponseWriter;
  codecReq : CodecRequest;
  newMethod : string;
  args : bytes;
  responded : bool
}.

Definition set_newMethod (r : Request) (m : string) : Request :=
  mkRequest (http r) (RemoteMethod r) (ServiceName r) (respWriter r) (codecReq r)
            m (args r) (responded r).

Definition set_args (r : Request) (a : bytes) : Request :=
  mkRequest (http r) (RemoteMethod r) (ServiceName r) (respWriter r) (codecReq r)
            (newMethod r) a (responded r).

(** [r.responded = true], then a write of [r.codecReq] to [r.respWriter]. *)
Definition respond (r : Request) (x : Written) : Request :=
  mkRequest (http r) (RemoteMethod r) (ServiceName r)
            (codec_write (codecReq r) (respWriter r) x)
            (codecReq r) (newMethod r) (args r) true.

Definition Request_Method (r : Request) : result error string :=
  if negb (String.eqb (newMethod r) "") then Ok (newMethod r)
  else codec_Method (codecReq r).

Definition Request_WriteError (r : Request) (status : Z) (err : error) : Request :=
  respond r (CodecWriteError status err).

Definition Request_WriteResponse (r : Request) (i : Value) : Request :=
  respond r (CodecWriteResponse (PValue i)).

Definition Request_ReadRequest (r : Request) (v : Target) : result error Value :=
  if (0 <? String.length (args r))%nat then json_Unmarshal (args r) v
  else codec_ReadRequest (codecReq r) v.

(** [params] is [None] for a nil interface. [r.args.UnmarshalJSON(a)] on the
    addressable field [r.args] stores a copy of [a] and returns nil. *)
Definition Request_UpdateRequest (r : Request) (method : string) (params : option Value)
  : Request * option error :=
  let r := if negb (String.eqb method "") then set_newMethod r method else r in
  match params with
  | Some p =>
      match json_Marshal p with
      | Err err => (r, Some err)
      | Ok a => (set_args r a, None)
      end
  | None => (r, None)
  end.

Definition Request_getClientRequest (r : Request) : Request * result error bytes :=
  let filled :=
    if (String.length (args r) =? 0)%nat then
      match codec_ReadRequest_raw (codecReq r) with
      | Err err => Err err
      | Ok raw => Ok (set_args r raw)
      end
    else Ok r in
  match filled with
  | Err err => (r, Err err)
  | Ok r =>
      match Request_Method r with
      | Err err => (r, Err err)
      | Ok m => (r, json2_EncodeClientRequest m (args r))
      end
  end.

(** *** The callback

    A callback is user code that is handed the context and returns. It is
    modelled by the calls it makes on the context, each continued with the
    result the call gave it. *)
Inductive Callback : Type :=
| Return
| CallMethod (k : result error string -> Callback)
| CallReadRequest (v : Target) (k : result error Value -> Callback)
| CallUpdateRequest (method : string) (params : option Value) (k : option error -> Callback)
| CallWriteError (status : Z) (err : error) (k : Callback)
| CallWriteResponse (i : Value) (k : Callback).

Inductive Call : Type :=
| CMethod
| CReadRequest (v : Target)
| CUpdateRequest (method : string) (params : option Value)
| CWriteError (status : Z) (err : error)
| CWriteResponse (i : Value).

Definition isWrite (c : Call) : bool :=
  match c with
  | CWriteError _ _ | CWriteResponse _ => true
  | _ => false
  end.

(** What a call writes to the response. *)
Definition writes_of (c : Call) : list Written :=
  match c with
  | CWriteError status err => [CodecWriteError status err]
  | CWriteResponse i => [CodecWriteResponse (PValue i)]
  | _ => []
  end.

(** Running a callback on a context: the context it leaves and the calls it
    made, in order. *)
Fixpoint runCallback (cb : Callback) (r : Request) : Request * list Call :=
  match cb with
  | Return => (r, [])
  | CallMethod k =>
      let '(r', calls) := runCallback (k (Request_Method r)) r in
      (r', CMethod :: calls)
  | CallReadRequest v k =>
      let '(r', calls) := runCallback (k (Request_ReadRequest r v)) r in
      (r', CReadRequest v :: calls)
  | CallUpdateRequest method params k =>
      let '(r1, err) := Request_UpdateRequest r method params in
      let '(r', calls) := runCallback (k err) r1 in
      (r', CUpdateRequest method params :: calls)
  | CallWriteError status err k =>
      let '(r', calls) := runCallback k (Request_WriteError r status err) in
      (r', CWriteError status err :: calls)
  | CallWriteResponse i k =>
      let '(r', calls) := runCallback k (Request_WriteResponse r i) in
      (r', CWriteResponse i :: calls)
  end.

(** *** The gateway *)

(** What an [httptest.ResponseRecorder] holds once a handler has served. *)
Record Recorder : Type := mkRecorder {
  rec_Code : Z;
  rec_Body : bytes
}.

(** An [http.Handler] the gateway forwards to: it sees the request (and the
    URL behind its pointer) and the outside world, and fills a recorder. *)
Definition Handler : Type := Ext -> store -> HttpRequest -> Recorder * Ext.

Definition externalHandler : Handler :=
  fun x h r =>
    match http_DefaultClient_Do x h r with
    | (Err err, x') => (mkRecorder 500 (fmt_Sprintf "{}" []), x')
    | (Ok (contentType, body), x') => (mkRecorder 200 body, x')
    end.

(** [Gateway]. The maps [services] and [codecs] are shared by every copy of
    the struct, so what a method with a value receiver stores in them is
    stored in the gateway; the functions below that store return the gateway
    they leave. [poll] is the input [tick] of [ServeHTTP], [srv] and its
    cache are part of [Ext]. *)
Record Gateway : Type := mkGateway {
  services : gmap string remoteService;
  codecs : gmap string Codec;
  BackupHandler : option Handler;
  RequestCallback : option (Request -> Callback);
  CORSMatch : option Regexp
}.

Definition NewGateway : Gateway := mkGateway ∅ ∅ None None None.

Definition set_services (g : Gateway) (m : gmap string remoteService) : Gateway :=
  mkGateway m (codecs g) (BackupHandler g) (RequestCallback g) (CORSMatch g).

(** The body of [resolveURL] on the URL behind its argument:
    [uu2 := *uu; uu2.Host = g.srv.MaybeSRV(uu.Host)]. *)
Definition resolvedCopy (x : Ext) (u : URL) : URL * Ext :=
  let '(host, x') := srv_MaybeSRV x (Host u) in
  (URL_with_Host u host, x').

(** [resolveURL]: a pointer to a fresh copy of the URL behind [uu], its host
    resolved. [None] when [uu] is nil (or points nowhere): the dereference
    panics. *)
Definition resolveURL (h : store) (x : Ext) (uu : option loc)
  : option (loc * store * Ext) :=
  match uu with
  | None => None
  | Some l =>
      match h !! l with
      | None => None
      | Some u =>
          let '(uu2, x') := resolvedCopy x u in
          Some (List.length h, (h ++ [uu2])%list, x')
      end
  end.

(** The loop of [AddURL] that stores the fetched services. *)
Definition addServices (m : gmap string remoteService) (found : list Service)
    (uu : loc) (u : string) : gmap string remoteService :=
  foldl (fun m srv => <[Service_Name srv := mkRemoteService srv (Some uu) u]> m) m found.

Definition AddURL (g : Gateway) (h : store) (x : Ext) (u : string)
  : Gateway * store * Ext * option error :=
  let u := if negb (strings.HasPrefix u "http") then "http://" ++ u else u in
  match url_Parse u with
  | Err err => (g, h, x, Some err)
  | Ok parsed =>
      let uu := List.length h in
      let h := (h ++ [parsed])%list in
      if String.eqb (Host parsed) "" then (g, h, x, Some errInvalidURL)
      else
        (* g.resolveURL(uu).String(), [uu] pointing to [parsed] *)
        let '(uu2, x) := resolvedCopy x parsed in
        let h := (h ++ [uu2])%list in
        let u2 := URL_String uu2 in
        match rpcutil_GetServices x u2 with
        | (Err err, x) => (g, h, x, Some err)
        | (Ok found, x) =>
            (set_services g (addServices (services g) found uu u), h, x, None)
        end
  end.

(** [refreshURLs]: [AddURL] on the original URL of every entry of a
    snapshot of the mapping, errors logged and dropped. *)
Definition refreshURLs (g : Gateway) (h : store) (x : Ext) : Gateway * store * Ext :=
  let srvs := snd <$> map_to_list (services g) in
  foldl (fun '(g, h, x) srv =>
           let '(g, h, x, _) := AddURL g h x (origURL srv) in (g, h, x))
        (g, h, x) srvs.

Definition RegisterCodec (g : Gateway) (codec : Codec) (contentType : string) : Gateway :=
  mkGateway (services g) (<[strings_ToLower contentType := codec]> (codecs g))
            (BackupHandler g) (RequestCallback g) (CORSMatch g).

Definition getMethod (g : Gateway) (mStr : string)
  : remoteService * gatewaytypes_Method * option error :=
  match strings.SplitN2 mStr "."%char with
  | [srvName; mName] =>
      match services g !! srvName with
      | None => (zeroRemoteService, zeroMethod, Some errNoRemoteService)
      | Some rsrv =>
          match Methods (rs_Service rsrv) !! mName with
          | None => (rsrv, zeroMethod, Some errCannotHandleMethod)
          | Some m => (rsrv, m, None)
          end
      end
  | _ => (zeroRemoteService, zeroMethod, Some errInvalidMethodEndpoint)
  end.

(** [GetMethodURL]; [None] when [resolveURL] panics on the nil URL that
    [getMethod] returns for an unknown service. *)
Definition GetMethodURL (g : Gateway) (h : store) (x : Ext) (mStr : string)
  : option (loc * store * Ext * option error) :=
  let '(rsrv, _, err) := getMethod g mStr in
  match resolveURL h x (rs_URL rsrv) with
  | None => None
  | Some (l, h, x) => Some (l, h, x, err)
  end.

(** *** [ServeHTTP] *)

(** Where a routed request is forwarded to. *)
Inductive Route : Type :=
| External                (* externalHandler *)
| Backup (bh : Handler).  (* g.BackupHandler *)

(** What the handler does besides writing the response, in order. *)
Inductive Event : Type :=
| EvRefresh                                       (* go g.refreshURLs() *)
| EvCallback (calls : list Call) (after : Request) (* g.RequestCallback(req) returned *)
| EvEnvelope (b : result error bytes)             (* req.getClientRequest() *)
| EvForward (to : Route) (r : HttpRequest).       (* handler.ServeHTTP(rec, r) *)

Record Outcome : Type := mkOutcome {
  o_w : ResponseWriter;
  o_store : store;
  o_ext : Ext;
  o_log : list Event;
  o_panic : bool
}.

Definition done (w : ResponseWriter) (h : store) (x : Ext) (log : list Event) : Outcome :=
  mkOutcome w h x log false.

Definition runHandler (to : Route) : Handler :=
  match to with
  | External => externalHandler
  | Backup bh => bh
  end.

(** From [req.getClientRequest()] to the end: re-frame, forward, and
    re-frame the response. *)
Definition forward (to : Route) (req : Request) (h : store) (x : Ext)
    (log : list Event) : Outcome :=
  let '(req, b) := Request_getClientRequest req in
  let log := (log ++ [EvEnvelope b])%list in
  let w := respWriter req in
  let codecReq := codecReq req in
  match b with
  | Err err => done (codec_write codecReq w (CodecWriteError 500 err)) h x log
  | Ok b =>
      let r := http req in
      let r := mkHttpRequest (Method r) (ReqHeader r) (ReqURL r) (RequestURI r)
                             b (Z.of_nat (String.length b)) in
      let '(rec, x) := runHandler to x h r in
      let log := (log ++ [EvForward to r])%list in
      match json2_DecodeClientResponse (rec_Body rec) with
      | Err err => done (codec_write codecReq w (CodecWriteError (rec_Code rec) err)) h x log
      | Ok resRes => done (codec_write codecReq w (CodecWriteResponse (PRaw resRes))) h x log
      end
  end.

(** The request once [codec.NewRequest] has read its body. *)
Definition consumed (r : HttpRequest) : HttpRequest :=
  mkHttpRequest (Method r) (ReqHeader r) (ReqURL r) (RequestURI r) "" (ContentLength r).

(** The context [ServeHTTP] builds, on the request with its URL set to the
    resolved one and its request URI cleared. *)
Definition newRequest (rsrv : remoteService) (rpcMethod : gatewaytypes_Method)
    (codecReq : CodecRequest) (w : ResponseWriter) (r : HttpRequest)
    (url : option loc) : Request :=
  let r := mkHttpRequest (Method r) (ReqHeader r) url "" (Body r) (ContentLength r) in
  mkRequest r rpcMethod (Service_Name (rs_Service rsrv)) w codecReq "" "" false.

(** From the construction of the context to the end: resolve the URL, call
    the callback, stop if it responded, else forward. *)
Definition dispatch (g : Gateway) (to : Route) (rsrv : remoteService)
    (rpcMethod : gatewaytypes_Method) (codecReq : CodecRequest)
    (w : ResponseWriter) (r : HttpRequest) (h : store) (x : Ext)
    (log : list Event) : Outcome :=
  let resolved :=
    match rs_URL rsrv with
    | Some l =>
        match resolveURL h x (Some l) with
        | Some (l', h', x') => Some (Some l', h', x')
        | None => None
        end
    | None => Some (None, h, x)
    end in
  match resolved with
  | None => mkOutcome w h x log true
  | Some (url, h, x) =>
      let req := newRequest rsrv rpcMethod codecReq w r url in
      let '(req, log) :=
        match RequestCallback g with
        | Some callback =>
            let '(req', calls) := runCallback (callback req) req in
            (req', (log ++ [EvCallback calls req'])%list)
        | None => (req, log)
        end in
      if responded req then done (respWriter req) h x log
      else forward to req h x log
  end.

(** From [codec.NewRequest(r)] to the end: decode the envelope and route. *)
Definition serveCodec (g : Gateway) (codec : Codec) (w : ResponseWriter)
    (r : HttpRequest) (h : store) (x : Ext) (log : list Event) : Outcome :=
  let codecReq := NewRequest codec r in
  let r := consumed r in
  match codec_Method codecReq with
  | Err err => done (codec_write codecReq w (CodecWriteError 400 err)) h x log
  | Ok m =>
      let '(rsrv, rpcMethod, err) := getMethod g m in
      match err with
      | Some err =>
          match BackupHandler g with
          | Some bh => dispatch g (Backup bh) rsrv rpcMethod codecReq w r h x log
          | None => done (codec_write codecReq w (CodecWriteError 400 err)) h x log
          end
      | None => dispatch g External rsrv rpcMethod codecReq w r h x log
      end
  end.

(** The CORS headers, added when the [Origin] matches. *)
Definition addCORS (g : Gateway) (w : ResponseWriter) (r : HttpRequest) : ResponseWriter :=
  let origin := Header_Get (ReqHeader r) "Origin" in
  if negb (String.eqb origin "")
     && match CORSMatch g with
        | Some re => regexp_MatchString re origin
        | None => false
        end
  then
    let w := w_add_header w "Access-Control-Allow-Origin" origin in
    let w := w_add_header w "Access-Control-Allow-Methods" "GET, POST, OPTIONS" in
    let w := w_add_header w "Access-Control-Allow-Credentials" "true" in
    w_add_header w "Access-Control-Allow-Headers"
                 "DNT, User-Agent, X-Requested-With, Content-Type"
  else w.

(** The [Content-Type] up to the first [;]. *)
Definition stripParams (contentType : string) : string :=
  match strings.Index contentType ";"%char with
  | Some idx => strings.take idx contentType
  | None => contentType
  end.

(** The choice of the codec, on the stripped content type. With no content
    type and one codec in the map the loop over the map takes that one; were
    the loop to find nothing, [codec] would stay nil. *)
Inductive Selection : Type :=
| Selected (codec : Codec)
| Unrecognized
| NilCodec.

Definition selectCodec (g : Gateway) (contentType : string) : Selection :=
  if String.eqb contentType "" && (size (codecs g) =? 1)%nat then
    match map_to_list (codecs g) with
    | (_, c) :: _ => Selected c
    | [] => NilCodec
    end
  else
    match codecs g !! strings_ToLower contentType with
    | None => Unrecognized
    | Some codec => Selected codec
    end.

(** The log a handler invocation starts with: [tick] tells whether the poll
    channel had a tick to deliver, in which case the refresh is started as a
    task of its own. *)
Definition polled (tick : bool) : list Event := if tick then [EvRefresh] else [].

Definition ServeHTTP (g : Gateway) (tick : bool) (w : ResponseWriter)
    (r : HttpRequest) (h : store) (x : Ext) : Outcome :=
  let log := polled tick in
  let w := addCORS g w r in
  if String.eqb (Method r) "OPTIONS" then done w h x log
  else if negb (String.eqb (Method r) "POST") then
    done (writeErrorf w 405 "rpc: POST method required, received %q" [Method r]) h x log
  else
    let contentType := stripParams (Header_Get (ReqHeader r) "Content-Type") in
    match selectCodec g contentType with
    | Selected codec => serveCodec g codec w r h x log
    | Unrecognized =>
        done (writeErrorf w 415 "rpc: unrecognized Content-Type: %q" [contentType]) h x log
    | NilCodec => mkOutcome w h x log true
    end.

(** *** Sequences of lookups, request handlings and refreshes

    [go g.refreshURLs()] starts a task that runs beside the handler and
    whatever comes after it. The system is the gateway with the store, the
    outside world and the number of refreshes started and not yet run. A
    handling adds the refreshes it started (the [EvRefresh] events of its
    log) to that number and returns no gateway; [OpRefresh] is one started
    refresh running, here without another operation in between, and it
    leaves the gateway with the mapping [AddURL] has stored into. A panic of
    [GetMethodURL] leaves everything as it was. *)
Record System : Type := mkSystem {
  sys_gateway : Gateway;
  sys_store : store;
  sys_ext : Ext;
  sys_pending : nat
}.

Inductive Op : Type :=
| OpGetMethod (mStr : string)
| OpGetMethodURL (mStr : string)
| OpServeHTTP (tick : bool) (w : ResponseWriter) (r : HttpRequest)
| OpRefresh.

(** The refreshes a handling started. *)
Definition started (log : list Event) : nat :=
  List.length (List.filter (fun e => match e with EvRefresh => true | _ => false end) log).

Definition step (s : System) (op : Op) : System :=
  let g := sys_gateway s in
  match op with
  | OpGetMethod mStr => let _ := getMethod g mStr in s
  | OpGetMethodURL mStr =>
      match GetMethodURL g (sys_store s) (sys_ext s) mStr with
      | Some (_, h, x, _) => mkSystem g h x (sys_pending s)
      | None => s
      end
  | OpServeHTTP tick w r =>
      let o := ServeHTTP g tick w r (sys_store s) (sys_ext s) in
      mkSystem g (o_store o) (o_ext o) (sys_pending s + started (o_log o))
  | OpRefresh =>
      match sys_pending s with
      | O => s
      | S pending =>
          let '(g, h, x) := refreshURLs g (sys_store s) (sys_ext s) in
          mkSystem g h x pending
      end
  end.

Definition run (s : System) (ops : list Op) : System := foldl step s ops.

(** The CORS headers of a matched origin, in the order they are added. *)
Definition corsHeaders (origin : string) : Header :=
  [("Access-Control-Allow-Origin", origin);
   ("Access-Control-Allow-Methods", "GET, POST, OPTIONS");
   ("Access-Control-Allow-Credentials", "true");
   ("Access-Control-Allow-Headers", "DNT, User-Agent, X-Requested-With, Content-Type")].

(** Every URL pointer of the mapping points into the store. *)
Definition registry_ok (g : Gateway) (h : store) : Prop :=
  ∀ name entry l,
    services g !! name = Some entry → rs_URL entry = Some l → is_Some (h !! l).

(** One response: a plain-text error of the gateway, or one write through
    the codec request. *)
Inductive oneResponse : list Written -> Prop :=
| plainError (status : Z) (text : string) :
    oneResponse [WriteHeader status; Fprint text]
| codecError (status : Z) (err : error) :
    oneResponse [CodecWriteError status err]
| codecResponse (v : Payload) :
    oneResponse [CodecWriteResponse v].

(** What is seen of a handling that has routed the request to [to], served
    by [handler], with the context [req0], the store [h] and the world [x]
    as the resolution of the URL left them: the callback, if there is one,
    is run on [req0]; when it has written, the handling ends there; when it
    has not (or there is none), the client request is built from the
    context the callback left and, once built, the request with it as its
    body goes to [handler] and to nothing else, and what [handler] replied
    is written through the codec request. *)
Definition routedTo (g : Gateway) (to : Route) (handler : Handler) (req0 : Request)
    (h : store) (x : Ext) (log : list Event) (o : Outcome) : Prop :=
  let '(req, calls, called) :=
    match RequestCallback g with
    | Some callback =>
        let '(req, calls) := runCallback (callback req0) req0 in
        (req, calls, [EvCallback calls req])
    | None => (req0, [], [])
    end in
  o_store o = h ∧ o_panic o = false ∧
  if existsb isWrite calls then
    o_log o = (log ++ called)%list ∧ o_ext o = x ∧ o_w o = respWriter req
  else
    match snd (Request_getClientRequest req) with
    | Err err =>
        o_log o = (log ++ called ++ [EvEnvelope (Err err)])%list ∧ o_ext o = x
        ∧ o_w o = codec_write (codecReq req0) (respWriter req) (CodecWriteError 500 err)
    | Ok b =>
        let r := mkHttpRequest (Method (http req)) (ReqHeader (http req)) (ReqURL (http req))
                               (RequestURI (http req)) b (Z.of_nat (String.length b)) in
        o_log o = (log ++ called ++ [EvEnvelope (Ok b); EvForward to r])%list
        ∧ o_ext o = snd (handler x h r)
        ∧ o_w o = codec_write (codecReq req0) (respWriter req)
                    match json2_DecodeClientResponse (rec_Body (fst (handler x h r))) with
                    | Err err => CodecWriteError (rec_Code (fst (handler x h r))) err
                    | Ok resRes => CodecWriteResponse (PRaw resRes)
                    end
    end.

(** The entry [AddURL] stores for a fetched service. *)
Definition entryOf (uu : loc) (u : string) (srv : Service) : remoteService :=
  mkRemoteService srv (Some uu) u.

(** The fetched service that ends up under a name: the last of that name. *)
Definition lastNamed (found : list Service) (name : string) : option Service :=
  List.find (λ srv, String.eqb (Service_Name srv) name) (rev found).

(** The URL string [AddURL] goes on with: [http://] put before a string
    that does not start with [http]. *)
Definition withScheme (u : string) : string :=
  if negb (strings.HasPrefix u "http") then "http://" ++ u else u.

End Gateway.

End gateway.
(** ** Concrete inputs: the types of the repository's tests *)

Module testdata.
Import reflect.

(** [utf8.DecodeRuneInString] and [unicode.IsUpper] on ASCII text, which is
    all the identifiers below use: the first byte is the rune, the empty
    string decodes to [utf8.RuneError], and the upper-case runes are A to Z. *)
Definition ascii_DecodeRune (s : string) : Z :=
  match s with
  | EmptyString => 65533
  | String c _ => Z.of_N (N_of_ascii c)
  end.

Definition ascii_IsUpper (r : Z) : bool := ((65 <=? r) && (r <=? 90))%Z.

Definition builtin (name : string) (k : Kind) : rtype := RBasic (mkName "" name) k.
Definition tInt : rtype := builtin "int" Int.
Definition tString : rtype := builtin "string" String_.
Definition pkg (name : string) : TypeName := mkName "github.com/levenlabs/gatewayrpc" name.
Definition json (name : string) : list (string * string) := [("json", name)].

(** [type FooArgs struct { A int `json:"a"`; B string `json:"b"` }] *)
Definition FooArgs : rtype :=
  RStruct (pkg "FooArgs")
    [mkField "A" (json "a") false tInt; mkField "B" (json "b") false tString].

(** [type FooRes struct { FooArgs FooArgs `json:"args"` }] *)
Definition FooRes : rtype :=
  RStruct (pkg "FooRes") [mkField "FooArgs" (json "args") false FooArgs].

(** [type FooAnonRes struct { FooArgs `json:"args"` }] *)
Definition FooAnonRes : rtype :=
  RStruct (pkg "FooAnonRes") [mkField "FooArgs" (json "args") true FooArgs].

(** [type BazArgs struct { AA int `json:"aa"` }] *)
Definition BazArgs : rtype :=
  RStruct (pkg "BazArgs") [mkField "AA" (json "aa") false tInt].

(** [type BarArgs struct { A int; B []int; C []FooArgs;
    D map[string]interface{}; BazArgs }], each named field tagged with its
    lower-case name. *)
Definition BarArgs : rtype :=
  RStruct (pkg "BarArgs")
    [mkField "A" (json "a") false tInt;
     mkField "B" (json "b") false (RSlice unnamed tInt);
     mkField "C" (json "c") false (RSlice unnamed FooArgs);
     mkField "D" (json "d") false (RMap unnamed tString gatewayrpc.typeOfEmptyInterface);
     mkField "BazArgs" [] true BazArgs].

(** [struct{}], a named empty struct, and a struct that embeds it. *)
Definition emptyStruct : rtype := RStruct unnamed [].
Definition Empty : rtype := RStruct (pkg "Empty") [].
Definition embedsEmpty : StructField rtype := mkField "Empty" [] true Empty.
Definition Outer : rtype := RStruct (pkg "Outer") [embedsEmpty].

(** A named interface without methods, [io.Reader], and a map keyed by
    integers. *)
Definition Any : rtype := RInterface (pkg "Any") [].
Definition Reader : rtype := RInterface (mkName "io" "Reader") ["Read"].
Definition IntKeyed : rtype := RMap unnamed tInt tString.
Definition StringKeyed : rtype := RMap unnamed tString (RSlice unnamed tInt).

(** The handler set of the tests' [TestEndpoint], with a method [Lookup]
    added whose arguments are a map keyed by integers. [Bar], [Foo] and
    [Lookup] have the handler signature (request pointer, pointer to the
    arguments, pointer to the reply, result [error]); [Wat(a, b int)] is a
    plain method. *)
Definition ptr (t : rtype) : rtype := RPtr unnamed t.
Definition TestEndpoint : rtype := RStruct (pkg "TestEndpoint") [].
Definition handler (name : string) (args reply : rtype) : Method :=
  mkMethod name "" [TestEndpoint; ptr gatewayrpc.typeOfRequest; ptr args; ptr reply]
    [gatewayrpc.typeOfError].
Definition Bar : Method := handler "Bar" BarArgs emptyStruct.
Definition Foo : Method := handler "Foo" FooArgs FooRes.
Definition Lookup : Method := handler "Lookup" IntKeyed FooRes.
Definition Wat : Method := mkMethod "Wat" "" [TestEndpoint; tInt; tInt] [].
Definition testEndpoint : Receiver := mkReceiver TestEndpoint [Bar; Foo; Wat].
Definition badEndpoint : Receiver := mkReceiver TestEndpoint [Bar; Foo; Lookup; Wat].

(** A wrapped server that accepts every registration. *)
Definition acceptAll (s : unit) (_ : Receiver) (_ : string) : unit * option string :=
  (s, None).

Definition RegisterService :=
  gatewayrpc.RegisterService ascii_DecodeRune ascii_IsUpper unit acceptAll.

Definition walk : rtype -> result gatewayrpc.error Type_ :=
  gatewayrpc.processType ascii_DecodeRune ascii_IsUpper.

Definition fooArgsType : Type_ :=
  Type_ObjectOf {[ "a" := Type_TypeOf Int; "b" := Type_TypeOf String_ ]}.

Definition barArgsType : Type_ :=
  Type_ObjectOf
    {[ "a" := Type_TypeOf Int;
       "b" := Type_ArrayOf (Type_TypeOf Int);
       "c" := Type_ArrayOf fooArgsType;
       "d" := Type_MapOf (Type_TypeOf Interface);
       "aa" := Type_TypeOf Int ]}.

(** A channel, a struct with an exported and an unexported field of that
    type, and one whose only channel is not exported. *)
Definition tChan : rtype := RChan unnamed tInt.
Definition WithChan : rtype :=
  RStruct (pkg "WithChan")
    [mkField "A" (json "a") false tInt;
     mkField "hidden" [] false tChan;
     mkField "C" [] false tChan;
     mkField "B" (json "b") false tString].
Definition HidesChan : rtype :=
  RStruct (pkg "HidesChan")
    [mkField "A" (json "a") false tInt; mkField "hidden" [] false tChan].

(** A handler whose arguments are a pointer to a pointer to [FooArgs]. *)
Definition PtrPtr : Method :=
  mkMethod "PtrPtr" "" [TestEndpoint; ptr gatewayrpc.typeOfRequest; ptr (ptr FooArgs); ptr FooRes]
    [gatewayrpc.typeOfError].
Definition ptrEndpoint : Receiver := mkReceiver TestEndpoint [Foo; PtrPtr].

End testdata.


(** ** Concrete inputs for the gateway: a small world to run it in *)

Module gateway_test.
Import gateway.

Definition asciiLower (c : ascii) : ascii :=
  let n := nat_of_ascii c in
  if ((65 <=? n) && (n <=? 90))%nat then ascii_of_nat (n + 32) else c.

Fixpoint toLower (s : string) : string :=
  match s with
  | EmptyString => EmptyString
  | String c rest => String (asciiLower c) (toLower rest)
  end.

(** A codec for booleans, written [true] and [false]. *)
Definition marshal (v : bool) : result error bytes :=
  Ok (if v then "true" else "false").

Definition unmarshal (b : bytes) (_ : unit) : result error bool :=
  if String.eqb b "true" then Ok true
  else if String.eqb b "false" then Ok false
  else Err (errOther "invalid character").

(** [http://host] and nothing else parses. *)
Definition parse (u : string) : result error URL :=
  if String.prefix "http://" u
  then Ok (mkURL "http" "" None (String.substring 7 (String.length u - 7) u) "" "" false "" "")
  else Err (errOther "first path segment in URL cannot contain colon").

Definition urlString (u : URL) : string := Scheme u ++ "://" ++ Host u ++ Path u.

(** The service every reachable backend describes. *)
Definition TestEndpoint : Service :=
  mkService "TestEndpoint"
    {[ "Bar" := mkMethod_ "Bar" (Some testdata.barArgsType) (Some (Type_ObjectOf ∅));
       "Foo" := mkMethod_ "Foo" (Some testdata.fooArgsType)
                  (Some (Type_ObjectOf {[ "args" := testdata.fooArgsType ]})) ]}.

(** The outside world counts the SRV lookups made. The name [backend]
    resolves to an address; only that address answers. *)
Definition maybeSRV (x : nat) (host : string) : string * nat :=
  (if String.eqb host "backend" then "10.0.0.1:8080" else host, S x).

Definition getServices (x : nat) (u : string) : result error (list Service) * nat :=
  if String.eqb u "http://10.0.0.1:8080" then (Ok [TestEndpoint], x)
  else (Err (errOther "connection refused"), x).

Definition clientDo (x : nat) (_ : store) (r : HttpRequest)
  : result error (string * bytes) * nat :=
  (Ok ("application/json", "echo " ++ Body r), x).

#[local] Instance world : Externals := {|
  Value := bool;
  Target := unit;
  Ext := nat;
  Regexp := string;
  regexp_MatchString := fun re s => String.prefix re s;
  strings_ToLower := toLower;
  json_Marshal := marshal;
  json_Unmarshal := unmarshal;
  json2_EncodeClientRequest := fun m params => Ok (m ++ " " ++ params);
  json2_DecodeClientResponse := fun b =>
    if String.eqb b "" then Err (errOther "EOF") else Ok b;
  url_Parse := parse;
  URL_String := urlString;
  srv_MaybeSRV := maybeSRV;
  rpcutil_GetServices := getServices;
  fmt_Sprintf := fun msg args => String.concat " " (msg :: args);
  http_DefaultClient_Do := clientDo
|}.

(** What the writes of the codec do to the headers, as those of [json2]. *)
Definition jsonHeader (_ : Written) (hd : Header) : Header :=
  Header_Set hd "Content-Type" "application/json; charset=utf-8".

(** A codec whose envelope is the method, a space, and the parameters. *)
Definition envelope (r : HttpRequest) : CodecRequest :=
  match strings.cut " "%char (Body r) with
  | Some (m, params) =>
      mkCodecRequest (Ok m) (fun v => unmarshal params v) (Ok params) jsonHeader
  | None =>
      mkCodecRequest (Err (errOther "rpc: invalid request"))
                     (fun _ => Err (errOther "rpc: invalid request"))
                     (Err (errOther "rpc: invalid request"))
                     jsonHeader
  end.

Definition codec : Codec := mkCodec envelope.

(** A backup handler that answers [pong]. *)
Definition backup : Handler := fun x _ _ => (mkRecorder 200 "pong", x).

(** The callback of the tests: on [TestEndpoint.Bar] it reads the arguments
    and answers itself when they say so. *)
Definition callback (_ : Request) : Callback :=
  CallMethod (fun m =>
    match m with
    | Ok "TestEndpoint.Bar" =>
        CallReadRequest tt (fun a =>
          match a with
          | Err _ => CallWriteError 400 (errOther "couldn't read args") Return
          | Ok true => CallWriteResponse true Return
          | Ok false => Return
          end)
    | _ => Return
    end).

Definition backendURL : URL := mkURL "http" "" None "backend" "" "" false "" "".

(** A gateway that knows [TestEndpoint] at [http://backend] (location 0 of
    the store), with one codec, the callback, and CORS for origins that
    start with [https://app.]. *)
Definition registry : gmap string remoteService :=
  {[ "TestEndpoint" := mkRemoteService TestEndpoint (Some 0%nat) "http://backend" ]}.

Definition testGateway : Gateway :=
  mkGateway registry {[ "application/json" := codec ]} None (Some callback)
            (Some "https://app.").

Definition withBackup : Gateway :=
  mkGateway registry {[ "application/json" := codec ]} (Some backup) None None.

(** The same with the backup handler and the callback. *)
Definition withBoth : Gateway :=
  mkGateway registry {[ "application/json" := codec ]} (Some backup) (Some callback) None.

(** The same with an expression that matches every origin, the empty one
    included. *)
Definition openCORS : Gateway :=
  mkGateway registry {[ "application/json" := codec ]} None None (Some "").

Definition testStore : store := [backendURL].

(** A gateway that has fetched [TestEndpoint] from [http://elsewhere], which
    has stopped answering, and [Legacy] from [http://backend], which by now
    describes [TestEndpoint]. *)
Definition elsewhereURL : URL := mkURL "http" "" None "elsewhere" "" "" false "" "".

Definition Legacy : Service := mkService "Legacy" ∅.

Definition migrated : Gateway :=
  mkGateway {[ "TestEndpoint" := mkRemoteService TestEndpoint (Some 0%nat) "http://elsewhere";
               "Legacy" := mkRemoteService Legacy (Some 1%nat) "http://backend" ]}
            {[ "application/json" := codec ]} None None None.

Definition migratedStore : store := [elsewhereURL; backendURL].

(** The world before any SRV lookup. *)
Definition x0 : @Ext world := 0%nat.

Definition freshWriter : ResponseWriter := mkResponseWriter [] [].

Definition post (contentType body : string) : HttpRequest :=
  mkHttpRequest "POST" [("Content-Type", contentType)] None "/" body
                (Z.of_nat (String.length body)).

Definition preflight (origin : string) : HttpRequest :=
  mkHttpRequest "OPTIONS" [("Origin", origin)] None "/" "" 0.

Definition postFrom (origin body : string) : HttpRequest :=
  mkHttpRequest "POST" [("Origin", origin); ("Content-Type", "application/json")] None "/"
                body (Z.of_nat (String.length body)).

(** A context as [getFooRequest] of the tests builds it. *)
Definition fooRequest : Request :=
  let r := post "application/json" "Test.Test true" in
  mkRequest r zeroMethod "" freshWriter (envelope r) "" "" false.

(** The same world with a JSON encoder that refuses [false]. *)
Definition marshalTrue (v : bool) : result error bytes :=
  if v then Ok "true" else Err (errOther "json: unsupported value").

#[local] Instance strictWorld : Externals := {|
  Value := bool;
  Target := unit;
  Ext := nat;
  Regexp := string;
  regexp_MatchString := fun re s => String.prefix re s;
  strings_ToLower := toLower;
  json_Marshal := marshalTrue;
  json_Unmarshal := unmarshal;
  json2_EncodeClientRequest := fun m params => Ok (m ++ " " ++ params);
  json2_DecodeClientResponse := fun b =>
    if String.eqb b "" then Err (errOther "EOF") else Ok b;
  url_Parse := parse;
  URL_String := urlString;
  srv_MaybeSRV := maybeSRV;
  rpcutil_GetServices := getServices;
  fmt_Sprintf := fun msg args => String.concat " " (msg :: args);
  http_DefaultClient_Do := clientDo
|}.

Definition strictRequest : @Request strictWorld :=
  mkRequest (H := strictWorld) (post "application/json" "Test.Test true") zeroMethod ""
    (mkResponseWriter (H := strictWorld) [] [])
    (mkCodecRequest (H := strictWorld) (Ok "Test.Test") (fun v => unmarshal "true" v) (Ok "true")
       (fun _ hd => hd))
    "" "" false.

Definition get : HttpRequest := mkHttpRequest "GET" [] None "/" "" 0.

End gateway_test.
(** ** The extractor on the tests' types ([TestProcessType]) *)

Example processType_FooArgs :
  testdata.walk (reflect.RPtr reflect.unnamed testdata.FooArgs) = Ok testdata.fooArgsType.
Proof. vm_compute. reflexivity. Qed.

Example processType_BarArgs :
  testdata.walk (reflect.RPtr reflect.unnamed testdata.BarArgs) = Ok testdata.barArgsType.
Proof. vm_compute. reflexivity. Qed.

Example processType_FooRes :
  testdata.walk testdata.FooRes = Ok (Type_ObjectOf {[ "args" := testdata.fooArgsType ]}).
Proof. vm_compute. reflexivity. Qed.

Example processType_FooAnonRes :
  testdata.walk testdata.FooAnonRes = Ok testdata.fooArgsType.
Proof. vm_compute. reflexivity. Qed.

Example processType_emptyStruct :
  testdata.walk testdata.emptyStruct = Ok (Type_ObjectOf ∅).
Proof. vm_compute. reflexivity. Qed.

Example getMethods_TestEndpoint :
  gatewayrpc.getMethods testdata.ascii_DecodeRune testdata.ascii_IsUpper testdata.testEndpoint
  = [testdata.Bar; testdata.Foo].
Proof. reflexivity. Qed.

Example RegisterService_TestEndpoint :
  gatewayrpc.services unit
    (fst (testdata.RegisterService (gatewayrpc.mkServer unit tt []) testdata.testEndpoint ""))
  = [mkService "TestEndpoint"
       {[ "Bar" := mkMethod_ "Bar" (Some testdata.barArgsType) (Some (Type_ObjectOf ∅));
          "Foo" := mkMethod_ "Foo" (Some testdata.fooArgsType)
                     (Some (Type_ObjectOf {[ "args" := testdata.fooArgsType ]})) ]}].
Proof. vm_compute. reflexivity. Qed.

(** ** The type walk *)

Section ExtractorFacts.
Import reflect gatewayrpc.

Variable dec : string -> Z.
Variable up : Z -> bool.

Abbreviation processType := (gatewayrpc.processType dec up).
Abbreviation processField := (gatewayrpc.processField dec up).
Abbreviation processFields := (gatewayrpc.processFields dec up).
Abbreviation isExported := (gatewayrpc.isExported dec up).

(** The walk looks through one pointer. *)
Lemma processType_deref n t :
  Kind_of t ≠ Ptr → processType (RPtr n t) = processType t.
Proof. destruct t; simpl; intros H; try reflexivity; congruence. Qed.

Lemma processType_struct n fields :
  processType (RStruct n fields)
  = (m <- processFields processType ∅ fields ;; Ok (Type_ObjectOf m)).
Proof. reflexivity. Qed.

(** The fields are handled in textual order: the last one is applied to the
    map the earlier ones built. *)
Lemma processFields_snoc walk m fields f :
  processFields walk m (fields ++ [f])
  = (m' <- processFields walk m fields ;; processField walk m' f).
Proof.
  revert m. induction fields as [|g rest IH]; intros m; simpl.
  - destruct (processField walk m f); reflexivity.
  - destruct (processField walk m g) as [m'|e]; simpl; [apply IH | reflexivity].
Qed.

Lemma len_ObjectOf_pos innerT :
  (0 <? len_ObjectOf innerT)%nat = true
  ↔ ∃ o, ObjectOf innerT = Some o ∧ o ≠ ∅.
Proof.
  unfold len_ObjectOf. destruct (ObjectOf innerT) as [o|]; split.
  - intros H. exists o. split; [reflexivity|]. intros ->.
    rewrite map_size_empty in H. discriminate.
  - intros (o' & [= <-] & Hne). apply Nat.ltb_lt.
    destruct (size o) eqn:Hs; [|lia]. apply map_size_empty_iff in Hs. contradiction.
  - discriminate.
  - intros (o' & Hd & _). discriminate.
Qed.

(** C1, as the code has it. For an exported field whose type walks to
    [innerT], and whatever map [m] the earlier fields built: an embedded
    field whose walk is an object arm with at least one field is merged into
    [m], its entries replacing those of [m] under the same keys and every
    other key keeping its entry; a field that is not embedded, or whose walk
    is not an object arm, or is an object arm without fields, is inserted
    under its wire key, replacing what [m] had there; and the fields of a
    struct are applied in textual order, the last on top of the others. *)
Theorem processField_flattening (m : gmap string Type_) (f : StructField rtype)
    (innerT : Type_) :
  isExported (Field_Name f) = true →
  processType (Field_Type f) = Ok innerT →
  (∀ o, Anonymous f = true → ObjectOf innerT = Some o → o ≠ ∅ →
     processField processType m f = Ok (o ∪ m)
     ∧ (∀ k v, o !! k = Some v → (o ∪ m) !! k = Some v)
     ∧ (∀ k, o !! k = None → (o ∪ m) !! k = m !! k))
  ∧ (Anonymous f = false ∨ ObjectOf innerT = None ∨ ObjectOf innerT = Some ∅ →
     processField processType m f = Ok (<[getFieldKey f := innerT]> m)
     ∧ <[getFieldKey f := innerT]> m !! getFieldKey f = Some innerT
     ∧ (∀ k, k ≠ getFieldKey f → <[getFieldKey f := innerT]> m !! k = m !! k))
  ∧ (∀ n fields,
       processType (RStruct n (fields ++ [f]))
       = (m0 <- processFields processType ∅ fields ;;
          m1 <- processField processType m0 f ;;
          Ok (Type_ObjectOf m1))).
Proof.
  intros Hexp Hwalk. split; [|split].
  - intros o Hanon Hobj Hne. split; [|split].
    + unfold gatewayrpc.processField. rewrite Hexp, Hwalk, Hanon. simpl.
      assert ((0 <? len_ObjectOf innerT)%nat = true) as ->
        by (apply len_ObjectOf_pos; eauto).
      rewrite Hobj. reflexivity.
    + intros k v Hk. apply lookup_union_Some_l. exact Hk.
    + intros k Hk. apply lookup_union_r. exact Hk.
  - intros Hcase. split; [|split].
    + unfold gatewayrpc.processField. rewrite Hexp, Hwalk. simpl.
      destruct (Anonymous f); [|reflexivity]. simpl.
      destruct ((0 <? len_ObjectOf innerT)%nat) eqn:Hlen; [|reflexivity].
      apply len_ObjectOf_pos in Hlen as (o & Hobj & Hne).
      destruct Hcase as [?|[Hn|He]]; congruence.
    + apply lookup_insert_eq.
    + intros k Hk. apply lookup_insert_ne. congruence.
  - intros n fields. rewrite processType_struct, processFields_snoc.
    destruct (processFields processType ∅ fields); reflexivity.
Qed.

(** A handler whose argument or reply type fails the walk fails the loop
    over the accepted methods, wherever it stands in the list. *)
Lemma registerMethods_fails methods acc method recv req in2 in3 :
  method ∈ methods →
  In method = [recv; req; in2; in3] →
  isOk (processType in2) && isOk (processType in3) = false →
  ∃ e, registerMethods dec up methods acc = Err e.
Proof.
  intros Hin HIn Hwalk. revert acc.
  induction Hin as [method rest | method other rest Hin IH]; intros acc; simpl.
  - rewrite HIn. destruct (processType in2); simpl in *; eauto.
    destruct (processType in3); simpl in *; eauto. discriminate.
  - destruct (In other) as [|? [|? [|a2 [|a3 [|]]]]]; auto.
    destruct (processType a2); simpl; eauto.
    destruct (processType a3); simpl; eauto.
Qed.

(** Whenever [RegisterService] returns an error, the list of services is the
    one it started with. *)
Lemma RegisterService_error_keeps_services RpcServer reg
    (s : Server RpcServer) rcv name :
  snd (RegisterService dec up RpcServer reg s rcv name) ≠ None →
  services _ (fst (RegisterService dec up RpcServer reg s rcv name)) = services _ s.
Proof.
  unfold RegisterService. destruct (reg (Server_rpc _ s) rcv name) as [inner [e|]].
  - reflexivity.
  - destruct (getName dec up rcv name); [|reflexivity].
    destruct (registerMethods dec up (getMethods dec up rcv) ∅); [|reflexivity].
    simpl. congruence.
Qed.

Lemma RegisterService_fails_as_a_whole RpcServer reg
    (s : Server RpcServer) rcv name method recv req in2 in3 :
  method ∈ getMethods dec up rcv →
  In method = [recv; req; in2; in3] →
  isOk (processType in2) && isOk (processType in3) = false →
  snd (RegisterService dec up RpcServer reg s rcv name) ≠ None
  ∧ services _ (fst (RegisterService dec up RpcServer reg s rcv name)) = services _ s.
Proof.
  intros Hin HIn Hwalk.
  assert (snd (RegisterService dec up RpcServer reg s rcv name) ≠ None) as Hfail.
  { unfold RegisterService. destruct (reg (Server_rpc _ s) rcv name) as [inner [e|]].
    - discriminate.
    - destruct (getName dec up rcv name); [|discriminate].
      destruct (registerMethods_fails _ ∅ _ _ _ _ _ Hin HIn Hwalk) as [e ->].
      discriminate. }
  split; [exact Hfail|]. apply RegisterService_error_keeps_services, Hfail.
Qed.

Lemma Kind_eqb_eq a b : Kind_eqb a b = true ↔ a = b.
Proof.
  unfold Kind_eqb. rewrite N.eqb_eq. split; [|congruence].
  destruct a, b; simpl; intros H; try reflexivity; discriminate.
Qed.

(** C7. A map type whose key is not of kind string fails the walk with the
    unsupported-map-type error, directly or behind one pointer, and then
    [RegisterService] of a receiver with an accepted handler whose arguments
    or reply are such a map returns an error and adds no service; with a key
    of kind string the walk gives the map arm over the walk of the value
    type, and fails as that walk fails. *)
Theorem processType_map (n : TypeName) (k e : rtype) :
  (Kind_of k ≠ String_ →
     processType (RMap n k e) = Err (errUnsupportedMapType (RMap n k e))
     ∧ (∀ pn, processType (RPtr pn (RMap n k e)) = Err (errUnsupportedMapType (RMap n k e)))
     ∧ (∀ RpcServer reg (s : Server RpcServer) rcv name method recv req pn args reply,
          method ∈ getMethods dec up rcv →
          In method = [recv; req; RPtr pn (RMap n k e); reply]
          ∨ In method = [recv; req; args; RPtr pn (RMap n k e)] →
          snd (RegisterService dec up RpcServer reg s rcv name) ≠ None
          ∧ services _ (fst (RegisterService dec up RpcServer reg s rcv name))
            = services _ s))
  ∧ (Kind_of k = String_ →
     processType (RMap n k e) = (innerT <- processType e ;; Ok (Type_MapOf innerT))
     ∧ (∀ innerT, processType e = Ok innerT →
          processType (RMap n k e) = Ok (Type_MapOf innerT))
     ∧ (∀ err, processType e = Err err → processType (RMap n k e) = Err err)).
Proof.
  split.
  - intros Hk.
    assert (processType (RMap n k e) = Err (errUnsupportedMapType (RMap n k e))) as Hmap.
    { simpl. destruct (Kind_eqb (Kind_of k) String_) eqn:Heq; [|reflexivity].
      apply Kind_eqb_eq in Heq. contradiction. }
    assert (∀ pn, processType (RPtr pn (RMap n k e))
                  = Err (errUnsupportedMapType (RMap n k e))) as Hptr.
    { intros pn. rewrite processType_deref by discriminate. exact Hmap. }
    split; [exact Hmap|]. split; [exact Hptr|].
    intros RpcServer reg s rcv name method recv req pn args reply Hin [HIn | HIn];
      (eapply RegisterService_fails_as_a_whole; [exact Hin | exact HIn |]);
      rewrite (Hptr pn); simpl; [reflexivity | apply andb_false_r].
  - intros Hk.
    assert (processType (RMap n k e) = (innerT <- processType e ;; Ok (Type_MapOf innerT)))
      as Hmap.
    { simpl. apply Kind_eqb_eq in Hk. rewrite Hk. reflexivity. }
    split; [exact Hmap|]. split.
    + intros innerT Hw. rewrite Hmap, Hw. reflexivity.
    + intros err Hw. rewrite Hmap, Hw. reflexivity.
Qed.

(** C8. The walk of [interface{}] is a scalar leaf of kind [Interface], also
    behind one pointer, and the walk of every other interface type fails
    with the unsupported-interface error. *)
Theorem processType_interface (n : TypeName) (methods : list string) :
  processType typeOfEmptyInterface = Ok (Type_TypeOf Interface)
  ∧ (∀ pn, processType (RPtr pn typeOfEmptyInterface) = Ok (Type_TypeOf Interface))
  ∧ (RInterface n methods ≠ typeOfEmptyInterface →
     processType (RInterface n methods) = Err (errUnsupportedInterface (RInterface n methods))
     ∧ ∀ pn, processType (RPtr pn (RInterface n methods))
             = Err (errUnsupportedInterface (RInterface n methods))).
Proof.
  split; [reflexivity|]. split; [reflexivity|].
  intros Hne.
  assert (rtype_eqb (RInterface n methods) typeOfEmptyInterface = false) as Heq.
  { destruct n as [p nm], methods as [|x rest]; simpl.
    - destruct p as [|c p']; simpl.
      + destruct nm as [|c nm']; simpl; [|reflexivity].
        exfalso. apply Hne. reflexivity.
      + reflexivity.
    - apply andb_false_r. }
  assert (processType (RInterface n methods)
          = Err (errUnsupportedInterface (RInterface n methods))) as Hwalk.
  { change (processType (RInterface n methods))
      with (if negb (rtype_eqb (RInterface n methods) typeOfEmptyInterface)
            then Err (errUnsupportedInterface (RInterface n methods))
            else Ok (Type_TypeOf Interface) : result error Type_).
    rewrite Heq. reflexivity. }
  split; [exact Hwalk|]. intros pn. rewrite processType_deref by discriminate. exact Hwalk.
Qed.

End ExtractorFacts.

(** ** The extractor at concrete types *)

(** [BarArgs] embeds [BazArgs], whose walk is an object with the field
    [aa]: merged; its field [A] is inserted under the tag's name. *)
Lemma processField_flattening_witness :
  let m : gmap string Type_ := {[ "aa" := Type_TypeOf String_; "z" := Type_TypeOf Bool ]} in
  gatewayrpc.processField testdata.ascii_DecodeRune testdata.ascii_IsUpper testdata.walk m
    (reflect.mkField "BazArgs" [] true testdata.BazArgs)
  = Ok ({[ "aa" := Type_TypeOf Int ]} ∪ m)
  ∧ gatewayrpc.processField testdata.ascii_DecodeRune testdata.ascii_IsUpper testdata.walk m
      (reflect.mkField "A" (testdata.json "a") false testdata.tInt)
    = Ok (<["a" := Type_TypeOf Int]> m).
Proof.
  intros m. split.
  - refine (proj1 (proj1 (processField_flattening testdata.ascii_DecodeRune
      testdata.ascii_IsUpper m (reflect.mkField "BazArgs" [] true testdata.BazArgs)
      (Type_ObjectOf {[ "aa" := Type_TypeOf Int ]}) _ _) _ _ _ _)).
    + reflexivity.
    + vm_compute. reflexivity.
    + reflexivity.
    + reflexivity.
    + intros H. apply (f_equal (fun o : gmap string Type_ => o !! "aa")) in H.
      vm_compute in H. discriminate.
  - refine (proj1 (proj1 (proj2 (processField_flattening testdata.ascii_DecodeRune
      testdata.ascii_IsUpper m (reflect.mkField "A" (testdata.json "a") false testdata.tInt)
      (Type_TypeOf Int) _ _)) _)).
    + reflexivity.
    + reflexivity.
    + left. reflexivity.
Defined.

(** C1 as stated fails: [Outer] embeds the empty struct [Empty], whose walk
    is an object arm without fields; the rule as specified merges nothing
    and leaves the enclosing object empty, the code inserts the empty object
    under the key [Empty]. *)
Lemma embedded_empty_struct_not_flattened :
  testdata.walk testdata.Empty = Ok (Type_ObjectOf ∅)
  ∧ gatewayrpc.flattening_rule_spec testdata.ascii_DecodeRune testdata.ascii_IsUpper
      testdata.walk ∅ testdata.embedsEmpty = Ok ∅
  ∧ gatewayrpc.processField testdata.ascii_DecodeRune testdata.ascii_IsUpper
      testdata.walk ∅ testdata.embedsEmpty = Ok {[ "Empty" := Type_ObjectOf ∅ ]}
  ∧ testdata.walk testdata.Outer = Ok (Type_ObjectOf {[ "Empty" := Type_ObjectOf ∅ ]})
  ∧ gatewayrpc.processField testdata.ascii_DecodeRune testdata.ascii_IsUpper
      testdata.walk ∅ testdata.embedsEmpty
    ≠ gatewayrpc.flattening_rule_spec testdata.ascii_DecodeRune testdata.ascii_IsUpper
        testdata.walk ∅ testdata.embedsEmpty.
Proof.
  split; [vm_compute; reflexivity|].
  split; [vm_compute; reflexivity|].
  split; [vm_compute; reflexivity|].
  split; [vm_compute; reflexivity|].
  intros H.
  apply (f_equal (fun r : result gatewayrpc.error (gmap string Type_) =>
                    match r with Ok m => m !! "Empty" | Err _ => None end)) in H.
  vm_compute in H. discriminate.
Qed.

(** [map[int]string] fails the walk and the registration of a receiver
    with the handler [Lookup]; [map[string][]int] walks to a map arm. *)
Lemma processType_map_witness :
  (testdata.walk testdata.IntKeyed = Err (gatewayrpc.errUnsupportedMapType testdata.IntKeyed)
   ∧ snd (testdata.RegisterService (gatewayrpc.mkServer unit tt []) testdata.badEndpoint "")
     ≠ None
   ∧ gatewayrpc.services unit
       (fst (testdata.RegisterService (gatewayrpc.mkServer unit tt []) testdata.badEndpoint ""))
     = [])
  ∧ testdata.walk testdata.StringKeyed = Ok (Type_MapOf (Type_ArrayOf (Type_TypeOf Int))).
Proof.
  split.
  - pose proof (proj1 (processType_map testdata.ascii_DecodeRune testdata.ascii_IsUpper
      reflect.unnamed testdata.tInt testdata.tString)) as H.
    destruct H as (Hwalk & _ & Hreg); [discriminate|].
    split; [exact Hwalk|].
    apply (Hreg unit testdata.acceptAll (gatewayrpc.mkServer unit tt []) testdata.badEndpoint ""
             testdata.Lookup testdata.TestEndpoint (testdata.ptr gatewayrpc.typeOfRequest)
             reflect.unnamed testdata.tInt (testdata.ptr testdata.FooRes)).
    + vm_compute. do 2 apply list_elem_of_further. apply list_elem_of_here.
    + left. reflexivity.
  - pose proof (proj2 (processType_map testdata.ascii_DecodeRune testdata.ascii_IsUpper
      reflect.unnamed testdata.tString (reflect.RSlice reflect.unnamed testdata.tInt))) as H.
    destruct H as (_ & Hok & _); [reflexivity|].
    apply Hok. reflexivity.
Defined.

(** [io.Reader], and a named interface without methods, are rejected. *)
Lemma processType_interface_witness :
  testdata.walk testdata.Reader = Err (gatewayrpc.errUnsupportedInterface testdata.Reader)
  ∧ testdata.walk testdata.Any = Err (gatewayrpc.errUnsupportedInterface testdata.Any).
Proof.
  split.
  - apply (processType_interface testdata.ascii_DecodeRune testdata.ascii_IsUpper
             (reflect.mkName "io" "Reader") ["Read"]). discriminate.
  - apply (processType_interface testdata.ascii_DecodeRune testdata.ascii_IsUpper
             (testdata.pkg "Any") []). discriminate.
Defined.

(** ** The request context *)

Section RequestFacts.
Import gateway.
Context `{Externals}.

(** [encoding/json] never marshals a value to nothing: the shortest
    encodings are a digit, [{}], [[]] and the like, and an empty result of a
    custom marshaller is refused as invalid JSON. *)
Hypothesis json_Marshal_nonempty :
  ∀ (v : Value) (b : bytes), json_Marshal v = Ok b → b ≠ "".

Lemma length_pos (b : bytes) : b ≠ "" → (0 <? String.length b)%nat = true.
Proof. destruct b; [congruence | reflexivity]. Qed.

(** C4. After a successful [UpdateRequest(M, P)] with [M] not empty and [P]
    not nil, on any context: [Method()] returns [M]; the pending arguments
    are the JSON encoding of [P]; and [ReadRequest] decodes that encoding
    into its destination, whatever the codec holds. Nothing else of the
    context changes. *)
Theorem UpdateRequest_Method_ReadRequest (r r' : Request) (M : string) (P : Value) :
  M ≠ "" →
  Request_UpdateRequest r M (Some P) = (r', None) →
  Request_Method r' = Ok M
  ∧ (∃ a, json_Marshal P = Ok a ∧ args r' = a
          ∧ ∀ out, Request_ReadRequest r' out = json_Unmarshal a out)
  ∧ newMethod r' = M
  ∧ responded r' = responded r
  ∧ respWriter r' = respWriter r
  ∧ codecReq r' = codecReq r.
Proof.
  intros HM. unfold Request_UpdateRequest.
  destruct (String.eqb M "") eqn:HMe; [apply String.eqb_eq in HMe; contradiction|].
  simpl. destruct (json_Marshal P) as [a|err] eqn:Hmar; [|discriminate].
  intros [= <-]. split; [|split].
  - unfold Request_Method. simpl. rewrite HMe. reflexivity.
  - exists a. split; [reflexivity|]. split; [reflexivity|].
    intros out. unfold Request_ReadRequest. simpl.
    rewrite (length_pos a); [reflexivity|]. eapply json_Marshal_nonempty, Hmar.
  - repeat split.
Qed.

End RequestFacts.

(** ** Registration of backends *)

Section RegistryFacts.
Import gateway.
Context `{Externals}.

Lemma extends_refl h : extends h h.
Proof. intros l u Hl. exact Hl. Qed.

Lemma extends_trans h1 h2 h3 : extends h2 h1 → extends h3 h2 → extends h3 h1.
Proof. intros H12 H23 l u Hl. apply H23, H12, Hl. Qed.

Lemma extends_app h (us : list URL) : extends (h ++ us) h.
Proof. intros l u Hl. apply lookup_app_l_Some. exact Hl. Qed.

(** C10. When [AddURL] returns an error, whichever of its three it is, the
    gateway (its service mapping included) is the one it was called on and
    the store has lost nothing; and the mapping changes only when the fetch
    of [RPC.GetServices] has succeeded, to the fetched services stored over
    the old mapping. *)
Theorem AddURL_error_keeps_services (g g' : Gateway) (h h' : store) (x x' : Ext)
    (u : string) (ret : option error) :
  AddURL g h x u = (g', h', x', ret) →
  (∀ err, ret = Some err → g' = g ∧ services g' = services g ∧ extends h' h)
  ∧ (services g' ≠ services g →
     ret = None
     ∧ ∃ found url x0 x1 orig,
         rpcutil_GetServices x0 url = (Ok found, x1)
         ∧ services g' = addServices (services g) found (List.length h) orig).
Proof.
  unfold AddURL.
  set (u0 := if negb (strings.HasPrefix u "http") then "http://" ++ u else u).
  destruct (url_Parse u0) as [parsed|err0] eqn:Hparse.
  - destruct (String.eqb (Host parsed) "") eqn:Hhost.
    + intros [= <- <- <- <-]. split.
      * intros err _. split; [reflexivity|]. split; [reflexivity|]. apply extends_app.
      * intros Hne. contradiction.
    + destruct (resolvedCopy x parsed) as [uu2 x0] eqn:Hres.
      destruct (rpcutil_GetServices x0 (URL_String uu2)) as [[found|err1] x1] eqn:Hfetch.
      * intros [= <- <- <- <-]. split.
        -- intros err [=].
        -- intros _. split; [reflexivity|].
           exists found, (URL_String uu2), x0, x1, u0. split; [exact Hfetch|reflexivity].
      * intros [= <- <- <- <-]. split.
        -- intros err _. split; [reflexivity|]. split; [reflexivity|].
           rewrite <- app_assoc. apply extends_app.
        -- intros Hne. contradiction.
  - intros [= <- <- <- <-]. split.
    + intros err _. split; [reflexivity|]. split; [reflexivity|]. apply extends_refl.
    + intros Hne. contradiction.
Qed.

Lemma find_app {A} (p : A → bool) (l1 l2 : list A) :
  List.find p (l1 ++ l2)
  = match List.find p l1 with Some x => Some x | None => List.find p l2 end.
Proof.
  induction l1 as [|x l1 IH]; simpl; [reflexivity|]. destruct (p x); [reflexivity | exact IH].
Qed.

(** The mapping after the loop of [AddURL]: under a name the last fetched
    service of that name, else what was there. *)
Lemma addServices_lookup (found : list Service) (uu : loc) (u : string) :
  ∀ (m : gmap string remoteService) (name : string),
    addServices m found uu u !! name
    = match lastNamed found name with
      | Some srv => Some (entryOf uu u srv)
      | None => m !! name
      end.
Proof.
  unfold addServices, lastNamed.
  induction found as [|srv rest IH]; intros m name; simpl; [reflexivity|].
  rewrite IH, find_app. simpl.
  destruct (List.find _ (rev rest)); [reflexivity|].
  rewrite lookup_insert.
  destruct (String.eqb (Service_Name srv) name) eqn:Hname.
  - apply String.eqb_eq in Hname. rewrite decide_True by exact Hname. reflexivity.
  - apply String.eqb_neq in Hname. rewrite decide_False by exact Hname. reflexivity.
Qed.

(** The two ways [AddURL] returns. *)
Lemma AddURL_inv (g g' : Gateway) (h h' : store) (x x' : Ext) (u : string)
    (ret : option error) :
  AddURL g h x u = (g', h', x', ret) →
  (ret ≠ None ∧ g' = g ∧ extends h' h)
  ∨ (ret = None
     ∧ ∃ parsed found,
         let host := fst (srv_MaybeSRV x (Host parsed)) in
         url_Parse (withScheme u) = Ok parsed
         ∧ Host parsed ≠ ""
         ∧ h' = (h ++ [parsed; URL_with_Host parsed host])%list
         ∧ rpcutil_GetServices (snd (srv_MaybeSRV x (Host parsed)))
             (URL_String (URL_with_Host parsed host)) = (Ok found, x')
         ∧ g' = set_services g
                  (addServices (services g) found (List.length h) (withScheme u))).
Proof.
  unfold AddURL. fold (withScheme u).
  destruct (url_Parse (withScheme u)) as [parsed|err0] eqn:Hparse.
  - destruct (String.eqb (Host parsed) "") eqn:Hhost.
    + intros [= <- <- <- <-]. left. split; [discriminate|]. split; [reflexivity|].
      apply extends_app.
    + unfold resolvedCopy.
      destruct (srv_MaybeSRV x (Host parsed)) as [host x0] eqn:Hsrv.
      destruct (rpcutil_GetServices x0 (URL_String (URL_with_Host parsed host)))
        as [[found|err1] x1] eqn:Hfetch; intros [= <- <- <- <-].
      * right. split; [reflexivity|]. exists parsed, found. rewrite Hsrv. simpl.
        split; [reflexivity|]. split; [apply String.eqb_neq, Hhost|].
        split; [rewrite <- app_assoc; reflexivity|].
        split; [exact Hfetch | reflexivity].
      * left. split; [discriminate|]. split; [reflexivity|].
        rewrite <- app_assoc. apply extends_app.
  - intros [= <- <- <- <-]. left. split; [discriminate|]. split; [reflexivity|].
    apply extends_refl.
Qed.

Lemma AddURL_mono (g g' : Gateway) (h h' : store) (x x' : Ext) (u : string)
    (ret : option error) :
  AddURL g h x u = (g', h', x', ret) →
  (∀ name, is_Some (services g !! name) → is_Some (services g' !! name))
  ∧ extends h' h
  ∧ codecs g' = codecs g.
Proof.
  intros Hadd. destruct (AddURL_inv _ _ _ _ _ _ _ _ Hadd) as [(_ & -> & Hext) | [_ Hok]].
  - auto.
  - destruct Hok as (parsed & found & _ & _ & -> & _ & ->).
    split; [|split; [apply extends_app | reflexivity]].
    intros name Hname. simpl. rewrite addServices_lookup.
    destruct (lastNamed found name); [eauto | exact Hname].
Qed.

(** A refresh is a sequence of [AddURL]s: it takes no name out of the
    mapping and no URL out of the store, and leaves the codecs. *)
Lemma refreshURLs_mono (g : Gateway) (h : store) (x : Ext) :
  (∀ name, is_Some (services g !! name) →
           is_Some (services (refreshURLs g h x).1.1 !! name))
  ∧ extends (refreshURLs g h x).1.2 h
  ∧ codecs (refreshURLs g h x).1.1 = codecs g.
Proof.
  unfold refreshURLs. generalize (snd <$> map_to_list (services g)). intros srvs.
  assert (∀ g0 h0 x0,
            (∀ name, is_Some (services g !! name) → is_Some (services g0 !! name)) →
            extends h0 h → codecs g0 = codecs g →
            let r := foldl (λ '(g, h, x) srv,
                              let '(g, h, x, _) := AddURL g h x (origURL srv) in (g, h, x))
                           (g0, h0, x0) srvs in
            (∀ name, is_Some (services g !! name) → is_Some (services r.1.1 !! name))
            ∧ extends r.1.2 h ∧ codecs r.1.1 = codecs g) as Hfold.
  { induction srvs as [|srv rest IH]; intros g0 h0 x0 Hs Hh Hc; simpl; [auto|].
    destruct (AddURL g0 h0 x0 (origURL srv)) as [[[g1 h1] x1] ret] eqn:Hres.
    destruct (AddURL_mono _ _ _ _ _ _ _ _ Hres) as (A1 & A2 & A3).
    apply IH; [auto | eapply extends_trans; eauto | congruence]. }
  apply Hfold; [auto | apply extends_refl | reflexivity].
Qed.

End RegistryFacts.

Create HintDb store discriminated.
#[global] Hint Resolve extends_refl extends_app : store.

(** ** The handler: CORS and the choice of the codec *)

Section HandlerFacts.
Import gateway.
Context `{Externals}.

Lemma cut_Some sep s a b :
  strings.cut sep s = Some (a, b) → s = a ++ String sep b.
Proof.
  revert a b. induction s as [|c rest IH]; intros a b; simpl; [discriminate|].
  destruct (Ascii.eqb c sep) eqn:Hc.
  - intros [= <- <-]. apply Ascii.eqb_eq in Hc. subst. reflexivity.
  - destruct (strings.cut sep rest) as [[a' b']|]; [|discriminate].
    intros [= <- <-]. rewrite (IH a' b' eq_refl) at 1. reflexivity.
Qed.

Lemma take_length_app a rest : strings.take (String.length a) (a ++ rest) = a.
Proof.
  unfold strings.take. induction a as [|c a IH].
  - destruct rest; reflexivity.
  - change (String c (String.substring 0 (String.length a) (a ++ rest)) = String c a).
    f_equal. exact IH.
Qed.

(** The stripped content type is the text before the first [;]. *)
Lemma stripParams_cut contentType :
  stripParams contentType
  = match strings.cut ";"%char contentType with
    | Some (before, _) => before
    | None => contentType
    end.
Proof.
  unfold stripParams, strings.Index.
  destruct (strings.cut ";"%char contentType) as [[a b]|] eqn:Hcut; [|reflexivity].
  rewrite (cut_Some _ _ _ _ Hcut). apply take_length_app.
Qed.

(** A map of size one is a singleton, and the loop over it finds its one
    entry. *)
Lemma size_one_singleton (m : gmap string Codec) :
  size m = 1%nat → ∃ k c, m = {[ k := c ]} ∧ map_to_list m = [(k, c)].
Proof.
  intros Hsize. rewrite <- length_map_to_list in Hsize.
  destruct (map_to_list m) as [|[k c] [|? ?]] eqn:Hl; try discriminate.
  exists k, c. split; [|reflexivity].
  rewrite <- (list_to_map_to_list m), Hl. reflexivity.
Qed.

Lemma selectCodec_spec (g : Gateway) (contentType : string) :
  (∀ c, codecs g !! strings_ToLower contentType = Some c →
        selectCodec g contentType = Selected c)
  ∧ (contentType = "" → size (codecs g) = 1%nat →
     ∃ k c, codecs g = {[ k := c ]} ∧ selectCodec g contentType = Selected c)
  ∧ (codecs g !! strings_ToLower contentType = None →
     ¬ (contentType = "" ∧ size (codecs g) = 1%nat) →
     selectCodec g contentType = Unrecognized).
Proof.
  unfold selectCodec. split; [|split].
  - intros c Hc.
    destruct (String.eqb contentType "" && (size (codecs g) =? 1)%nat) eqn:Hone.
    + apply andb_true_iff in Hone as [_ Hsize]. apply Nat.eqb_eq in Hsize.
      destruct (size_one_singleton _ Hsize) as (k & c' & Hm & ->).
      rewrite Hm in Hc. apply lookup_singleton_Some in Hc as [_ ->]. reflexivity.
    + rewrite Hc. reflexivity.
  - intros -> Hsize. destruct (size_one_singleton _ Hsize) as (k & c & Hm & Hl).
    exists k, c. split; [exact Hm|].
    rewrite Hl. simpl. rewrite Hsize. reflexivity.
  - intros Hnone Hnot.
    destruct (String.eqb contentType "" && (size (codecs g) =? 1)%nat) eqn:Hone.
    + apply andb_true_iff in Hone as [Hct Hsize].
      apply String.eqb_eq in Hct. apply Nat.eqb_eq in Hsize. tauto.
    + rewrite Hnone. reflexivity.
Qed.

Lemma addCORS_written (g : Gateway) (w : ResponseWriter) (r : HttpRequest) :
  written (addCORS g w r) = written w.
Proof. unfold addCORS. destruct (negb _ && _); reflexivity. Qed.

(** *** What the phases of the handler leave behind *)

Lemma Request_UpdateRequest_frame (r : Request) method params :
  let r' := fst (Request_UpdateRequest r method params) in
  respWriter r' = respWriter r ∧ responded r' = responded r
  ∧ http r' = http r ∧ codecReq r' = codecReq r.
Proof.
  unfold Request_UpdateRequest.
  destruct (negb (String.eqb method "")), params as [p|]; simpl;
    try destruct (json_Marshal p); simpl; repeat split.
Qed.

Lemma foldl_codec_write_written (c : CodecRequest) (evs : list Written) :
  ∀ w, written (foldl (codec_write c) w evs) = (written w ++ evs)%list.
Proof.
  induction evs as [|ev rest IH]; intros w; simpl.
  - rewrite app_nil_r. reflexivity.
  - rewrite IH. simpl. rewrite <- app_assoc. reflexivity.
Qed.

(** The callback's writes are those of the codec request, made on the
    response in the order of its calls, and [responded] is set by the first
    write and never cleared. *)
Lemma runCallback_spec (cb : Callback) (r : Request) :
  let r' := fst (runCallback cb r) in
  let calls := snd (runCallback cb r) in
  written (respWriter r') = (written (respWriter r) ++ flat_map writes_of calls)%list
  ∧ respWriter r' = foldl (codec_write (codecReq r)) (respWriter r) (flat_map writes_of calls)
  ∧ responded r' = responded r || existsb isWrite calls
  ∧ http r' = http r
  ∧ codecReq r' = codecReq r.
Proof.
  revert r. induction cb as [|k IH|v k IH|method params k IH|status err k IH|i k IH];
    intros r; simpl.
  - rewrite app_nil_r, orb_false_r. repeat split.
  - specialize (IH (Request_Method r) r).
    destruct (runCallback (k (Request_Method r)) r) as [r' calls]. exact IH.
  - specialize (IH (Request_ReadRequest r v) r).
    destruct (runCallback (k (Request_ReadRequest r v)) r) as [r' calls]. exact IH.
  - pose proof (Request_UpdateRequest_frame r method params) as Hframe.
    destruct (Request_UpdateRequest r method params) as [r1 e]. simpl in Hframe.
    destruct Hframe as (Hw & Hr & Hh & Hc).
    specialize (IH e r1). destruct (runCallback (k e) r1) as [r' calls].
    simpl in *. rewrite <- Hw, <- Hr, <- Hh, <- Hc. exact IH.
  - specialize (IH (Request_WriteError r status err)).
    destruct (runCallback k (Request_WriteError r status err)) as [r' calls].
    simpl in *. destruct IH as (Hw & Hfold & Hr & Hh & Hc).
    rewrite Hw, Hfold, Hr, Hh, Hc, <- app_assoc, orb_true_r. repeat split.
  - specialize (IH (Request_WriteResponse r i)).
    destruct (runCallback k (Request_WriteResponse r i)) as [r' calls].
    simpl in *. destruct IH as (Hw & Hfold & Hr & Hh & Hc).
    rewrite Hw, Hfold, Hr, Hh, Hc, <- app_assoc, orb_true_r. repeat split.
Qed.

Lemma wrote_writes (calls : list Call) :
  existsb isWrite calls = true → flat_map writes_of calls ≠ [].
Proof.
  induction calls as [|c rest IH]; simpl; [discriminate|].
  destruct c; simpl; try exact IH; discriminate.
Qed.

Lemma Request_getClientRequest_frame (r : Request) :
  respWriter (fst (Request_getClientRequest r)) = respWriter r.
Proof.
  unfold Request_getClientRequest.
  destruct (String.length (args r) =? 0)%nat.
  - destruct (codec_ReadRequest_raw (codecReq r)); simpl; [|reflexivity].
    destruct (Request_Method _); reflexivity.
  - destruct (Request_Method r); reflexivity.
Qed.

Lemma Request_getClientRequest_codecReq (r : Request) :
  codecReq (fst (Request_getClientRequest r)) = codecReq r
  ∧ http (fst (Request_getClientRequest r)) = http r.
Proof.
  unfold Request_getClientRequest.
  destruct (String.length (args r) =? 0)%nat.
  - destruct (codec_ReadRequest_raw (codecReq r)); simpl; [|split; reflexivity].
    destruct (Request_Method _); split; reflexivity.
  - destruct (Request_Method r); split; reflexivity.
Qed.

(** Forwarding builds the envelope first and forwards once it is built;
    whatever comes of it is written by one call of the codec request. *)
Lemma forward_spec (to : Route) (req : Request) (h : store) (x : Ext) (log : list Event) :
  let o := forward to req h x log in
  (∃ tail, o_log o = (log ++ EvEnvelope (snd (Request_getClientRequest req)) :: tail)%list
           ∧ (tail = [] ∨ ∃ r', tail = [EvForward to r']))
  ∧ (∃ ev, o_w o = codec_write (codecReq req) (respWriter req) ev)
  ∧ o_store o = h
  ∧ o_panic o = false.
Proof.
  unfold forward. pose proof (Request_getClientRequest_frame req) as Hw.
  destruct (Request_getClientRequest_codecReq req) as [Hc _].
  destruct (Request_getClientRequest req) as [req' [b|err]]; simpl in *.
  - destruct (runHandler to x h _) as [rec x'].
    destruct (json2_DecodeClientResponse (rec_Body rec)); simpl;
      rewrite Hw, Hc, <- app_assoc; simpl; eauto 10.
  - rewrite Hw, Hc. eauto 10.
Qed.

Lemma resolveURL_spec (h h' : store) (x x' : Ext) (uu : option loc) (l' : loc) :
  resolveURL h x uu = Some (l', h', x') →
  ∃ l u, uu = Some l ∧ h !! l = Some u
         ∧ l' = List.length h
         ∧ h' = (h ++ [URL_with_Host u (fst (srv_MaybeSRV x (Host u)))])%list
         ∧ x' = snd (srv_MaybeSRV x (Host u)).
Proof.
  unfold resolveURL, resolvedCopy. destruct uu as [l|]; [|discriminate].
  destruct (h !! l) as [u|] eqn:Hl; [|discriminate].
  destruct (srv_MaybeSRV x (Host u)) as [host x0] eqn:Hs. intros [= <- <- <-].
  exists l, u. rewrite Hs. simpl. auto 10.
Qed.

Lemma resolveURL_extends (h h' : store) (x x' : Ext) (uu : option loc) (l' : loc) :
  resolveURL h x uu = Some (l', h', x') → extends h' h.
Proof.
  intros Hres. apply resolveURL_spec in Hres as (l & u & _ & _ & _ & -> & _).
  apply extends_app.
Qed.

(** The three ways [dispatch] ends. *)
Lemma dispatch_cases (g : Gateway) (to : Route) (rsrv : remoteService)
    (rpcMethod : gatewaytypes_Method) (codecReq : CodecRequest)
    (w : ResponseWriter) (r : HttpRequest) (h : store) (x : Ext) (log : list Event) :
  let o := dispatch g to rsrv rpcMethod codecReq w r h x log in
  (o = mkOutcome w h x log true)
  ∨ (∃ url h' x' req0,
       extends h' h
       ∧ req0 = newRequest rsrv rpcMethod codecReq w r url
       ∧ ((RequestCallback g = None
           ∧ o = forward to req0 h' x' log)
          ∨ (∃ callback req calls,
               RequestCallback g = Some callback
               ∧ runCallback (callback req0) req0 = (req, calls)
               ∧ ((responded req = true
                   ∧ o = done (respWriter req) h' x' (log ++ [EvCallback calls req]))
                  ∨ (responded req = false
                     ∧ o = forward to req h' x' (log ++ [EvCallback calls req])))))).
Proof.
  unfold dispatch.
  destruct (rs_URL rsrv) as [l|].
  - destruct (resolveURL h x (Some l)) as [[[l' h'] x']|] eqn:Hres; [|left; reflexivity].
    right. exists (Some l'), h', x', (newRequest rsrv rpcMethod codecReq w r (Some l')).
    split; [eapply resolveURL_extends, Hres|]. split; [reflexivity|].
    destruct (RequestCallback g) as [callback|]; [right|left].
    + destruct (runCallback _ _) as [req calls] eqn:Hrun.
      exists callback, req, calls. split; [reflexivity|]. split; [exact Hrun|].
      destruct (responded req); [left|right]; split; reflexivity.
    + split; reflexivity.
  - right. exists None, h, x, (newRequest rsrv rpcMethod codecReq w r None).
    split; [apply extends_refl|]. split; [reflexivity|].
    destruct (RequestCallback g) as [callback|]; [right|left].
    + destruct (runCallback _ _) as [req calls] eqn:Hrun.
      exists callback, req, calls. split; [reflexivity|]. split; [exact Hrun|].
      destruct (responded req); [left|right]; split; reflexivity.
    + split; reflexivity.
Qed.

(** [dispatch] leaves the store grown at most, and the response as one or
    more writes of the codec request have left it. *)
Lemma dispatch_frame (g : Gateway) (to : Route) (rsrv : remoteService)
    (rpcMethod : gatewaytypes_Method) (codecReq : CodecRequest)
    (w : ResponseWriter) (r : HttpRequest) (h : store) (x : Ext) (log : list Event) :
  let o := dispatch g to rsrv rpcMethod codecReq w r h x log in
  extends (o_store o) h
  ∧ ((o_panic o = true ∧ o_w o = w)
     ∨ (o_panic o = false
        ∧ ∃ evs, evs ≠ [] ∧ o_w o = foldl (codec_write codecReq) w evs)).
Proof.
  intros o. subst o.
  destruct (dispatch_cases g to rsrv rpcMethod codecReq w r h x log)
    as [-> | (url & h' & x' & req0 & Hext & -> & Hcases)].
  - split; [apply extends_refl | left; split; reflexivity].
  - destruct Hcases as [[_ ->] | (callback & req & calls & _ & Hrun & Hcases)].
    + destruct (forward_spec to (newRequest rsrv rpcMethod codecReq w r url) h' x' log)
        as (_ & [ev ->] & -> & ->). split; [exact Hext|]. right. split; [reflexivity|].
      exists [ev]. split; [discriminate | reflexivity].
    + pose proof (runCallback_spec (callback (newRequest rsrv rpcMethod codecReq w r url))
                    (newRequest rsrv rpcMethod codecReq w r url)) as Hcb.
      rewrite Hrun in Hcb. simpl in Hcb. destruct Hcb as (_ & Hfold & Hresp & _ & Hc).
      destruct Hcases as [[Hr ->] | [_ ->]].
      * split; [exact Hext|]. right. split; [reflexivity|].
        exists (flat_map writes_of calls). split; [|exact Hfold].
        apply wrote_writes. rewrite Hr in Hresp. symmetry. exact Hresp.
      * destruct (forward_spec to req h' x' (log ++ [EvCallback calls req]))
          as (_ & [ev ->] & -> & ->). split; [exact Hext|]. right. split; [reflexivity|].
        exists (flat_map writes_of calls ++ [ev])%list.
        split; [intros Hnil; apply app_eq_nil in Hnil as [_ Hnil]; discriminate|].
        rewrite foldl_app, Hc, Hfold. reflexivity.
Qed.

Lemma serveCodec_frame (g : Gateway) (codec : Codec) (w : ResponseWriter)
    (r : HttpRequest) (h : store) (x : Ext) (log : list Event) :
  let o := serveCodec g codec w r h x log in
  extends (o_store o) h
  ∧ ((o_panic o = true ∧ o_w o = w)
     ∨ (o_panic o = false
        ∧ ∃ evs, evs ≠ [] ∧ o_w o = foldl (codec_write (NewRequest codec r)) w evs)).
Proof.
  assert (∀ ev, ∃ evs, evs ≠ []
            ∧ codec_write (NewRequest codec r) w ev
              = foldl (codec_write (NewRequest codec r)) w evs) as Hone.
  { intros ev. exists [ev]. split; [discriminate | reflexivity]. }
  unfold serveCodec. destruct (codec_Method (NewRequest codec r)) as [m|err].
  - destruct (getMethod g m) as [[rsrv rpcMethod] [err|]].
    + destruct (BackupHandler g) as [bh|]; [apply dispatch_frame|].
      split; [auto with store | right; split; [reflexivity | apply Hone]].
    + apply dispatch_frame.
  - split; [auto with store | right; split; [reflexivity | apply Hone]].
Qed.

(** The callback is handed the request of the codec that serves. *)
Lemma serveCodec_callback (g : Gateway) (codec : Codec) (w : ResponseWriter)
    (r : HttpRequest) (h : store) (x : Ext) (log : list Event)
    (calls : list Call) (after : Request) :
  (∀ c a, EvCallback c a ∉ log) →
  EvCallback calls after ∈ o_log (serveCodec g codec w r h x log) →
  codecReq after = NewRequest codec r.
Proof.
  intros Hlog. unfold serveCodec.
  assert (∀ to rsrv rpcMethod,
            EvCallback calls after
              ∈ o_log (dispatch g to rsrv rpcMethod (NewRequest codec r) w (consumed r) h x log) →
            codecReq after = NewRequest codec r) as Hdispatch.
  { intros to rsrv rpcMethod.
    destruct (dispatch_cases g to rsrv rpcMethod (NewRequest codec r) w (consumed r) h x log)
      as [-> | (url & h' & x' & req0 & _ & -> & Hcases)].
    { intros Hin. destruct (Hlog _ _ Hin). }
    assert (∀ req l, EvCallback calls after ∈ o_log (forward to req h' x' l) →
                     EvCallback calls after ∈ l) as Hfwd.
    { intros req l. destruct (forward_spec to req h' x' l) as ((tail & -> & Htail) & _).
      rewrite elem_of_app, elem_of_cons. intros [Hin | [Heq | Hin]];
        [exact Hin | discriminate |].
      destruct Htail as [-> | [r' ->]].
      - apply elem_of_nil in Hin. contradiction.
      - apply list_elem_of_singleton in Hin. discriminate. }
    destruct Hcases as [[_ ->] | (callback & req & calls0 & _ & Hrun & Hcases)].
    { intros Hin. apply Hfwd in Hin. destruct (Hlog _ _ Hin). }
    pose proof (runCallback_spec (callback (newRequest rsrv rpcMethod (NewRequest codec r)
                                              w (consumed r) url))
                  (newRequest rsrv rpcMethod (NewRequest codec r) w (consumed r) url)) as Hcb.
    rewrite Hrun in Hcb. simpl in Hcb. destruct Hcb as (_ & _ & _ & _ & Hc).
    assert (EvCallback calls after ∈ (log ++ [EvCallback calls0 req])%list →
            codecReq after = NewRequest codec r) as Hsame.
    { rewrite elem_of_app, list_elem_of_singleton. intros [Hl | [= -> ->]].
      - destruct (Hlog _ _ Hl).
      - exact Hc. }
    destruct Hcases as [[_ ->] | [_ ->]].
    - exact Hsame.
    - intros Hin. apply Hfwd in Hin. apply Hsame, Hin. }
  destruct (codec_Method (NewRequest codec r)) as [m|err].
  - destruct (getMethod g m) as [[rsrv rpcMethod] [err|]]; [|apply Hdispatch].
    destruct (BackupHandler g) as [bh|]; [apply Hdispatch|].
    intros Hin. destruct (Hlog _ _ Hin).
  - intros Hin. destruct (Hlog _ _ Hin).
Qed.

Lemma polled_no_callback tick calls after : EvCallback calls after ∉ polled tick.
Proof.
  destruct tick; simpl.
  - intros Hin. apply list_elem_of_singleton in Hin. discriminate.
  - apply not_elem_of_nil.
Qed.

(** C5. For a POST request, with [contentType] the [Content-Type] header cut
    at its first [;] (the text before it, the whole header without one): a
    codec registered under the lower-cased [contentType] serves the request,
    as does the codec last given to [RegisterCodec] with a content type that
    lower-cases to the same; with an empty [contentType] and exactly one
    codec registered, that codec serves it; in every other case the response
    is the plain-text error 415 and nothing else happens. That a codec
    serves the request shows in what comes of it: the request is decoded by
    that codec (an error of its [Method()] is the one reported, with status
    400, and through its own error framer), the callback is handed the
    request of that codec, and unless the handling panics the response is
    what one or more writes of that codec's request have made of the
    response after the CORS step, and of no other codec's. *)
Theorem ServeHTTP_codec_selection (g : Gateway) (tick : bool) (w : ResponseWriter)
    (r : HttpRequest) (h : store) (x : Ext) :
  Method r = "POST" →
  let header := Header_Get (ReqHeader r) "Content-Type" in
  let contentType := stripParams header in
  let o := ServeHTTP g tick w r h x in
  let w' := addCORS g w r in
  let serves (c : Codec) : Prop :=
    o = serveCodec g c w' r h x (polled tick)
    ∧ (∀ err, codec_Method (NewRequest c r) = Err err →
         o = done (codec_write (NewRequest c r) w' (CodecWriteError 400 err)) h x (polled tick))
    ∧ (∀ calls after, EvCallback calls after ∈ o_log o → codecReq after = NewRequest c r)
    ∧ (o_panic o = false →
       ∃ evs, evs ≠ [] ∧ o_w o = foldl (codec_write (NewRequest c r)) w' evs
              ∧ written (o_w o) = (written w ++ evs)%list) in
  contentType = match strings.cut ";"%char header with
                | Some (before, _) => before
                | None => header
                end
  ∧ (∀ c, codecs g !! strings_ToLower contentType = Some c → serves c)
  ∧ (∀ g0 c registered,
       g = RegisterCodec g0 c registered →
       strings_ToLower contentType = strings_ToLower registered →
       serves c)
  ∧ (contentType = "" → size (codecs g) = 1%nat →
     ∃ k c, codecs g = {[ k := c ]} ∧ serves c)
  ∧ (codecs g !! strings_ToLower contentType = None →
     ¬ (contentType = "" ∧ size (codecs g) = 1%nat) →
     o = done (writeErrorf w' 415 "rpc: unrecognized Content-Type: %q" [contentType])
              h x (polled tick)
     ∧ written (o_w o)
       = (written w ++ [WriteHeader 415;
                        Fprint (fmt_Sprintf "rpc: unrecognized Content-Type: %q" [contentType])])%list).
Proof.
  intros HPOST header contentType o w' serves.
  destruct (selectCodec_spec g contentType) as (Hreg & Hone & Hnone).
  assert (∀ sel, selectCodec g contentType = sel →
            o = match sel with
                | Selected codec => serveCodec g codec w' r h x (polled tick)
                | Unrecognized =>
                    done (writeErrorf w' 415
                            "rpc: unrecognized Content-Type: %q" [contentType]) h x (polled tick)
                | NilCodec => mkOutcome w' h x (polled tick) true
                end) as Hserve.
  { intros sel <-. subst o. unfold ServeHTTP. rewrite HPOST. reflexivity. }
  assert (∀ c, selectCodec g contentType = Selected c → serves c) as Hserves.
  { intros c Hsel. pose proof (Hserve _ Hsel) as Ho. simpl in Ho.
    unfold serves. rewrite Ho. split; [reflexivity|]. split; [|split].
    - intros err Herr. unfold serveCodec. rewrite Herr. reflexivity.
    - intros calls after. apply serveCodec_callback. apply polled_no_callback.
    - intros Hpanic.
      destruct (serveCodec_frame g c w' r h x (polled tick))
        as [_ [[Hp _] | (_ & evs & Hne & Hw)]]; [congruence|].
      exists evs. split; [exact Hne|]. split; [exact Hw|].
      rewrite Hw, foldl_codec_write_written. subst w'. rewrite addCORS_written. reflexivity. }
  split; [apply stripParams_cut|]. split; [|split; [|split]].
  - intros c Hc. apply Hserves, Hreg, Hc.
  - intros g0 c registered Hg Hkey. apply Hserves, Hreg.
    rewrite Hkey, Hg. simpl. apply lookup_insert_eq.
  - intros Hct Hsize. destruct (Hone Hct Hsize) as (k & c & Hm & Hsel).
    exists k, c. split; [exact Hm | apply Hserves, Hsel].
  - intros Hc Hnot. rewrite (Hserve _ (Hnone Hc Hnot)). split; [reflexivity|].
    simpl. subst w'. rewrite addCORS_written, <- app_assoc. reflexivity.
Qed.

(** *** The headers of the response *)

Lemma Header_Values_app (h1 h2 : Header) (k : string) :
  Header_Values (h1 ++ h2) k = (Header_Values h1 k ++ Header_Values h2 k)%list.
Proof. unfold Header_Values. rewrite List.filter_app, fmap_app. reflexivity. Qed.

(** [Set] on one key leaves the values of every other key. *)
Lemma Header_Values_Set (h : Header) (key value k : string) :
  k ≠ key → Header_Values (Header_Set h key value) k = Header_Values h k.
Proof.
  intros Hk. unfold Header_Set. rewrite Header_Values_app.
  assert (Header_Values [(key, value)] k = []) as ->.
  { unfold Header_Values. simpl.
    destruct (String.eqb key k) eqn:He; [|reflexivity].
    apply String.eqb_eq in He. congruence. }
  rewrite app_nil_r. unfold Header_Values. f_equal.
  induction h as [|[k' v'] rest IH]; simpl; [reflexivity|].
  destruct (String.eqb k' key) eqn:Hkey; simpl.
  - apply String.eqb_eq in Hkey. subst k'.
    destruct (String.eqb key k) eqn:He; [|exact IH].
    apply String.eqb_eq in He. congruence.
  - destruct (String.eqb k' k); [f_equal|]; exact IH.
Qed.

Lemma codec_writes_Header_Values (c : CodecRequest) (k : string) (evs : list Written) :
  (∀ ev hd, Header_Values (codec_Header c ev hd) k = Header_Values hd k) →
  ∀ w, Header_Values (RespHeader (foldl (codec_write c) w evs)) k
       = Header_Values (RespHeader w) k.
Proof.
  intros Hkeeps. induction evs as [|ev rest IH]; intros w; simpl; [reflexivity|].
  rewrite IH. simpl. apply Hkeeps.
Qed.

(** The codec the handler picks is one of the registered ones. *)
Lemma selectCodec_registered (g : Gateway) (contentType : string) (c : Codec) :
  selectCodec g contentType = Selected c → ∃ key, codecs g !! key = Some c.
Proof.
  unfold selectCodec.
  destruct (String.eqb contentType "" && (size (codecs g) =? 1)%nat).
  - destruct (map_to_list (codecs g)) as [|[k c'] rest] eqn:Hl; [discriminate|].
    intros [= ->]. exists k. apply elem_of_map_to_list. rewrite Hl. apply list_elem_of_here.
  - destruct (codecs g !! strings_ToLower contentType) as [c'|] eqn:Hc; [|discriminate].
    intros [= ->]. eauto.
Qed.

(** A request handling leaves the store grown at most, and the response as
    it was after the CORS step, or with one plain-text error of the gateway
    on it, or with the writes of the request of a registered codec on it. *)
Lemma ServeHTTP_frame (g : Gateway) (tick : bool) (w : ResponseWriter)
    (r : HttpRequest) (h : store) (x : Ext) :
  let o := ServeHTTP g tick w r h x in
  let w' := addCORS g w r in
  extends (o_store o) h
  ∧ (o_w o = w'
     ∨ (∃ status msg args, o_w o = writeErrorf w' status msg args)
     ∨ (∃ key c evs, codecs g !! key = Some c
                     ∧ o_w o = foldl (codec_write (NewRequest c r)) w' evs)).
Proof.
  unfold ServeHTTP.
  destruct (String.eqb (Method r) "OPTIONS").
  { split; [auto with store | left; reflexivity]. }
  destruct (negb (String.eqb (Method r) "POST")).
  { split; [auto with store | right; left; eauto]. }
  destruct (selectCodec g _) as [codec| |] eqn:Hsel.
  - destruct (serveCodec_frame g codec (addCORS g w r) r h x (polled tick))
      as [He [[_ Hw] | (_ & evs & _ & Hw)]].
    + split; [exact He | left; exact Hw].
    + split; [exact He|]. right. right.
      destruct (selectCodec_registered _ _ _ Hsel) as [key Hkey]. eauto.
  - split; [auto with store | right; left; eauto].
  - split; [auto with store | left; reflexivity].
Qed.

(** The values of a header other than [Content-Type] that no registered
    codec touches are, at the end, those after the CORS step. *)
Lemma ServeHTTP_Header_Values (g : Gateway) (tick : bool) (w : ResponseWriter)
    (r : HttpRequest) (h : store) (x : Ext) (k : string) :
  k ≠ "Content-Type" →
  (∀ key c ev hd, codecs g !! key = Some c →
     Header_Values (codec_Header (NewRequest c r) ev hd) k = Header_Values hd k) →
  Header_Values (RespHeader (o_w (ServeHTTP g tick w r h x))) k
  = Header_Values (RespHeader (addCORS g w r)) k.
Proof.
  intros Hk Hkeeps.
  destruct (ServeHTTP_frame g tick w r h x)
    as [_ [-> | [(status & msg & args & ->) | (key & c & evs & Hc & ->)]]].
  - reflexivity.
  - simpl. apply Header_Values_Set, Hk.
  - apply codec_writes_Header_Values. intros ev hd. eapply Hkeeps, Hc.
Qed.

(** C6, as the code has it. For a request whose [Origin] is not empty and
    matches the configured expression: the handler adds to the response
    headers the four headers [Access-Control-Allow-Origin] (the origin),
    [Access-Control-Allow-Methods], [Access-Control-Allow-Credentials] and
    [Access-Control-Allow-Headers] with their fixed values, in this order
    and nothing else; whatever the handler goes on to do, a header other
    than [Content-Type] that no registered codec touches has at the end the
    values it had and, behind them, the value the CORS step gave it, if any;
    and an OPTIONS request ends there, with nothing written: no body, and
    the status 200 of a response nobody set a status on. A request whose
    [Origin] is empty is one without [Origin]: nothing is added, whatever
    the expression matches. *)
Theorem ServeHTTP_CORS (g : Gateway) (tick : bool) (w : ResponseWriter)
    (r : HttpRequest) (h : store) (x : Ext) :
  let origin := Header_Get (ReqHeader r) "Origin" in
  let o := ServeHTTP g tick w r h x in
  (∀ re, origin ≠ "" →
     CORSMatch g = Some re →
     regexp_MatchString re origin = true →
     addCORS g w r = mkResponseWriter (RespHeader w ++ corsHeaders origin) (written w)
     ∧ (∀ k, k ≠ "Content-Type" →
          (∀ key c ev hd, codecs g !! key = Some c →
             Header_Values (codec_Header (NewRequest c r) ev hd) k = Header_Values hd k) →
          Header_Values (RespHeader (o_w o)) k
          = (Header_Values (RespHeader w) k ++ Header_Values (corsHeaders origin) k)%list)
     ∧ (Method r = "OPTIONS" →
        o = done (mkResponseWriter (RespHeader w ++ corsHeaders origin) (written w))
                 h x (polled tick)
        ∧ written (o_w o) = written w
        ∧ (written w = [] → statusCode (o_w o) = Some 200%Z)))
  ∧ (origin = "" →
     addCORS g w r = w ∧ (Method r = "OPTIONS" → o = done w h x (polled tick))).
Proof.
  intros origin o. split.
  - intros re Horigin Hre Hmatch.
    assert (addCORS g w r = mkResponseWriter (RespHeader w ++ corsHeaders origin) (written w))
      as Hcors.
    { unfold addCORS. fold origin. rewrite Hre, Hmatch.
      destruct (String.eqb origin "") eqn:He; [apply String.eqb_eq in He; contradiction|].
      simpl. unfold w_add_header, Header_Add. simpl.
      rewrite <- !app_assoc. reflexivity. }
    split; [exact Hcors|]. split.
    + intros k Hk Hkeeps. subst o.
      rewrite (ServeHTTP_Header_Values g tick w r h x k Hk Hkeeps), Hcors. simpl.
      apply Header_Values_app.
    + intros HOPT. subst o. unfold ServeHTTP. rewrite HOPT, Hcors. simpl.
      split; [reflexivity|]. split; [reflexivity|].
      intros Hw. unfold statusCode. simpl. rewrite Hw. reflexivity.
  - intros Hempty.
    assert (addCORS g w r = w) as Hcors.
    { unfold addCORS. fold origin. rewrite Hempty. reflexivity. }
    split; [exact Hcors|]. intros HOPT. subst o. unfold ServeHTTP.
    rewrite HOPT, Hcors. reflexivity.
Qed.

End HandlerFacts.

(** ** The handler: the callback, routing, and the registry *)

Section RoutingFacts.
Import gateway.
Context `{Externals}.

(** Closes a goal whose premise has the callback's event in a log that has
    seen the poll only. *)
Ltac never_called :=
  let Hin := fresh "Hin" in
  intros Hin; destruct (polled_no_callback _ _ _ Hin).

Lemma forward_no_callback to req h x log calls after :
  EvCallback calls after ∈ o_log (forward to req h x log) →
  EvCallback calls after ∈ log.
Proof.
  destruct (forward_spec to req h x log) as ((tail & -> & Htail) & _).
  rewrite elem_of_app, elem_of_cons. intros [Hin | [Heq | Hin]].
  - exact Hin.
  - discriminate.
  - destruct Htail as [-> | [r' ->]].
    + apply elem_of_nil in Hin. contradiction.
    + apply list_elem_of_singleton in Hin. discriminate.
Qed.

(** A callback that wrote ends the handling in [dispatch]. *)
Lemma dispatch_responded (g : Gateway) (to : Route) (rsrv : remoteService)
    (rpcMethod : gatewaytypes_Method) (codecReq : CodecRequest)
    (w : ResponseWriter) (r : HttpRequest) (h : store) (x : Ext) (log : list Event)
    (calls : list Call) (after : Request) :
  let o := dispatch g to rsrv rpcMethod codecReq w r h x log in
  (∀ c a, EvCallback c a ∉ log) →
  EvCallback calls after ∈ o_log o →
  existsb isWrite calls = true →
  responded after = true
  ∧ o_log o = (log ++ [EvCallback calls after])%list
  ∧ o_w o = respWriter after
  ∧ written (respWriter after) = (written w ++ flat_map writes_of calls)%list
  ∧ o_panic o = false.
Proof.
  intros o Hlog Hin Hwrote. subst o.
  destruct (dispatch_cases g to rsrv rpcMethod codecReq w r h x log)
    as [Heq | (url & h' & x' & req0 & Hext & -> & Hcases)].
  { rewrite Heq in Hin. simpl in Hin. destruct (Hlog _ _ Hin). }
  destruct Hcases as [[_ Heq] | (callback & req & calls0 & _ & Hrun & Hcases)].
  { rewrite Heq in Hin. apply forward_no_callback in Hin. destruct (Hlog _ _ Hin). }
  pose proof (runCallback_spec (callback (newRequest rsrv rpcMethod codecReq w r url))
                (newRequest rsrv rpcMethod codecReq w r url)) as Hcb.
  rewrite Hrun in Hcb. simpl in Hcb. destruct Hcb as (Hw & _ & Hresp & _).
  assert (EvCallback calls after ∈ (log ++ [EvCallback calls0 req])%list →
          calls0 = calls ∧ req = after) as Hsame.
  { rewrite elem_of_app, list_elem_of_singleton. intros [Hl | [= -> ->]].
    - destruct (Hlog _ _ Hl).
    - split; reflexivity. }
  destruct Hcases as [[Hr Heq] | [Hr Heq]]; rewrite Heq in *.
  - simpl in Hin. destruct (Hsame Hin) as [-> ->]. simpl. auto.
  - apply forward_no_callback in Hin. destruct (Hsame Hin) as [-> ->].
    rewrite Hwrote in Hresp. congruence.
Qed.

(** C2. Whenever a handling called the callback and the callback, on its
    way, called [WriteError] or [WriteResponse]: the context it left has
    [responded] set; the handling ended right after the callback, with no
    client envelope built and nothing forwarded; and what has been written
    to the response is what the callback wrote through the context, in the
    order of its calls, on top of what had been written before the
    handling. *)
Theorem callback_response_is_final (g : Gateway) (tick : bool) (w : ResponseWriter)
    (r : HttpRequest) (h : store) (x : Ext) (calls : list Call) (after : Request) :
  let o := ServeHTTP g tick w r h x in
  EvCallback calls after ∈ o_log o →
  (∃ c, c ∈ calls ∧ isWrite c = true) →
  responded after = true
  ∧ o_log o = (polled tick ++ [EvCallback calls after])%list
  ∧ (∀ b, EvEnvelope b ∉ o_log o)
  ∧ (∀ to r', EvForward to r' ∉ o_log o)
  ∧ o_w o = respWriter after
  ∧ written (o_w o) = (written w ++ flat_map writes_of calls)%list
  ∧ o_panic o = false.
Proof.
  intros o Hin (c & Hc & Hwrite).
  assert (existsb isWrite calls = true) as Hwrote.
  { apply existsb_exists. exists c. split; [apply list_elem_of_In, Hc | exact Hwrite]. }
  assert (∃ to rsrv rpcMethod codecReq r0,
            o = dispatch g to rsrv rpcMethod codecReq (addCORS g w r) r0 h x (polled tick))
    as (to & rsrv & rpcMethod & codecReq & r0 & Ho).
  { subst o. revert Hin. unfold ServeHTTP.
    destruct (String.eqb (Method r) "OPTIONS"); [never_called|].
    destruct (negb (String.eqb (Method r) "POST")); [never_called|].
    destruct (selectCodec g _) as [codec| |]; try never_called.
    unfold serveCodec.
    destruct (codec_Method (NewRequest codec r)) as [m|err]; [|never_called].
    destruct (getMethod g m) as [[rsrv rpcMethod] [err|]]; [|eauto 10].
    destruct (BackupHandler g) as [bh|]; [eauto 10 | never_called]. }
  rewrite Ho in Hin.
  destruct (dispatch_responded g to rsrv rpcMethod codecReq (addCORS g w r) r0 h x
              (polled tick) calls after (polled_no_callback tick) Hin Hwrote)
    as (Hresp & Hlog & Hw & Hwritten & Hpanic).
  rewrite <- Ho in Hlog, Hw, Hpanic.
  split; [exact Hresp|]. split; [exact Hlog|].
  assert (∀ e, e ∈ o_log o → e = EvRefresh ∨ e = EvCallback calls after) as Hevents.
  { intros e. rewrite Hlog, elem_of_app, list_elem_of_singleton. intros [He | He]; [|auto].
    left. destruct tick; simpl in He.
    - apply list_elem_of_singleton in He. exact He.
    - apply elem_of_nil in He. contradiction. }
  split; [intros b Hb; destruct (Hevents _ Hb); discriminate|].
  split; [intros to' r' Hf; destruct (Hevents _ Hf); discriminate|].
  split; [exact Hw|]. split; [|exact Hpanic].
  rewrite Hw, Hwritten, addCORS_written. reflexivity.
Qed.

Lemma getMethod_malformed (g : Gateway) (m : string) :
  List.length (strings.SplitN2 m "."%char) ≠ 2%nat →
  getMethod g m = (zeroRemoteService, zeroMethod, Some errInvalidMethodEndpoint).
Proof.
  unfold getMethod, strings.SplitN2.
  destruct (strings.cut "."%char m) as [[before after]|]; simpl; [congruence | reflexivity].
Qed.

(** [forward], by what becomes of the client request. *)
Lemma forward_eq (to : Route) (req : Request) (h : store) (x : Ext) (log : list Event) :
  forward to req h x log
  = match snd (Request_getClientRequest req) with
    | Err err =>
        done (codec_write (codecReq req) (respWriter req) (CodecWriteError 500 err))
             h x (log ++ [EvEnvelope (Err err)])
    | Ok b =>
        let r := mkHttpRequest (Method (http req)) (ReqHeader (http req)) (ReqURL (http req))
                               (RequestURI (http req)) b (Z.of_nat (String.length b)) in
        done (codec_write (codecReq req) (respWriter req)
                match json2_DecodeClientResponse (rec_Body (fst (runHandler to x h r))) with
                | Err err => CodecWriteError (rec_Code (fst (runHandler to x h r))) err
                | Ok resRes => CodecWriteResponse (PRaw resRes)
                end)
             h (snd (runHandler to x h r)) (log ++ [EvEnvelope (Ok b); EvForward to r])
    end.
Proof.
  unfold forward. pose proof (Request_getClientRequest_frame req) as Hw.
  destruct (Request_getClientRequest_codecReq req) as [Hc Hh].
  destruct (Request_getClientRequest req) as [req' [b|err]]; simpl in *.
  - rewrite Hw, Hc, Hh.
    destruct (runHandler to x h _) as [rec x']. simpl.
    destruct (json2_DecodeClientResponse (rec_Body rec)); simpl;
      rewrite <- app_assoc; reflexivity.
  - rewrite Hw, Hc. reflexivity.
Qed.

(** What [dispatch] does once the URL is resolved, seen from outside. *)
Lemma afterResolution_routedTo (g : Gateway) (to : Route) (req0 : Request)
    (h : store) (x : Ext) (log : list Event) :
  responded req0 = false →
  routedTo g to (runHandler to) req0 h x log
    (let '(req, log) :=
       match RequestCallback g with
       | Some callback =>
           let '(req', calls) := runCallback (callback req0) req0 in
           (req', (log ++ [EvCallback calls req'])%list)
       | None => (req0, log)
       end in
     if responded req then done (respWriter req) h x log
     else forward to req h x log).
Proof.
  intros Hfresh. unfold routedTo.
  destruct (RequestCallback g) as [callback|].
  - pose proof (runCallback_spec (callback req0) req0) as Hcb.
    destruct (runCallback (callback req0) req0) as [req calls]. simpl in Hcb.
    destruct Hcb as (_ & _ & Hresp & _ & Hc). rewrite Hfresh in Hresp. simpl in Hresp.
    rewrite Hresp. destruct (existsb isWrite calls).
    + simpl. auto.
    + rewrite forward_eq, Hc.
      destruct (snd (Request_getClientRequest req)) as [b|err]; simpl;
        rewrite <- app_assoc; auto 10.
  - rewrite Hfresh. simpl. rewrite forward_eq.
    destruct (snd (Request_getClientRequest req0)) as [b|err]; simpl; auto 10.
Qed.

(** A request routed with an entry that has no URL: the zero entry that
    [getMethod] returns with its errors. *)
Lemma dispatch_routedTo_nil (g : Gateway) (to : Route) (rsrv : remoteService)
    (rpcMethod : gatewaytypes_Method) (codecReq : CodecRequest)
    (w : ResponseWriter) (r : HttpRequest) (h : store) (x : Ext) (log : list Event) :
  rs_URL rsrv = None →
  routedTo g to (runHandler to) (newRequest rsrv rpcMethod codecReq w r None) h x log
    (dispatch g to rsrv rpcMethod codecReq w r h x log).
Proof.
  intros Hurl. unfold dispatch. rewrite Hurl.
  apply afterResolution_routedTo. reflexivity.
Qed.

(** A request routed with an entry whose URL is in the store: the context
    holds a pointer to the resolved copy, the last URL of the store. *)
Lemma dispatch_routedTo_url (g : Gateway) (to : Route) (rsrv : remoteService)
    (rpcMethod : gatewaytypes_Method) (codecReq : CodecRequest)
    (w : ResponseWriter) (r : HttpRequest) (h : store) (x : Ext) (log : list Event)
    (l : loc) (u : URL) :
  rs_URL rsrv = Some l → h !! l = Some u →
  routedTo g to (runHandler to)
    (newRequest rsrv rpcMethod codecReq w r (Some (List.length h)))
    (h ++ [URL_with_Host u (fst (srv_MaybeSRV x (Host u)))])%list
    (snd (srv_MaybeSRV x (Host u))) log
    (dispatch g to rsrv rpcMethod codecReq w r h x log).
Proof.
  intros Hurl Hl. unfold dispatch, resolveURL, resolvedCopy. rewrite Hurl, Hl.
  destruct (srv_MaybeSRV x (Host u)) as [host x']. simpl.
  apply afterResolution_routedTo. reflexivity.
Qed.

(** C3, as the code has it. For a POST request that a codec has decoded to a
    method name which does not split in two at its first dot: without a
    backup handler the error "invalid method endpoint given" is handed to
    the codec's error framer with the status 400, and nothing else happens;
    with a backup handler the request is not rejected but routed to the
    backup handler, with no service, no method record and no URL: the
    callback, if there is one, is called first; if it wrote, the handling
    ends there; if not, the client request is rebuilt and, once built,
    forwarded to the backup handler and to nothing else, whose reply is
    written through the codec. *)
Theorem malformed_method_routing (g : Gateway) (tick : bool) (w : ResponseWriter)
    (r : HttpRequest) (h : store) (x : Ext) (codec : Codec) (m : string) :
  let o := ServeHTTP g tick w r h x in
  let w' := addCORS g w r in
  let req0 := newRequest zeroRemoteService zeroMethod (NewRequest codec r) w' (consumed r) None in
  Method r = "POST" →
  selectCodec g (stripParams (Header_Get (ReqHeader r) "Content-Type")) = Selected codec →
  codec_Method (NewRequest codec r) = Ok m →
  List.length (strings.SplitN2 m "."%char) ≠ 2%nat →
  (BackupHandler g = None →
     o = done (codec_write (NewRequest codec r) w' (CodecWriteError 400 errInvalidMethodEndpoint))
              h x (polled tick)
     ∧ written (o_w o) = (written w ++ [CodecWriteError 400 errInvalidMethodEndpoint])%list)
  ∧ (∀ bh, BackupHandler g = Some bh →
       routedTo g (Backup bh) bh req0 h x (polled tick) o).
Proof.
  intros o w' req0 HPOST Hsel Hm Hsplit.
  assert (o = match BackupHandler g with
              | Some bh => dispatch g (Backup bh) zeroRemoteService zeroMethod
                             (NewRequest codec r) w' (consumed r) h x (polled tick)
              | None => done (codec_write (NewRequest codec r) w'
                                (CodecWriteError 400 errInvalidMethodEndpoint))
                             h x (polled tick)
              end) as Ho.
  { subst o. unfold ServeHTTP. rewrite HPOST. simpl. rewrite Hsel.
    unfold serveCodec. rewrite Hm, (getMethod_malformed g m Hsplit). reflexivity. }
  split.
  - intros Hnone. rewrite Ho, Hnone. split; [reflexivity|].
    simpl. subst w'. rewrite addCORS_written. reflexivity.
  - intros bh Hbh. rewrite Ho, Hbh.
    apply (dispatch_routedTo_nil g (Backup bh)). reflexivity.
Qed.

(** *** Runs of the system *)

Lemma ServeHTTP_started (g : Gateway) (w : ResponseWriter) (r : HttpRequest)
    (h : store) (x : Ext) :
  started (o_log (ServeHTTP g false w r h x)) = 0%nat.
Proof.
  assert (∀ to req h x, started (o_log (forward to req h x [])) = 0%nat) as Hfwd.
  { intros to req h' x'. rewrite forward_eq.
    destruct (snd (Request_getClientRequest req)); reflexivity. }
  assert (∀ to rsrv rpcMethod codecReq w r,
            started (o_log (dispatch g to rsrv rpcMethod codecReq w r h x [])) = 0%nat)
    as Hdispatch.
  { intros to rsrv rpcMethod codecReq w0 r0.
    destruct (dispatch_cases g to rsrv rpcMethod codecReq w0 r0 h x [])
      as [-> | (url & h' & x' & req0 & _ & -> & Hcases)]; [reflexivity|].
    destruct Hcases as [[_ ->] | (callback & req & calls & _ & _ & [[_ ->] | [_ ->]])].
    - apply Hfwd.
    - reflexivity.
    - rewrite forward_eq. destruct (snd (Request_getClientRequest req)); reflexivity. }
  unfold ServeHTTP. simpl.
  destruct (String.eqb (Method r) "OPTIONS"); [reflexivity|].
  destruct (negb (String.eqb (Method r) "POST")); [reflexivity|].
  destruct (selectCodec g _) as [codec| |]; try reflexivity.
  unfold serveCodec. destruct (codec_Method (NewRequest codec r)) as [m|err]; [|reflexivity].
  destruct (getMethod g m) as [[rsrv rpcMethod] [err|]]; [|apply Hdispatch].
  destruct (BackupHandler g); [apply Hdispatch | reflexivity].
Qed.

(** A step that is not a refresh running leaves the gateway as it is. *)
Lemma step_gateway (s : System) (op : Op) :
  (op = OpRefresh → sys_pending s = 0%nat) →
  sys_gateway (step s op) = sys_gateway s.
Proof.
  destruct op as [mStr | mStr | tick w r |]; simpl; intros Hop.
  - reflexivity.
  - destruct (GetMethodURL _ _ _ _) as [[[[l h] x] err]|]; reflexivity.
  - reflexivity.
  - rewrite (Hop eq_refl). reflexivity.
Qed.

Lemma step_extends (s : System) (op : Op) :
  extends (sys_store (step s op)) (sys_store s)
  ∧ ∀ name, is_Some (services (sys_gateway s) !! name) →
            is_Some (services (sys_gateway (step s op)) !! name).
Proof.
  destruct op as [mStr | mStr | tick w r |]; simpl.
  - split; [apply extends_refl | auto].
  - unfold GetMethodURL. destruct (getMethod (sys_gateway s) mStr) as [[rsrv m] err].
    destruct (resolveURL (sys_store s) (sys_ext s) (rs_URL rsrv)) as [[[l h'] x']|] eqn:Hres.
    + simpl. split; [eapply resolveURL_extends, Hres | auto].
    + split; [apply extends_refl | auto].
  - split; [apply ServeHTTP_frame | auto].
  - destruct (sys_pending s) as [|pending]; [split; [apply extends_refl | auto]|].
    destruct (refreshURLs_mono (sys_gateway s) (sys_store s) (sys_ext s)) as (Hnames & Hext & _).
    destruct (refreshURLs (sys_gateway s) (sys_store s) (sys_ext s)) as [[g' h'] x']. simpl in *.
    split; [exact Hext | exact Hnames].
Qed.

Lemma run_extends (ops : list Op) (s : System) :
  extends (sys_store (run s ops)) (sys_store s)
  ∧ ∀ name, is_Some (services (sys_gateway s) !! name) →
            is_Some (services (sys_gateway (run s ops)) !! name).
Proof.
  revert s. induction ops as [|op ops IH]; intros s; simpl.
  - split; [apply extends_refl | auto].
  - destruct (step_extends s op) as [He Hn]. destruct (IH (step s op)) as [He' Hn'].
    split; [eapply extends_trans; eauto | auto].
Qed.

(** Without a poll tick no refresh is started, and the gateway stays. *)
Lemma run_gateway (ops : list Op) (s : System) :
  sys_pending s = 0%nat →
  (∀ tick w r, OpServeHTTP tick w r ∈ ops → tick = false) →
  sys_gateway (run s ops) = sys_gateway s ∧ sys_pending (run s ops) = 0%nat.
Proof.
  revert s. induction ops as [|op ops IH]; intros s Hpending Hticks; simpl; [auto|].
  assert (sys_pending (step s op) = 0%nat) as Hstep.
  { destruct op as [mStr | mStr | tick w r |]; simpl.
    - exact Hpending.
    - destruct (GetMethodURL _ _ _ _) as [[[[l h] x] err]|]; exact Hpending.
    - rewrite (Hticks tick w r) by apply list_elem_of_here.
      rewrite ServeHTTP_started, Hpending. reflexivity.
    - rewrite Hpending. exact Hpending. }
  destruct (IH (step s op) Hstep) as [Hg Hp].
  { intros tick w r Hin. eapply Hticks, list_elem_of_further, Hin. }
  split; [|exact Hp]. rewrite Hg. apply step_gateway. intros _. exact Hpending.
Qed.

(** C9, as the code has it. [resolveURL] returns a pointer to a new URL, not
    the one it was given, that has the fields of the URL it was given and
    the resolved host, and it leaves every URL of the store as it was. No
    [getMethod] or [GetMethodURL] call and no request handling gives the
    gateway another mapping or writes to a URL of the store, so that in a
    run without a poll tick every entry, the URL behind it included, is at
    the end what it was. But a handling that finds a poll tick starts a
    refresh, and a refresh running does replace entries: of such runs it
    holds only that no URL of the store is written and no name leaves the
    mapping. *)
Theorem resolution_leaves_registry :
  (∀ h x uu l' h' x',
     resolveURL h x uu = Some (l', h', x') →
     ∃ l u u',
       uu = Some l ∧ h !! l = Some u ∧ h' !! l' = Some u'
       ∧ l' ≠ l ∧ h !! l' = None
       ∧ Scheme u' = Scheme u ∧ Opaque u' = Opaque u ∧ User u' = User u
       ∧ Path u' = Path u ∧ RawPath u' = RawPath u ∧ ForceQuery u' = ForceQuery u
       ∧ RawQuery u' = RawQuery u ∧ Fragment u' = Fragment u
       ∧ Host u' = fst (srv_MaybeSRV x (Host u))
       ∧ h' !! l = Some u
       ∧ extends h' h)
  ∧ (∀ s op,
       (op = OpRefresh → sys_pending s = 0%nat) →
       sys_gateway (step s op) = sys_gateway s
       ∧ extends (sys_store (step s op)) (sys_store s))
  ∧ (∀ ops s,
       sys_pending s = 0%nat →
       (∀ tick w r, OpServeHTTP tick w r ∈ ops → tick = false) →
       sys_gateway (run s ops) = sys_gateway s
       ∧ ∀ name entry l u,
           services (sys_gateway s) !! name = Some entry →
           rs_URL entry = Some l →
           sys_store s !! l = Some u →
           services (sys_gateway (run s ops)) !! name = Some entry
           ∧ sys_store (run s ops) !! l = Some u)
  ∧ (∀ ops s,
       extends (sys_store (run s ops)) (sys_store s)
       ∧ ∀ name, is_Some (services (sys_gateway s) !! name) →
                 is_Some (services (sys_gateway (run s ops)) !! name)).
Proof.
  split; [|split; [|split]].
  - intros h x uu l' h' x' Hres.
    destruct (resolveURL_spec _ _ _ _ _ _ Hres) as (l & u & -> & Hl & -> & -> & _).
    exists l, u, (URL_with_Host u (fst (srv_MaybeSRV x (Host u)))).
    split; [reflexivity|]. split; [exact Hl|].
    split; [apply list_lookup_middle; reflexivity|].
    split; [apply lookup_lt_Some in Hl; lia|].
    split; [apply lookup_ge_None_2; lia|].
    repeat (split; [reflexivity|]).
    split; [apply lookup_app_l_Some, Hl | apply extends_app].
  - intros s op Hop. split; [apply step_gateway, Hop | apply step_extends].
  - intros ops s Hpending Hticks.
    destruct (run_gateway ops s Hpending Hticks) as [Hg _].
    split; [exact Hg|].
    intros name entry l u Hname _ Hl. rewrite Hg.
    split; [exact Hname | apply run_extends, Hl].
  - intros ops s. apply run_extends.
Qed.

End RoutingFacts.

(** ** The gateway at concrete requests *)

Import gateway gateway_test.

(** The context of the tests, its method and arguments replaced: the codec
    still holds [Test.Test] and [true]. *)
Lemma UpdateRequest_Method_ReadRequest_witness :
  let r' := fst (Request_UpdateRequest (H := world) fooRequest "Test.Test2" (Some false)) in
  Request_Method (H := world) fooRequest = Ok "Test.Test"
  ∧ Request_ReadRequest (H := world) fooRequest tt = Ok true
  ∧ Request_Method (H := world) r' = Ok "Test.Test2"
  ∧ Request_ReadRequest (H := world) r' tt = Ok false.
Proof.
  intros r'. split; [reflexivity|]. split; [reflexivity|].
  assert (∀ (v : @Value world) (b : bytes), json_Marshal (Externals := world) v = Ok b → b ≠ "")
    as Hmarshal.
  { intros v b. destruct v; intros [= <-]; discriminate. }
  destruct (UpdateRequest_Method_ReadRequest (H := world) Hmarshal fooRequest r'
              "Test.Test2" false) as (HM & (a & Ha & _ & Hread) & _).
  - discriminate.
  - reflexivity.
  - split; [exact HM|]. rewrite Hread. injection Ha as <-. reflexivity.
Defined.

(** A backend that does not answer, a URL without host and a URL that does
    not parse: each time the mapping stays. *)
Lemma AddURL_error_keeps_services_witness :
  let unreachable := AddURL (H := world) testGateway testStore x0 "elsewhere" in
  let nohost := AddURL (H := world) testGateway testStore x0 "http://" in
  let unparsed := AddURL (H := world) testGateway testStore x0 "https://backend" in
  (snd unreachable = Some (errOther "connection refused")
   ∧ services (fst (fst (fst unreachable))) = registry)
  ∧ (snd nohost = Some errInvalidURL
     ∧ services (fst (fst (fst nohost))) = registry)
  ∧ (snd unparsed = Some (errOther "first path segment in URL cannot contain colon")
     ∧ services (fst (fst (fst unparsed))) = registry).
Proof.
  intros unreachable nohost unparsed.
  assert (∀ u res err,
            res = AddURL (H := world) testGateway testStore x0 u →
            snd res = Some err →
            snd res = Some err ∧ services (fst (fst (fst res))) = registry) as Hkeep.
  { intros u [[[g' h'] x'] ret] err Hres Herr. split; [exact Herr|].
    destruct (AddURL_error_keeps_services (H := world) testGateway g' testStore h' x0 x' u ret
                (eq_sym Hres)) as [Hfail _].
    destruct (Hfail err Herr) as (_ & Hs & _). simpl. rewrite Hs. reflexivity. }
  split; [|split]; eapply Hkeep; reflexivity.
Defined.

(** An upper-case content type with a parameter finds the JSON codec, which
    refuses the body and reports so itself; an unknown one is answered
    415. *)
Lemma ServeHTTP_codec_selection_witness :
  let r := post "Application/JSON; charset=utf-8" "garbage" in
  let o := ServeHTTP (H := world) testGateway false freshWriter r testStore x0 in
  o = serveCodec (H := world) testGateway codec freshWriter r testStore x0 []
  ∧ o_w o = mkResponseWriter [("Content-Type", "application/json; charset=utf-8")]
                             [CodecWriteError 400 (errOther "rpc: invalid request")]
  ∧ written (o_w (ServeHTTP (H := world) testGateway false freshWriter
                    (post "text/xml" "TestEndpoint.Foo true") testStore x0))
    = [WriteHeader 415; Fprint "rpc: unrecognized Content-Type: %q text/xml"].
Proof.
  intros r o. split; [|split].
  - destruct (ServeHTTP_codec_selection (H := world) testGateway false freshWriter r
                testStore x0 eq_refl) as (_ & Hreg & _).
    destruct (Hreg codec eq_refl) as (Ho & _). exact Ho.
  - destruct (ServeHTTP_codec_selection (H := world) testGateway false freshWriter r
                testStore x0 eq_refl) as (_ & Hreg & _).
    destruct (Hreg codec eq_refl) as (_ & Herr & _).
    subst o. rewrite (Herr (errOther "rpc: invalid request") eq_refl). reflexivity.
  - destruct (ServeHTTP_codec_selection (H := world) testGateway false freshWriter
                (post "text/xml" "TestEndpoint.Foo true") testStore x0 eq_refl)
      as (_ & _ & _ & _ & Hnone).
    destruct Hnone as [_ Hw].
    + reflexivity.
    + intros [Hct _]. discriminate.
    + exact Hw.
Defined.

(** The codec of the tests sets [Content-Type] and no other header. *)
Lemma envelope_keeps (r : HttpRequest) (ev : Written) (hd : Header) (k : string) :
  k ≠ "Content-Type" →
  Header_Values (codec_Header (envelope r) ev hd) k = Header_Values hd k.
Proof.
  intros Hk. unfold envelope.
  destruct (strings.cut " "%char (Body r)) as [[m params]|]; simpl;
    apply Header_Values_Set, Hk.
Defined.

(** A preflight from a matching origin, and a call from it that the codec
    answers. *)
Lemma ServeHTTP_CORS_witness :
  let o := ServeHTTP (H := world) testGateway false freshWriter
             (preflight "https://app.example") testStore x0 in
  let o' := ServeHTTP (H := world) testGateway false freshWriter
              (postFrom "https://app.example" "TestEndpoint.Foo true") testStore x0 in
  RespHeader (o_w o) = corsHeaders "https://app.example"
  ∧ written (o_w o) = []
  ∧ statusCode (o_w o) = Some 200%Z
  ∧ o_log o = []
  ∧ Header_Values (RespHeader (o_w o')) "Access-Control-Allow-Origin" = ["https://app.example"]
  ∧ Header_Values (RespHeader (o_w o')) "Server" = [].
Proof.
  intros o o'.
  destruct (ServeHTTP_CORS (H := world) testGateway false freshWriter
              (preflight "https://app.example") testStore x0) as [Hmatch _].
  destruct (Hmatch "https://app.") as (_ & _ & Hopt); [discriminate | reflexivity..|].
  destruct (Hopt eq_refl) as (Ho & Hw & Hstatus).
  split; [reflexivity|]. split; [exact Hw|]. split; [apply Hstatus; reflexivity|].
  split; [reflexivity|].
  destruct (ServeHTTP_CORS (H := world) testGateway false freshWriter
              (postFrom "https://app.example" "TestEndpoint.Foo true") testStore x0)
    as [Hmatch' _].
  destruct (Hmatch' "https://app.") as (_ & Hvalues & _); [discriminate | reflexivity..|].
  assert (∀ k, k ≠ "Content-Type" →
            ∀ key c ev hd, codecs testGateway !! key = Some c →
              Header_Values
                (codec_Header (NewRequest c (postFrom "https://app.example" "TestEndpoint.Foo true"))
                   ev hd) k
              = Header_Values hd k) as Hkeeps.
  { intros k Hk key c ev hd Hc.
    change (codecs testGateway) with ({[ "application/json" := codec ]} : gmap string Codec) in Hc.
    apply lookup_singleton_Some in Hc as [_ <-].
    apply envelope_keeps, Hk. }
  split.
  - apply (Hvalues "Access-Control-Allow-Origin"); [discriminate|].
    apply Hkeeps. discriminate.
  - apply (Hvalues "Server"); [discriminate|].
    apply Hkeeps. discriminate.
Defined.

(** C6 as stated fails for a request that carries an empty [Origin] header
    when the expression matches the empty string: no header is added. *)
Lemma empty_origin_gets_no_CORS :
  let r := preflight "" in
  let o := ServeHTTP (H := world) openCORS false freshWriter r testStore x0 in
  ("Origin", "") ∈ ReqHeader r
  ∧ CORSMatch openCORS = Some ""
  ∧ regexp_MatchString (Externals := world) "" (Header_Get (ReqHeader r) "Origin") = true
  ∧ RespHeader (o_w o) = []
  ∧ Header_Values (RespHeader (o_w o)) "Access-Control-Allow-Origin" = [].
Proof.
  intros r o. split; [apply list_elem_of_here|]. repeat split; reflexivity.
Qed.

(** The callback of the tests answers [TestEndpoint.Bar] with arguments
    [true] itself. *)
Lemma callback_response_is_final_witness :
  let o := ServeHTTP (H := world) testGateway false freshWriter
             (post "application/json" "TestEndpoint.Bar true") testStore x0 in
  written (o_w o) = [CodecWriteResponse (PValue (true : @Value world))]
  ∧ (∀ b, EvEnvelope b ∉ o_log o)
  ∧ (∀ to r', EvForward to r' ∉ o_log o).
Proof.
  intros o.
  pose (after := match o_log o with
                 | [EvCallback _ a] => a
                 | _ => fooRequest
                 end).
  destruct (callback_response_is_final (H := world) testGateway false freshWriter
              (post "application/json" "TestEndpoint.Bar true") testStore x0
              [CMethod; CReadRequest (H := world) tt; CWriteResponse (H := world) true] after)
    as (_ & _ & Henv & Hfwd & _ & Hw & _).
  - vm_compute. apply list_elem_of_here.
  - exists (CWriteResponse (H := world) true). split; [|reflexivity].
    do 2 apply list_elem_of_further. apply list_elem_of_here.
  - split; [exact Hw|]. split; [exact Henv | exact Hfwd].
Defined.

(** Without a backup handler the method [ping] is handed to the error framer
    with status 400; with one the request is forwarded to it, after the
    callback if there is one. *)
Lemma malformed_method_routing_witness :
  let r := post "application/json" "ping true" in
  let sent := mkHttpRequest "POST" [("Content-Type", "application/json")] None ""
                            "ping true" 9 in
  written (o_w (ServeHTTP (H := world) testGateway false freshWriter r testStore x0))
  = [CodecWriteError 400 errInvalidMethodEndpoint]
  ∧ o_log (ServeHTTP (H := world) withBackup false freshWriter r testStore x0)
    = [EvEnvelope (Ok "ping true"); EvForward (Backup backup) sent]
  ∧ written (o_w (ServeHTTP (H := world) withBackup false freshWriter r testStore x0))
    = [CodecWriteResponse (PRaw "pong")]
  ∧ ∃ after,
      o_log (ServeHTTP (H := world) withBoth false freshWriter r testStore x0)
      = [EvCallback [CMethod] after; EvEnvelope (Ok "ping true"); EvForward (Backup backup) sent].
Proof.
  intros r sent.
  assert (List.length (strings.SplitN2 "ping" "."%char) ≠ 2%nat) as Hsplit
    by (vm_compute; discriminate).
  split; [|split; [|split]].
  - destruct (malformed_method_routing (H := world) testGateway false freshWriter r
                testStore x0 codec "ping" eq_refl eq_refl eq_refl Hsplit) as [Hnone _].
    destruct (Hnone eq_refl) as [_ Hw]. exact Hw.
  - destruct (malformed_method_routing (H := world) withBackup false freshWriter r
                testStore x0 codec "ping" eq_refl eq_refl eq_refl Hsplit) as [_ Hsome].
    destruct (Hsome backup eq_refl) as (_ & _ & Hrouted). apply Hrouted.
  - destruct (malformed_method_routing (H := world) withBackup false freshWriter r
                testStore x0 codec "ping" eq_refl eq_refl eq_refl Hsplit) as [_ Hsome].
    destruct (Hsome backup eq_refl) as (_ & _ & Hrouted).
    destruct Hrouted as (_ & _ & ->). reflexivity.
  - destruct (malformed_method_routing (H := world) withBoth false freshWriter r
                testStore x0 codec "ping" eq_refl eq_refl eq_refl Hsplit) as [_ Hsome].
    destruct (Hsome backup eq_refl) as (_ & _ & Hrouted).
    eexists. apply Hrouted.
Defined.

(** C3 as stated fails: the method [ping] has no dot, yet with a backup
    handler configured the gateway hands no error to the codec's error
    framer; it forwards the request to the backup handler and answers with
    that handler's reply. *)
Lemma malformed_method_reaches_backup :
  let r := post "application/json" "ping true" in
  let o := ServeHTTP (H := world) withBackup false freshWriter r testStore x0 in
  codec_Method (NewRequest codec r) = Ok "ping"
  ∧ strings.SplitN2 "ping" "."%char = ["ping"]
  ∧ written (o_w o) = [CodecWriteResponse (PRaw "pong")]
  ∧ o_log o = [EvEnvelope (Ok "ping true");
               EvForward (Backup backup)
                 (mkHttpRequest "POST" [("Content-Type", "application/json")] None ""
                                "ping true" 9)]
  ∧ ¬ (∃ status err, CodecWriteError status err ∈ written (o_w o)).
Proof.
  intros r o.
  split; [reflexivity|]. split; [reflexivity|]. split; [reflexivity|].
  split; [reflexivity|].
  intros (status & err & Hin). vm_compute in Hin.
  apply list_elem_of_singleton in Hin. discriminate.
Qed.

(** The entry of [TestEndpoint] points to [http://backend]; resolving it,
    and a run of lookups and handlings without a poll tick, leave the entry
    and that URL in place. *)
Lemma resolution_leaves_registry_witness :
  let ops := [OpGetMethodURL "TestEndpoint.Foo";
              OpServeHTTP false freshWriter (post "application/json" "TestEndpoint.Foo true");
              OpGetMethod "TestEndpoint.Bar";
              OpRefresh;
              OpGetMethodURL "Unknown.X"] in
  let s := run (H := world) (mkSystem testGateway testStore x0 0) ops in
  resolveURL (H := world) testStore x0 (Some 0%nat)
  = Some (1%nat, [backendURL; URL_with_Host backendURL "10.0.0.1:8080"], 1%nat)
  ∧ services (sys_gateway s) !! "TestEndpoint"
    = Some (mkRemoteService TestEndpoint (Some 0%nat) "http://backend")
  ∧ sys_store s !! 0%nat = Some backendURL.
Proof.
  intros ops s.
  destruct (resolution_leaves_registry (H := world)) as (Hresolve & _ & Hrun & _).
  split.
  - destruct (Hresolve testStore x0 (Some 0%nat) 1%nat
                [backendURL; URL_with_Host backendURL "10.0.0.1:8080"] 1%nat eq_refl)
      as (l & u & u' & _).
    reflexivity.
  - destruct (Hrun ops (mkSystem testGateway testStore x0 0)) as [_ Hentry].
    + reflexivity.
    + intros tick w r Hin. unfold ops in Hin.
      repeat (apply elem_of_cons in Hin as [Hin | Hin]; [try discriminate|]).
      * injection Hin as -> _ _. reflexivity.
      * apply elem_of_nil in Hin. contradiction.
    + apply (Hentry "TestEndpoint"
               (mkRemoteService TestEndpoint (Some 0%nat) "http://backend") 0%nat backendURL);
        reflexivity.
Defined.

(** C9 as stated fails for a handling that finds a poll tick: the refresh it
    starts fetches [TestEndpoint] from [http://backend], and the entry that
    held [http://elsewhere] holds a pointer to another URL, with another
    host, and another original URL. *)
Lemma refresh_replaces_entry :
  let s := mkSystem (H := world) migrated migratedStore x0 0 in
  let s' := run (H := world) s
              [OpServeHTTP true freshWriter (post "application/json" "TestEndpoint.Foo true");
               OpRefresh] in
  services (sys_gateway s) !! "TestEndpoint"
  = Some (mkRemoteService TestEndpoint (Some 0%nat) "http://elsewhere")
  ∧ sys_store s !! 0%nat = Some elsewhereURL
  ∧ sys_pending (step (H := world) s
                   (OpServeHTTP true freshWriter (post "application/json" "TestEndpoint.Foo true")))
    = 1%nat
  ∧ ∃ l, services (sys_gateway s') !! "TestEndpoint"
         = Some (mkRemoteService TestEndpoint (Some l) "http://backend")
         ∧ l ≠ 0%nat
         ∧ sys_store s' !! l = Some backendURL
         ∧ Host backendURL ≠ Host elsewhereURL
         ∧ sys_store s' !! 0%nat = Some elsewhereURL.
Proof.
  intros s s'. split; [reflexivity|]. split; [reflexivity|]. split; [reflexivity|].
  vm_compute. eexists. split; [reflexivity|].
  split; [|split; [reflexivity|split; [discriminate | reflexivity]]].
  discriminate.
Qed.

(** ** More on the extractor *)

Section rtype_induction.
Import reflect.

Variable P : rtype -> Prop.
Hypothesis HBasic : ∀ n k, P (RBasic n k).
Hypothesis HArray : ∀ n len e, P e → P (RArray n len e).
Hypothesis HChan : ∀ n e, P e → P (RChan n e).
Hypothesis HFunc : ∀ n, P (RFunc n).
Hypothesis HInterface : ∀ n ms, P (RInterface n ms).
Hypothesis HMap : ∀ n k e, P k → P e → P (RMap n k e).
Hypothesis HPtr : ∀ n e, P e → P (RPtr n e).
Hypothesis HSlice : ∀ n e, P e → P (RSlice n e).
Hypothesis HStruct : ∀ n fields, Forall (λ f, P (Field_Type f)) fields → P (RStruct n fields).

(** Induction on a type, the hypothesis holding for the type of every field
    of a struct. *)
Lemma rtype_nested_ind : ∀ t, P t.
Proof.
  fix IH 1. intros [n k|n len e|n e|n|n ms|n k e|n e|n e|n fields].
  - apply HBasic.
  - apply HArray, IH.
  - apply HChan, IH.
  - apply HFunc.
  - apply HInterface.
  - apply HMap; apply IH.
  - apply HPtr, IH.
  - apply HSlice, IH.
  - apply HStruct.
    revert fields. fix IHf 1. intros [|f rest].
    + constructor.
    + constructor; [apply IH | apply IHf].
Qed.

End rtype_induction.

Section rtype_equality.
Import reflect.

Lemma TypeName_eqb_eq (a b : TypeName) : TypeName_eqb a b = true → a = b.
Proof.
  destruct a, b. unfold TypeName_eqb. simpl.
  intros [H1 H2]%andb_true_iff. apply String.eqb_eq in H1, H2. congruence.
Qed.

Lemma Kind_eqb_true (a b : Kind) : Kind_eqb a b = true → a = b.
Proof.
  unfold Kind_eqb. rewrite N.eqb_eq.
  destruct a, b; simpl; intros E; try reflexivity; discriminate.
Qed.

Lemma list_eqb_eq {A} (eqb : A → A → bool) :
  (∀ x y, eqb x y = true → x = y) → ∀ l1 l2, list_eqb eqb l1 l2 = true → l1 = l2.
Proof.
  intros Heqb. induction l1 as [|x l1 IH]; intros [|y l2]; simpl; try discriminate.
  - reflexivity.
  - intros [Hx Hl]%andb_true_iff. f_equal; [apply Heqb, Hx | apply IH, Hl].
Qed.

Lemma Tag_eqb_eq (a b : list (string * string)) : Tag_eqb a b = true → a = b.
Proof.
  apply list_eqb_eq. intros [k1 v1] [k2 v2]. simpl.
  intros [H1 H2]%andb_true_iff. apply String.eqb_eq in H1, H2. congruence.
Qed.

(** Two types that [rtype_eqb] takes for the same are the same. *)
Lemma rtype_eqb_eq : ∀ t1 t2, rtype_eqb t1 t2 = true → t1 = t2.
Proof.
  induction t1 as [n k|n len e IH|n e IH|n|n ms|n k e IHk IH|n e IH|n e IH|n fields IH]
    using rtype_nested_ind; intros [] Heq; simpl in Heq; try discriminate;
    repeat match goal with
           | H : _ && _ = true |- _ => apply andb_true_iff in H as [? ?]
           end.
  - f_equal; [apply TypeName_eqb_eq | apply Kind_eqb_true]; assumption.
  - f_equal; [apply TypeName_eqb_eq | apply N.eqb_eq | apply IH]; assumption.
  - f_equal; [apply TypeName_eqb_eq | apply IH]; assumption.
  - f_equal. apply TypeName_eqb_eq. assumption.
  - f_equal; [apply TypeName_eqb_eq | apply (list_eqb_eq String.eqb)]; try assumption.
    intros x y. apply String.eqb_eq.
  - f_equal; [apply TypeName_eqb_eq | apply IHk | apply IH]; assumption.
  - f_equal; [apply TypeName_eqb_eq | apply IH]; assumption.
  - f_equal; [apply TypeName_eqb_eq | apply IH]; assumption.
  - f_equal; [apply TypeName_eqb_eq; assumption|].
    match goal with H : _ fields ?l = true |- _ => rename H into Hf; revert l Hf end.
    induction IH as [|f rest Hf0 _ IHrest]; intros [|f2 rest2] Hf; try discriminate.
    + reflexivity.
    + repeat match goal with
             | H : _ && _ = true |- _ => apply andb_true_iff in H as [? ?]
             end.
      f_equal; [|apply IHrest; assumption].
      destruct f, f2; simpl in *. f_equal.
      * apply String.eqb_eq. assumption.
      * apply Tag_eqb_eq. assumption.
      * apply Bool.eqb_prop. assumption.
      * apply Hf0. assumption.
Qed.

End rtype_equality.

Section string_cut.

(** Cutting at a separator a text put together around its first
    occurrence. *)
Lemma cut_app (sep : ascii) (a b : string) :
  strings.cut sep a = None → strings.cut sep (a ++ String sep b) = Some (a, b).
Proof.
  induction a as [|c a IH]; intros Hnone.
  - change (strings.cut sep (String sep b) = Some (EmptyString, b)).
    simpl. rewrite Ascii.eqb_refl. reflexivity.
  - change (strings.cut sep (String c (a ++ String sep b)) = Some (String c a, b)).
    simpl in *. destruct (Ascii.eqb c sep); [discriminate|].
    destruct (strings.cut sep a) as [[? ?]|]; [discriminate|].
    rewrite IH by reflexivity. reflexivity.
Qed.

End string_cut.

Section ExtractorMore.
Import reflect gatewayrpc.

Variable dec : string -> Z.
Variable up : Z -> bool.

Abbreviation processType := (gatewayrpc.processType dec up).
Abbreviation processField := (gatewayrpc.processField dec up).
Abbreviation processFields := (gatewayrpc.processFields dec up).
Abbreviation isExported := (gatewayrpc.isExported dec up).
Abbreviation exportedFields := (gatewayrpc.exportedFields dec up).

Lemma wellformed_ObjectOf (ty : Type_) (o : gmap string Type_) :
  wellformed ty → ObjectOf ty = Some o → ∀ k t, o !! k = Some t → wellformed t.
Proof.
  intros [kind Hk|t Ht|m Hm|t Ht]; simpl; try discriminate.
  intros [= <-]. exact Hm.
Qed.

Lemma processField_wellformed (walk : rtype → result error Type_) m m' f :
  (∀ ty, walk (Field_Type f) = Ok ty → wellformed ty) →
  (∀ k t, m !! k = Some t → wellformed t) →
  processField walk m f = Ok m' →
  ∀ k t, m' !! k = Some t → wellformed t.
Proof.
  intros Hwalk Hm. unfold gatewayrpc.processField.
  destruct (negb (isExported (Field_Name f))); [intros [= <-]; exact Hm|].
  destruct (walk (Field_Type f)) as [innerT|e] eqn:Hw; simpl; [|discriminate].
  specialize (Hwalk innerT eq_refl).
  destruct (Anonymous f && (0 <? len_ObjectOf innerT)%nat) eqn:Hflat; intros [= <-] k t.
  - unfold copyInto. destruct (ObjectOf innerT) as [o|] eqn:Ho; [|apply Hm].
    rewrite lookup_union_Some_raw. intros [Hk | [_ Hk]].
    + eapply wellformed_ObjectOf; eauto.
    + eapply Hm, Hk.
  - rewrite lookup_insert. case_decide as Hkey.
    + intros [= <-]. exact Hwalk.
    + apply Hm.
Qed.

Lemma processFields_wellformed (walk : rtype → result error Type_) fields :
  Forall (λ f, ∀ ty, walk (Field_Type f) = Ok ty → wellformed ty) fields →
  ∀ m m', (∀ k t, m !! k = Some t → wellformed t) →
          processFields walk m fields = Ok m' →
          ∀ k t, m' !! k = Some t → wellformed t.
Proof.
  induction 1 as [|f rest Hf _ IH]; intros m m' Hm; simpl.
  - intros [= <-]. exact Hm.
  - destruct (processField walk m f) as [m1|e] eqn:Hstep; simpl; [|discriminate].
    apply IH. eapply processField_wellformed; eauto.
Qed.

Lemma processFields_exported (walk : rtype → result error Type_) fields :
  ∀ m, processFields walk m fields = processFields walk m (exportedFields fields).
Proof.
  induction fields as [|f rest IH]; intros m; [reflexivity|].
  unfold gatewayrpc.exportedFields. simpl.
  destruct (isExported (Field_Name f)) eqn:Hexp; simpl.
  - destruct (processField walk m f); simpl; [apply IH | reflexivity].
  - unfold gatewayrpc.processField at 1. rewrite Hexp. simpl. apply IH.
Qed.

(** An exported field leaves the object with a field at least. *)
Lemma processField_nonempty (walk : rtype → result error Type_) m m' f :
  processField walk m f = Ok m' →
  (m ≠ ∅ → m' ≠ ∅) ∧ (isExported (Field_Name f) = true → m' ≠ ∅).
Proof.
  unfold gatewayrpc.processField.
  destruct (isExported (Field_Name f)) eqn:Hexp; simpl.
  - destruct (walk (Field_Type f)) as [innerT|e]; simpl; [|discriminate].
    assert (m' = copyInto (ObjectOf innerT) m → Anonymous f && (0 <? len_ObjectOf innerT)%nat = true
            → m' ≠ ∅) as Hcopy.
    { intros -> [_ Hlen]%andb_true_iff. apply Nat.ltb_lt in Hlen.
      unfold len_ObjectOf in Hlen. unfold copyInto.
      destruct (ObjectOf innerT) as [o|]; [|lia].
      intros Hempty. apply map_positive_l in Hempty. subst o.
      rewrite map_size_empty in Hlen. lia. }
    destruct (Anonymous f && (0 <? len_ObjectOf innerT)%nat) eqn:Hflat; intros [= <-].
    + split; intros _; apply Hcopy; reflexivity.
    + split; intros _; apply insert_non_empty.
  - intros [= <-]. split; [auto | discriminate].
Qed.

Lemma processFields_nonempty (walk : rtype → result error Type_) fields :
  ∀ m m', processFields walk m fields = Ok m' →
          (m ≠ ∅ → m' ≠ ∅) ∧ (exportedFields fields ≠ [] → m' ≠ ∅).
Proof.
  induction fields as [|f rest IH]; intros m m'; simpl.
  - intros [= <-]. split; [auto | intros Hne; contradiction].
  - destruct (processField walk m f) as [m1|e] eqn:Hstep; simpl; [|discriminate].
    intros Hrest. destruct (processField_nonempty _ _ _ _ Hstep) as [Hkeep Hexp].
    destruct (IH _ _ Hrest) as [Hkeep' Hexp'].
    split; [auto|]. unfold gatewayrpc.exportedFields. simpl.
    destruct (isExported (Field_Name f)); [auto | exact Hexp'].
Qed.

(** The walk looks through one pointer. *)
Lemma processType_through_pointer (p : TypeName) (e : rtype) :
  (∀ p' e', e ≠ RPtr p' e') → processType (RPtr p e) = processType e.
Proof.
  intros Hne. destruct e; try reflexivity. exfalso. eapply Hne. reflexivity.
Qed.

(** A walk that is not through a pointer gives the object without fields
    for a struct without exported fields only. *)
Lemma processType_empty_object (t : rtype) (ty : Type_) :
  (∀ p e, t ≠ RPtr p e) →
  processType t = Ok ty → ObjectOf ty = Some ∅ →
  ∃ n fields, t = RStruct n fields ∧ exportedFields fields = [].
Proof.
  intros Hne Hwalk Hempty.
  destruct t as [n k|n len e|n e|n|n ms|n k e|n e|n e|n fields]; simpl in Hwalk;
    try discriminate.
  - destruct (isScalarKind k); [|discriminate]. injection Hwalk as <-. discriminate.
  - destruct (gatewayrpc.processType dec up e); simpl in Hwalk; [|discriminate].
    injection Hwalk as <-. discriminate.
  - destruct (negb _); [discriminate|]. injection Hwalk as <-. discriminate.
  - destruct (negb _); [discriminate|].
    destruct (gatewayrpc.processType dec up e); simpl in Hwalk; [|discriminate].
    injection Hwalk as <-. discriminate.
  - exfalso. eapply Hne. reflexivity.
  - destruct (gatewayrpc.processType dec up e); simpl in Hwalk; [|discriminate].
    injection Hwalk as <-. discriminate.
  - destruct (processFields processType ∅ fields) as [m|err] eqn:Hm; simpl in Hwalk;
      [|discriminate].
    injection Hwalk as <-. simpl in Hempty. injection Hempty as ->.
    exists n, fields. split; [reflexivity|].
    destruct (processFields_nonempty _ _ _ _ Hm) as [_ Hexp].
    destruct (exportedFields fields) as [|f rest] eqn:He; [reflexivity|].
    exfalso. apply Hexp; [discriminate | reflexivity].
Qed.

(** X1. Whatever type it is given, a walk that succeeds yields a descriptor
    with exactly one arm filled at every node, the [TypeOf] leaves being of
    a scalar kind or of kind [Interface]. Not every leaf is a [TypeOf] leaf,
    though the comment of [Type] asks for it: the walk of a struct without
    exported fields ([struct{}], say), directly or behind one pointer, is
    the object without fields, and the walk of nothing else is. *)
Theorem processType_wellformed (t : rtype) (ty : Type_) :
  processType t = Ok ty →
  wellformed ty
  ∧ (ObjectOf ty = Some ∅
     ↔ ∃ n fields, (t = RStruct n fields ∨ ∃ p, t = RPtr p (RStruct n fields))
                   ∧ exportedFields fields = []).
Proof.
  intros Hwalk. split.
  - revert ty Hwalk.
    induction t as [n k|n len e IH|n e IH|n|n ms|n k e IHk IH|n e IH|n e IH|n fields IH]
      using rtype_nested_ind; intros ty.
    + simpl. destruct (isScalarKind k) eqn:Hk; [|discriminate].
      intros [= <-]. constructor. unfold isLeafKind. rewrite Hk. reflexivity.
    + simpl. destruct (processType e) as [innerT|err]; simpl; [|discriminate].
      intros [= <-]. constructor. apply IH. reflexivity.
    + discriminate.
    + discriminate.
    + simpl. destruct (negb _); [discriminate|]. intros [= <-]. constructor. reflexivity.
    + simpl. destruct (negb _); [discriminate|].
      destruct (processType e) as [innerT|err]; simpl; [|discriminate].
      intros [= <-]. constructor. apply IH. reflexivity.
    + destruct e; try (rewrite processType_deref by discriminate; apply IH).
      * apply IH.
      * discriminate.
    + simpl. destruct (processType e) as [innerT|err]; simpl; [|discriminate].
      intros [= <-]. constructor. apply IH. reflexivity.
    + rewrite (processType_struct dec up).
      destruct (processFields processType ∅ fields) as [m|err] eqn:Hm; simpl; [|discriminate].
      intros [= <-]. constructor.
      eapply (processFields_wellformed processType fields IH ∅ m); [|exact Hm].
      intros k t Hk. rewrite lookup_empty in Hk. discriminate.
  - split.
    + intros Hempty.
      assert (∀ t0, (∀ p e, t0 ≠ RPtr p e) → processType t0 = Ok ty →
                ∃ n fields, t0 = RStruct n fields ∧ exportedFields fields = []) as Hdirect.
      { intros t0 Hne Hw. eapply processType_empty_object; eauto. }
      destruct t as [n k|n len e|n e|n|n ms|n k e|p e|n e|n fields];
        try (edestruct Hdirect as (n' & fields' & Ht & He); [|exact Hwalk|]; [discriminate|];
             exists n', fields'; split; [left; exact Ht | exact He]).
      destruct e as [n' k|n' len e|n' e|n'|n' ms|n' k e|p' e|n' e|n' fields];
        try (rewrite processType_through_pointer in Hwalk by discriminate;
             edestruct Hdirect as (n0 & fields0 & Ht & He); [|exact Hwalk|]; [discriminate|];
             exists n0, fields0; split; [right; exists p; rewrite Ht; reflexivity | exact He]).
      discriminate.
    + intros (n & fields & Ht & He).
      assert (processType (RStruct n fields) = Ok (Type_ObjectOf ∅)) as Hstruct.
      { rewrite (processType_struct dec up), processFields_exported, He. reflexivity. }
      destruct Ht as [-> | [p ->]].
      * rewrite Hstruct in Hwalk. injection Hwalk as <-. reflexivity.
      * rewrite processType_through_pointer in Hwalk by discriminate.
        rewrite Hstruct in Hwalk. injection Hwalk as <-. reflexivity.
Qed.

Lemma processFields_isOk (walk : rtype → result error Type_) fields :
  ∀ m, isOk (processFields walk m fields)
       = forallb (λ f, isOk (walk (Field_Type f))) (exportedFields fields).
Proof.
  induction fields as [|f rest IH]; intros m; [reflexivity|].
  unfold gatewayrpc.exportedFields. simpl. unfold gatewayrpc.processField.
  destruct (isExported (Field_Name f)) eqn:Hexp; simpl.
  - destruct (walk (Field_Type f)) as [innerT|e]; simpl; [|reflexivity].
    destruct (Anonymous f && _); apply IH.
  - apply IH.
Qed.

Lemma processFields_app (walk : rtype → result error Type_) pre post :
  ∀ m, processFields walk m (pre ++ post)
       = (m' <- processFields walk m pre ;; processFields walk m' post).
Proof.
  induction pre as [|f rest IH]; intros m; simpl; [reflexivity|].
  destruct (processField walk m f); simpl; [apply IH | reflexivity].
Qed.

(** X2. Fields that are not exported take no part in the walk of a struct:
    the walk is that of the struct with its exported fields alone, and it
    succeeds exactly when the type of every exported field walks, whatever
    the types of the others (channels, functions) are. *)
Theorem processType_struct_exported (n : TypeName) (fields : list (StructField rtype)) :
  processType (RStruct n fields) = processType (RStruct n (exportedFields fields))
  ∧ isOk (processType (RStruct n fields))
    = forallb (λ f, isOk (processType (Field_Type f))) (exportedFields fields).
Proof.
  rewrite !(processType_struct dec up). split.
  - rewrite (processFields_exported processType fields). reflexivity.
  - rewrite <- (processFields_isOk processType fields ∅).
    destruct (processFields processType ∅ fields); reflexivity.
Qed.

(** X3. The walk of a struct fails with the error of its first exported
    field whose type fails the walk: the fields after it are not looked at,
    and no partial object is returned. *)
Theorem processType_struct_first_error (n : TypeName)
    (pre post : list (StructField rtype)) (f : StructField rtype) (err : error) :
  forallb (λ g, isOk (processType (Field_Type g))) (exportedFields pre) = true →
  isExported (Field_Name f) = true →
  processType (Field_Type f) = Err err →
  processType (RStruct n (pre ++ f :: post)) = Err err.
Proof.
  intros Hpre Hexp Hwalk. rewrite (processType_struct dec up), processFields_app.
  rewrite <- (processFields_isOk processType pre ∅) in Hpre.
  destruct (processFields processType ∅ pre) as [m|e]; [|discriminate]. simpl.
  unfold gatewayrpc.processField. rewrite Hexp, Hwalk. reflexivity.
Qed.

(** X4. The walk looks through one pointer only, while the test of
    [getMethods] on an argument type looks through all of them: a pointer to
    a pointer fails the walk as an unsupported type, so a handler with such
    an argument or reply, once accepted, makes [RegisterService] return an
    error and add no service. *)
Theorem processType_double_pointer (n n' : TypeName) (t : rtype) :
  processType (RPtr n (RPtr n' t)) = Err (errUnsupportedType (RPtr n' t))
  ∧ isExportedOrBuiltin dec up (RPtr n (RPtr n' t)) = isExportedOrBuiltin dec up t
  ∧ (∀ RpcServer reg (s : Server RpcServer) rcv name method recv req args reply,
       method ∈ getMethods dec up rcv →
       In method = [recv; req; RPtr n (RPtr n' t); reply]
       ∨ In method = [recv; req; args; RPtr n (RPtr n' t)] →
       snd (RegisterService dec up RpcServer reg s rcv name) ≠ None
       ∧ services _ (fst (RegisterService dec up RpcServer reg s rcv name)) = services _ s).
Proof.
  split; [reflexivity|]. split; [reflexivity|].
  intros RpcServer reg s rcv name method recv req args reply Hin [HIn | HIn];
    (eapply RegisterService_fails_as_a_whole; [exact Hin | exact HIn |]);
    simpl; [reflexivity | apply andb_false_r].
Qed.

(** X5. [getMethods] returns exactly the methods of the receiver that are
    exported and have the handler signature: four parameters (the receiver,
    a pointer to [http.Request], a pointer to an exported or predeclared
    arguments type, and such a pointer to the reply) and the one result
    [error]. The third and fourth parameter that [RegisterService] asks every
    returned method for are therefore there. *)
Theorem getMethods_accepts (rcv : Receiver) (method : Method) :
  method ∈ getMethods dec up rcv
  ↔ method ∈ MethodSet rcv
    ∧ Method_PkgPath method = ""
    ∧ ∃ recv reqName args reply,
        In method = [recv; RPtr reqName typeOfRequest; args; reply]
        ∧ Kind_of args = Ptr ∧ isExportedOrBuiltin dec up args = true
        ∧ Kind_of reply = Ptr ∧ isExportedOrBuiltin dec up reply = true
        ∧ Out method = [typeOfError].
Proof.
  unfold getMethods. rewrite list_elem_of_In, filter_In, <- list_elem_of_In.
  split; intros [Hin Hacc]; (split; [exact Hin|]).
  - unfold isRPCMethod in Hacc.
    apply andb_true_iff in Hacc as [Hpkg Hacc]. apply String.eqb_eq in Hpkg.
    split; [exact Hpkg|].
    destruct (In method) as [|recv [|req [|args [|reply [|]]]]]; try discriminate.
    destruct (Out method) as [|ret [|]];
      repeat match goal with
             | H : _ && _ = true |- _ => apply andb_true_iff in H as [? ?]
             end; try discriminate.
    destruct req; try discriminate. simpl in *.
    exists recv, n, args, reply.
    repeat match goal with
           | H : rtype_eqb _ _ = true |- _ => apply rtype_eqb_eq in H; subst
           | H : Kind_eqb _ _ = true |- _ => apply Kind_eqb_true in H
           end.
    auto 10.
  - destruct Hacc as (Hpkg & recv & reqName & args & reply & HIn & Ha & Hae & Hr & Hre & HOut).
    unfold isRPCMethod. rewrite Hpkg, HIn, HOut, Ha, Hae, Hr, Hre. reflexivity.
Qed.

Lemma getMethods_four_ins (rcv : Receiver) (method : Method) :
  method ∈ getMethods dec up rcv → ∃ recv req in2 in3, In method = [recv; req; in2; in3].
Proof.
  unfold getMethods. rewrite list_elem_of_In, filter_In. intros [_ Hacc].
  unfold isRPCMethod in Hacc. apply andb_true_iff in Hacc as [_ Hacc].
  destruct (In method) as [|recv [|req [|in2 [|in3 [|]]]]]; try discriminate. eauto.
Qed.

(** What the loop over the accepted methods leaves in the map. *)
Lemma registerMethods_spec (methods : list Method) :
  (∀ method, method ∈ methods → ∃ recv req in2 in3, In method = [recv; req; in2; in3]) →
  ∀ acc acc',
    registerMethods dec up methods acc = Ok acc' →
    (∀ k, is_Some (acc' !! k)
          ↔ is_Some (acc !! k) ∨ ∃ method, method ∈ methods ∧ Method_Name method = k)
    ∧ (∀ k e, acc' !! k = Some e →
         acc !! k = Some e
         ∨ ∃ method recv req in2 in3 args res,
             method ∈ methods ∧ Method_Name method = k
             ∧ In method = [recv; req; in2; in3]
             ∧ processType in2 = Ok args ∧ processType in3 = Ok res
             ∧ e = mkMethod_ k (Some args) (Some res)).
Proof.
  induction methods as [|method rest IH]; intros Hfour acc acc'; simpl.
  - intros [= <-]. split.
    + intros k. split; [auto|]. intros [Hk | (m & Hm & _)]; [exact Hk|].
      apply elem_of_nil in Hm. contradiction.
    + auto.
  - destruct (Hfour method (list_elem_of_here _ _)) as (recv & req & in2 & in3 & HIn).
    rewrite HIn.
    destruct (processType in2) as [args|e2] eqn:H2; simpl; [|discriminate].
    destruct (processType in3) as [res|e3] eqn:H3; simpl; [|discriminate].
    intros Hrest.
    destruct (IH (λ m Hm, Hfour m (list_elem_of_further _ _ _ Hm)) _ _ Hrest) as [Hdom Hent].
    split.
    + intros k. rewrite Hdom, lookup_insert. split.
      * intros [Hk | (m & Hm & Hname)].
        -- case_decide as Hkey; [|auto].
           right. exists method. split; [apply list_elem_of_here | exact Hkey].
        -- right. exists m. split; [apply list_elem_of_further, Hm | exact Hname].
      * intros [Hk | (m & Hm & Hname)].
        -- left. case_decide; [eauto | exact Hk].
        -- apply elem_of_cons in Hm as [-> | Hm].
           ++ left. rewrite decide_True by exact Hname. eauto.
           ++ right. eauto.
    + intros k e Hk. destruct (Hent k e Hk) as [Hacc | Hnew].
      * rewrite lookup_insert in Hacc. case_decide as Hkey; [|auto].
        injection Hacc as <-. right.
        exists method, recv, req, in2, in3, args, res.
        rewrite <- Hkey. auto 10 using list_elem_of_here.
      * right. destruct Hnew as (m & a & b & c & d & x & y & Hm & Hrest').
        exists m, a, b, c, d, x, y. split; [apply list_elem_of_further, Hm | exact Hrest'].
Qed.

(** X6. A registration that returns no error adds one service at the end of
    the list, named by [getName], whose methods are keyed by the names of the
    methods [getMethods] accepts and by nothing else; the entry under a name
    carries that name and, as [Args] and [Returns], the walks of the third
    and fourth parameter type of an accepted method of that name. *)
Theorem RegisterService_success RpcServer reg (s : Server RpcServer)
    (rcv : Receiver) (name : string) :
  snd (RegisterService dec up RpcServer reg s rcv name) = None →
  ∃ name' methods,
    getName dec up rcv name = Ok name'
    ∧ GetServices _ (fst (RegisterService dec up RpcServer reg s rcv name))
      = (GetServices _ s ++ [mkService name' methods])%list
    ∧ (∀ k, is_Some (methods !! k)
            ↔ ∃ method, method ∈ getMethods dec up rcv ∧ Method_Name method = k)
    ∧ (∀ k e, methods !! k = Some e →
         gatewaytypes_Method_Name e = k
         ∧ ∃ method recv req in2 in3 args res,
             method ∈ getMethods dec up rcv ∧ Method_Name method = k
             ∧ In method = [recv; req; in2; in3]
             ∧ processType in2 = Ok args ∧ processType in3 = Ok res
             ∧ Args e = Some args ∧ Returns e = Some res).
Proof.
  unfold RegisterService, GetServices.
  destruct (reg (Server_rpc _ s) rcv name) as [inner [e|]]; [discriminate|].
  destruct (getName dec up rcv name) as [name'|e]; [|discriminate].
  destruct (registerMethods dec up (getMethods dec up rcv) ∅) as [methods|e] eqn:Hreg;
    [|discriminate].
  intros _. exists name', methods. split; [reflexivity|]. split; [reflexivity|].
  destruct (registerMethods_spec _ (getMethods_four_ins rcv) _ _ Hreg) as [Hdom Hent].
  split.
  - intros k. rewrite Hdom, lookup_empty. split; [|auto].
    intros [[x Hx] | Hm]; [discriminate | exact Hm].
  - intros k e Hk. destruct (Hent k e Hk) as [Hempty | Hnew].
    + rewrite lookup_empty in Hempty. discriminate.
    + destruct Hnew as (m & a & b & c & d & x & y & Hm & Hname & HIn & H2 & H3 & ->).
      split; [reflexivity|]. exists m, a, b, c, d, x, y. auto 10.
Qed.

Lemma RegisterService_appends RpcServer reg (s : Server RpcServer) rcv name :
  snd (RegisterService dec up RpcServer reg s rcv name) = None →
  ∃ svc, services _ (fst (RegisterService dec up RpcServer reg s rcv name))
         = (services _ s ++ [svc])%list.
Proof.
  unfold RegisterService.
  destruct (reg (Server_rpc _ s) rcv name) as [inner [e|]]; [discriminate|].
  destruct (getName dec up rcv name) as [name'|e]; [|discriminate].
  destruct (registerMethods dec up (getMethods dec up rcv) ∅) as [methods|e];
    [|discriminate].
  intros _. eexists. reflexivity.
Qed.

(** X7. Registrations only ever add to the end of the list that
    [GetServices] returns: what it returned before is a prefix of what it
    returns after any sequence of registrations, failed ones included, and
    at most one service is added per registration; on a new server the list
    is empty, the service [RPC] itself not being in it. *)
Theorem GetServices_grows RpcServer reg (s : Server RpcServer)
    (regs : list (Receiver * string)) (fresh : RpcServer) (self : Receiver) :
  GetServices _ (NewServer RpcServer reg fresh self) = []
  ∧ ∃ added,
      GetServices _ (registerAll dec up RpcServer reg s regs)
      = (GetServices _ s ++ added)%list
      ∧ (List.length added ≤ List.length regs)%nat.
Proof.
  split.
  { unfold NewServer. destruct (reg fresh self "RPC"). reflexivity. }
  revert s. induction regs as [|[rcv name] rest IH]; intros s; simpl.
  - exists []. rewrite app_nil_r. split; [reflexivity | simpl; lia].
  - destruct (IH (fst (RegisterService dec up RpcServer reg s rcv name)))
      as (added & -> & Hlen).
    destruct (snd (RegisterService dec up RpcServer reg s rcv name)) as [e|] eqn:Herr.
    + exists added. unfold GetServices at 1.
      rewrite RegisterService_error_keeps_services by (rewrite Herr; discriminate).
      split; [reflexivity | lia].
    + destruct (RegisterService_appends RpcServer reg s rcv name Herr) as [svc Hs].
      exists (svc :: added). unfold GetServices at 1. rewrite Hs, <- app_assoc.
      split; [reflexivity | simpl; lia].
Qed.

(** X8. The wire key of a field is the text of its [json] tag before the
    first comma, the options after the comma being dropped, and the field's
    name when there is no [json] tag or that text is empty; so a field with a
    name never gets the empty key. *)
Theorem getFieldKey_tag (f : StructField rtype) (name opts : string) :
  strings.cut ","%char name = None →
  Tag_Get (Field_Tag f) "json" = name ∨ Tag_Get (Field_Tag f) "json" = name ++ "," ++ opts →
  getFieldKey f = (if String.eqb name "" then Field_Name f else name)
  ∧ (Field_Name f ≠ "" → getFieldKey f ≠ "").
Proof.
  intros Hname Htag.
  assert (getFieldKey f = if String.eqb name "" then Field_Name f else name) as Hkey.
  { unfold getFieldKey, strings.SplitN2. destruct Htag as [-> | ->].
    - destruct (String.eqb name "") eqn:He; [reflexivity|].
      rewrite Hname. rewrite He. reflexivity.
    - change (name ++ "," ++ opts) with (name ++ String ","%char opts).
      rewrite (cut_app _ _ _ Hname).
      assert (String.eqb (name ++ String ","%char opts) "" = false) as ->
        by (destruct name; reflexivity).
      reflexivity. }
  split; [exact Hkey|]. intros Hfield. rewrite Hkey.
  destruct (String.eqb name "") eqn:He; [exact Hfield|].
  apply String.eqb_neq. exact He.
Qed.

End ExtractorMore.

(** ** More on the request context *)

Section RequestMore.
Import gateway.
Context `{Externals}.

Hypothesis json_Marshal_nonempty :
  ∀ (v : Value) (b : bytes), json_Marshal v = Ok b → b ≠ "".

(** X9. After a successful [UpdateRequest(M, P)] with [M] not empty and [P]
    not nil, the client request built for the backend is the encoding of the
    method [M] with the JSON of [P] as parameters: the codec's method and
    arguments no longer enter it, and building it leaves the context as it
    is. *)
Theorem getClientRequest_after_UpdateRequest (r r' : Request) (M : string) (P : Value) :
  M ≠ "" →
  Request_UpdateRequest r M (Some P) = (r', None) →
  ∃ a, json_Marshal P = Ok a
       ∧ Request_getClientRequest r' = (r', json2_EncodeClientRequest M a).
Proof.
  intros HM. unfold Request_UpdateRequest.
  destruct (String.eqb M "") eqn:HMe; [apply String.eqb_eq in HMe; contradiction|].
  simpl. destruct (json_Marshal P) as [a|err] eqn:Hmar; [|discriminate].
  intros [= <-]. exists a. split; [reflexivity|].
  unfold Request_getClientRequest, Request_Method.
  cbn [args newMethod codecReq set_args set_newMethod].
  assert ((String.length a =? 0)%nat = false) as ->.
  { pose proof (json_Marshal_nonempty P a Hmar). destruct a; [congruence | reflexivity]. }
  change (newMethod (set_args (set_newMethod r M) a)) with M.
  change (args (set_args (set_newMethod r M) a)) with a.
  rewrite HMe. reflexivity.
Qed.

End RequestMore.

Section RequestMore2.
Import gateway.
Context `{Externals}.

(** X10. Building the client request changes the context in one way only:
    a context without arguments takes the raw parameters of the codec
    request as its arguments, and stays as it is when the codec request does
    not give them. The response, the [responded] flag, the method override,
    the request and the codec request are never touched, a context that
    holds arguments is left as it is, and a second call leaves the context
    as the first one left it. *)
Theorem getClientRequest_context (r r1 : Request) (res : result error bytes) :
  Request_getClientRequest r = (r1, res) →
  fst (Request_getClientRequest r1) = r1
  ∧ responded r1 = responded r
  ∧ respWriter r1 = respWriter r
  ∧ newMethod r1 = newMethod r
  ∧ http r1 = http r
  ∧ codecReq r1 = codecReq r
  ∧ (args r ≠ "" → r1 = r)
  ∧ (args r = "" → ∀ raw, codec_ReadRequest_raw (codecReq r) = Ok raw → r1 = set_args r raw)
  ∧ (args r = "" → ∀ err, codec_ReadRequest_raw (codecReq r) = Err err →
                          r1 = r ∧ res = Err err).
Proof.
  assert (∀ r0, fst (match Request_Method r0 with
                     | Ok m => (r0, json2_EncodeClientRequest m (args r0))
                     | Err err => (r0, Err err)
                     end) = r0) as Hkeep.
  { intros r0. destruct (Request_Method r0); reflexivity. }
  assert (args r ≠ "" → (String.length (args r) =? 0)%nat = false) as Hargs.
  { destruct (args r); [congruence | reflexivity]. }
  assert (args r = "" → (String.length (args r) =? 0)%nat = true) as Hnone.
  { intros ->. reflexivity. }
  unfold Request_getClientRequest.
  destruct (String.length (args r) =? 0)%nat eqn:Hlen.
  - destruct (codec_ReadRequest_raw (codecReq r)) as [raw|err] eqn:Hraw; cbv beta iota.
    + intros Hres.
      assert (r1 = set_args r raw) as ->.
      { pose proof (Hkeep (set_args r raw)) as Hk. rewrite Hres in Hk. exact Hk. }
      split.
      { change (codecReq (set_args r raw)) with (codecReq r).
        change (args (set_args r raw)) with raw. rewrite Hraw.
        destruct (String.length raw =? 0)%nat; cbv beta iota;
          change (set_args (set_args r raw) raw) with (set_args r raw); apply Hkeep. }
      do 5 (split; [reflexivity|]).
      split; [intros Hne; specialize (Hargs Hne); discriminate|].
      split.
      * intros _ raw' [= <-]. reflexivity.
      * intros _ err [=].
    + intros [= <- <-]. rewrite Hlen, Hraw. split; [reflexivity|].
      do 5 (split; [reflexivity|]).
      split; [intros _; reflexivity|].
      split; [intros _ raw [=] | intros _ err' [= <-]; split; reflexivity].
  - cbv beta iota. intros Hres.
    assert (r1 = r) as -> by (pose proof (Hkeep r) as Hk; rewrite Hres in Hk; exact Hk).
    rewrite Hlen. cbv beta iota. split; [apply Hkeep|].
    do 5 (split; [reflexivity|]).
    split; [intros _; reflexivity|].
    split; intros Hempty; specialize (Hnone Hempty); discriminate.
Qed.

(** X11. The two arguments of [UpdateRequest] act apart: an empty method
    leaves [Method()] as it was, nil parameters leave the arguments and what
    [ReadRequest] gives as they were and cannot fail. But parameters that do
    not marshal make the call fail after the method has been replaced: the
    arguments are the old ones, [Method()] is already the new method. *)
Theorem UpdateRequest_parts (r : Request) (method : string) (params : option Value) :
  (method = "" → Request_Method (fst (Request_UpdateRequest r method params)) = Request_Method r)
  ∧ (params = None →
     snd (Request_UpdateRequest r method params) = None
     ∧ args (fst (Request_UpdateRequest r method params)) = args r
     ∧ ∀ out, Request_ReadRequest (fst (Request_UpdateRequest r method params)) out
              = Request_ReadRequest r out)
  ∧ (∀ P err, params = Some P → json_Marshal P = Err err →
       snd (Request_UpdateRequest r method params) = Some err
       ∧ args (fst (Request_UpdateRequest r method params)) = args r
       ∧ (method ≠ "" →
          Request_Method (fst (Request_UpdateRequest r method params)) = Ok method)).
Proof.
  unfold Request_UpdateRequest. split; [|split].
  - intros ->. simpl. destruct params as [p|]; [|reflexivity].
    destruct (json_Marshal p); reflexivity.
  - intros ->. destruct (negb (String.eqb method "")); repeat split.
  - intros P err -> Hmar. rewrite Hmar.
    destruct (String.eqb method "") eqn:He; simpl.
    + repeat split. intros Hne. apply String.eqb_eq in He. contradiction.
    + repeat split. intros _. unfold Request_Method. simpl. rewrite He. reflexivity.
Qed.

End RequestMore2.

(** ** More on the gateway: routing and the registry *)

Section GatewayMore.
Import gateway.
Context `{Externals}.

Lemma cut_before (sep : ascii) (s a b : string) :
  strings.cut sep s = Some (a, b) → strings.cut sep a = None.
Proof.
  revert a b. induction s as [|c rest IH]; intros a b; simpl; [discriminate|].
  destruct (Ascii.eqb c sep) eqn:Hc.
  - intros [= <- <-]. reflexivity.
  - destruct (strings.cut sep rest) as [[a' b']|]; [|discriminate].
    intros [= <- <-]. simpl. rewrite Hc, (IH a' b' eq_refl). reflexivity.
Qed.

(** [getMethod] on a service name without dot, a dot, and a method name. *)
Lemma getMethod_dotted (g : Gateway) (srvName mName : string) :
  strings.cut "."%char srvName = None →
  getMethod g (srvName ++ "." ++ mName)
  = match services g !! srvName with
    | None => (zeroRemoteService, zeroMethod, Some errNoRemoteService)
    | Some rsrv =>
        match Methods (rs_Service rsrv) !! mName with
        | None => (rsrv, zeroMethod, Some errCannotHandleMethod)
        | Some m => (rsrv, m, None)
        end
    end.
Proof.
  intros Hsrv. unfold getMethod, strings.SplitN2.
  change (srvName ++ "." ++ mName) with (srvName ++ String "."%char mName).
  rewrite (cut_app _ _ _ Hsrv). reflexivity.
Qed.

(** X12. A method string is split at its first dot only: on a service name
    without dot, a dot and any method name (dots included) [getMethod] looks
    the service up under the one and the method under the other, and tells
    an unknown service from an unknown method of a known service, for which
    it still returns the service's entry. Conversely it returns without
    error only for such a string, the entry registered under the service
    name and the method record under the method name. *)
Theorem getMethod_route (g : Gateway) :
  (∀ srvName mName,
     strings.cut "."%char srvName = None →
     getMethod g (srvName ++ "." ++ mName)
     = match services g !! srvName with
       | None => (zeroRemoteService, zeroMethod, Some errNoRemoteService)
       | Some rsrv =>
           match Methods (rs_Service rsrv) !! mName with
           | None => (rsrv, zeroMethod, Some errCannotHandleMethod)
           | Some m => (rsrv, m, None)
           end
       end)
  ∧ (∀ mStr rsrv m,
       getMethod g mStr = (rsrv, m, None) →
       ∃ srvName mName,
         mStr = srvName ++ "." ++ mName
         ∧ strings.cut "."%char srvName = None
         ∧ services g !! srvName = Some rsrv
         ∧ Methods (rs_Service rsrv) !! mName = Some m).
Proof.
  split; [apply getMethod_dotted|].
  intros mStr rsrv m. unfold getMethod, strings.SplitN2.
  destruct (strings.cut "."%char mStr) as [[srvName mName]|] eqn:Hcut; [|discriminate].
  destruct (services g !! srvName) as [e|] eqn:He; [|discriminate].
  destruct (Methods (rs_Service e) !! mName) as [m'|] eqn:Hm; [|discriminate].
  intros [= <- <-]. exists srvName, mName.
  split; [apply (cut_Some _ _ _ _ Hcut)|].
  split; [apply (cut_before _ _ _ _ Hcut)|]. auto.
Qed.

(** X13. When [AddURL] returns no error: the URL string, with [http://] put
    before it if it did not start with [http], parsed to a URL with a host;
    the services stored are those that were fetched from the URL with the
    resolved host, in the world the resolution left; the mapping holds,
    under the name of every fetched service, the last fetched service of
    that name with that URL string as its original URL and a pointer to the
    parsed URL, whose host is the one given and not the resolved one; every
    other name keeps its entry; and a method of a fetched service whose name
    has no dot is routed to that entry. *)
Theorem AddURL_success (g g' : Gateway) (h h' : store) (x x' : Ext) (u : string) :
  AddURL g h x u = (g', h', x', None) →
  ∃ parsed found,
    url_Parse (withScheme u) = Ok parsed
    ∧ Host parsed ≠ ""
    ∧ rpcutil_GetServices (snd (srv_MaybeSRV x (Host parsed)))
        (URL_String (URL_with_Host parsed (fst (srv_MaybeSRV x (Host parsed)))))
      = (Ok found, x')
    ∧ h' !! List.length h = Some parsed
    ∧ extends h' h
    ∧ (∀ name,
         services g' !! name
         = match lastNamed found name with
           | Some srv => Some (entryOf (List.length h) (withScheme u) srv)
           | None => services g !! name
           end)
    ∧ (∀ srv mName m,
         lastNamed found (Service_Name srv) = Some srv →
         strings.cut "."%char (Service_Name srv) = None →
         Methods srv !! mName = Some m →
         getMethod g' (Service_Name srv ++ "." ++ mName)
         = (entryOf (List.length h) (withScheme u) srv, m, None)).
Proof.
  intros Hadd. destruct (AddURL_inv _ _ _ _ _ _ _ _ Hadd) as [[Hret _] | [_ Hok]];
    [congruence|].
  destruct Hok as (parsed & found & Hparse & Hhost & -> & Hfetch & ->).
  exists parsed, found. split; [exact Hparse|]. split; [exact Hhost|].
  split; [exact Hfetch|].
  split; [apply list_lookup_middle; reflexivity|].
  split; [apply extends_app|].
  assert (∀ name,
            services (set_services g (addServices (services g) found (List.length h)
                                        (withScheme u))) !! name
            = match lastNamed found name with
              | Some srv => Some (entryOf (List.length h) (withScheme u) srv)
              | None => services g !! name
              end) as Hlookup.
  { intros name. simpl. apply addServices_lookup. }
  split; [exact Hlookup|].
  intros srv mName m Hlast Hdot Hm.
  rewrite (getMethod_dotted _ _ _ Hdot), Hlookup, Hlast. simpl. rewrite Hm. reflexivity.
Qed.

(** X14. Neither [AddURL], whatever it returns, nor a refresh ever takes a
    name out of the mapping or a URL out of the store, and neither touches
    the codecs: a backend that has stopped answering keeps its services
    routable. *)
Theorem registry_never_shrinks (g : Gateway) (h : store) (x : Ext) (u : string) :
  (∀ name, is_Some (services g !! name) →
           is_Some (services (AddURL g h x u).1.1.1 !! name))
  ∧ extends (AddURL g h x u).1.1.2 h
  ∧ codecs (AddURL g h x u).1.1.1 = codecs g
  ∧ (∀ name, is_Some (services g !! name) →
             is_Some (services (refreshURLs g h x).1.1 !! name))
  ∧ extends (refreshURLs g h x).1.2 h
  ∧ codecs (refreshURLs g h x).1.1 = codecs g.
Proof.
  assert (∀ g h x u,
            (∀ name, is_Some (services g !! name) →
                     is_Some (services (AddURL g h x u).1.1.1 !! name))
            ∧ extends (AddURL g h x u).1.1.2 h
            ∧ codecs (AddURL g h x u).1.1.1 = codecs g) as Hadd.
  { intros g0 h0 x0 u0. destruct (AddURL g0 h0 x0 u0) as [[[g1 h1] x1] ret] eqn:Hres.
    apply (AddURL_mono _ _ _ _ _ _ _ _ Hres). }
  destruct (Hadd g h x u) as (H1 & H2 & H3).
  split; [exact H1|]. split; [exact H2|]. split; [exact H3|].
  unfold refreshURLs. generalize (snd <$> map_to_list (services g)). intros srvs.
  assert (∀ g0 h0 x0,
            (∀ name, is_Some (services g !! name) → is_Some (services g0 !! name)) →
            extends h0 h → codecs g0 = codecs g →
            let r := foldl (λ '(g, h, x) srv,
                              let '(g, h, x, _) := AddURL g h x (origURL srv) in (g, h, x))
                           (g0, h0, x0) srvs in
            (∀ name, is_Some (services g !! name) → is_Some (services r.1.1 !! name))
            ∧ extends r.1.2 h ∧ codecs r.1.1 = codecs g) as Hfold.
  { induction srvs as [|srv rest IH]; intros g0 h0 x0 Hs Hh Hc; simpl; [auto|].
    destruct (Hadd g0 h0 x0 (origURL srv)) as (A1 & A2 & A3).
    destruct (AddURL g0 h0 x0 (origURL srv)) as [[[g1 h1] x1] ret]. simpl in *.
    apply IH; [auto | eapply extends_trans; eauto | congruence]. }
  apply Hfold; [auto | apply extends_refl | reflexivity].
Qed.

Lemma withScheme_http (u : string) : strings.HasPrefix (withScheme u) "http" = true.
Proof.
  unfold withScheme. destruct (strings.HasPrefix u "http") eqn:Hp; simpl.
  - exact Hp.
  - reflexivity.
Qed.

Lemma AddURL_normalised (g : Gateway) (h : store) (x : Ext) (u : string) :
  AddURL g h x (withScheme u) = AddURL g h x u.
Proof.
  unfold AddURL. rewrite withScheme_http. reflexivity.
Qed.

Lemma foldl_iter {A B : Type} (f : A → A) (step : A → B → A) (l : list B) :
  (∀ a b, b ∈ l → step a b = f a) →
  ∀ a, foldl step a l = Nat.iter (List.length l) f a.
Proof.
  induction l as [|b rest IH]; intros Hstep a; simpl; [reflexivity|].
  rewrite (Hstep a b) by apply list_elem_of_here.
  rewrite IH by (intros a' b' Hb'; apply Hstep, list_elem_of_further, Hb').
  apply Nat.iter_swap.
Qed.

(** X15. [AddURL] goes on with its argument normalised ([http://] before a
    string that does not start with [http]) and stores that string as the
    original URL of every entry it writes; the stored string starts with
    [http], so [AddURL] on it, which is what a refresh calls, is [AddURL] on
    the string first given. A refresh of a gateway all of whose entries came
    from [AddURL] on [u] is therefore [AddURL] on [u] again, run once for
    every entry of the mapping (once per service, not once per URL). *)
Theorem AddURL_withScheme (g : Gateway) (h : store) (x : Ext) (u : string) :
  AddURL g h x u = AddURL g h x (withScheme u)
  ∧ (∀ g' h' x' name e,
       AddURL g h x u = (g', h', x', None) →
       services g' !! name = Some e →
       services g !! name = Some e
       ∨ (origURL e = withScheme u
          ∧ strings.HasPrefix (origURL e) "http" = true
          ∧ ∀ g0 h0 x0, AddURL g0 h0 x0 (origURL e) = AddURL g0 h0 x0 u))
  ∧ ((∀ name e, services g !! name = Some e → origURL e = withScheme u) →
     refreshURLs g h x
     = Nat.iter (size (services g)) (λ s, (AddURL s.1.1 s.1.2 s.2 u).1) (g, h, x)).
Proof.
  split; [symmetry; apply AddURL_normalised|]. split.
  - intros g' h' x' name e Hadd Hname.
    destruct (AddURL_inv _ _ _ _ _ _ _ _ Hadd) as [[Hret _] | [_ Hok]]; [congruence|].
    destruct Hok as (parsed & found & _ & _ & _ & _ & ->). simpl in Hname.
    rewrite addServices_lookup in Hname.
    destruct (lastNamed found name) as [srv|]; [|left; exact Hname].
    right. injection Hname as <-. simpl.
    split; [reflexivity|]. split; [apply withScheme_http|].
    intros g0 h0 x0. apply AddURL_normalised.
  - intros Hall. unfold refreshURLs.
    rewrite <- length_map_to_list, <- (length_fmap snd).
    apply (foldl_iter (λ s, (AddURL s.1.1 s.1.2 s.2 u).1)).
    intros [[g0 h0] x0] srv Hsrv. simpl.
    apply list_elem_of_fmap in Hsrv as [[name e] [-> Hin]].
    apply elem_of_map_to_list in Hin. simpl.
    rewrite (Hall name e Hin), AddURL_normalised.
    destruct (AddURL g0 h0 x0 u) as [[[g1 h1] x1] ret]. reflexivity.
Qed.

(** X16. [GetMethodURL] dereferences the URL of whatever [getMethod]
    returned: for a string without dot, or with an unknown service before
    its first dot, that URL is nil and the call panics instead of returning
    the error. For a registered service whose URL is in the store it returns
    a pointer to a new URL, the copy of the service's URL with the host
    resolved, next to [getMethod]'s error for a method the service does not
    have, and the store keeps what it held. *)
Theorem GetMethodURL_cases (g : Gateway) (h : store) (x : Ext) :
  (∀ mStr, strings.cut "."%char mStr = None → GetMethodURL g h x mStr = None)
  ∧ (∀ srvName mName,
       strings.cut "."%char srvName = None →
       services g !! srvName = None →
       GetMethodURL g h x (srvName ++ "." ++ mName) = None)
  ∧ (∀ srvName mName entry l u,
       strings.cut "."%char srvName = None →
       services g !! srvName = Some entry →
       rs_URL entry = Some l →
       h !! l = Some u →
       GetMethodURL g h x (srvName ++ "." ++ mName)
       = Some (List.length h,
               (h ++ [URL_with_Host u (fst (srv_MaybeSRV x (Host u)))])%list,
               snd (srv_MaybeSRV x (Host u)),
               match Methods (rs_Service entry) !! mName with
               | Some _ => None
               | None => Some errCannotHandleMethod
               end)).
Proof.
  split; [|split].
  - intros mStr Hcut. unfold GetMethodURL, getMethod, strings.SplitN2.
    rewrite Hcut. reflexivity.
  - intros srvName mName Hdot Hnone. unfold GetMethodURL.
    rewrite (getMethod_dotted _ _ _ Hdot), Hnone. reflexivity.
  - intros srvName mName entry l u Hdot Hentry Hurl Hl. unfold GetMethodURL.
    rewrite (getMethod_dotted _ _ _ Hdot), Hentry.
    destruct (Methods (rs_Service entry) !! mName);
      unfold resolveURL, resolvedCopy; rewrite Hurl, Hl;
      destruct (srv_MaybeSRV x (Host u)); reflexivity.
Qed.

Lemma getMethod_entry (g : Gateway) (mStr : string) :
  (getMethod g mStr).1.1 = zeroRemoteService
  ∨ ∃ name, services g !! name = Some (getMethod g mStr).1.1.
Proof.
  unfold getMethod. destruct (strings.SplitN2 mStr "."%char) as [|srvName [|mName [|]]];
    auto.
  destruct (services g !! srvName) as [e|] eqn:He; [|auto].
  right. exists srvName. destruct (Methods (rs_Service e) !! mName); exact He.
Qed.

Lemma forward_no_panic (to : Route) (req : Request) (h : store) (x : Ext) (log : list Event) :
  o_panic (forward to req h x log) = false.
Proof. apply forward_spec. Qed.

Lemma dispatch_no_panic (g : Gateway) (to : Route) (rsrv : remoteService)
    (rpcMethod : gatewaytypes_Method) (codecReq : CodecRequest)
    (w : ResponseWriter) (r : HttpRequest) (h : store) (x : Ext) (log : list Event) :
  (∀ l, rs_URL rsrv = Some l → is_Some (h !! l)) →
  o_panic (dispatch g to rsrv rpcMethod codecReq w r h x log) = false.
Proof.
  intros Hurl. unfold dispatch.
  assert (∀ url h' x', o_panic
            (let req := newRequest rsrv rpcMethod codecReq w r url in
             let '(req, log) :=
               match RequestCallback g with
               | Some callback =>
                   let '(req', calls) := runCallback (callback req) req in
                   (req', (log ++ [EvCallback calls req'])%list)
               | None => (req, log)
               end in
             if responded req then done (respWriter req) h' x' log
             else forward to req h' x' log) = false) as Hrest.
  { intros url h' x'. cbv zeta. destruct (RequestCallback g) as [callback|].
    - destruct (runCallback _ _) as [req calls].
      destruct (responded req); [reflexivity | apply forward_no_panic].
    - simpl. apply forward_no_panic. }
  destruct (rs_URL rsrv) as [l|]; [|apply Hrest].
  destruct (Hurl l eq_refl) as [u Hl].
  unfold resolveURL, resolvedCopy. rewrite Hl.
  destruct (srv_MaybeSRV x (Host u)). apply Hrest.
Qed.

(** X17. A gateway whose entries all point into the store never panics on a
    request: the URL it resolves is there, and the loop that picks the only
    codec of the map finds it. *)
Theorem ServeHTTP_never_panics (g : Gateway) (tick : bool) (w : ResponseWriter)
    (r : HttpRequest) (h : store) (x : Ext) :
  registry_ok g h → o_panic (ServeHTTP g tick w r h x) = false.
Proof.
  intros Hok. unfold ServeHTTP.
  destruct (String.eqb (Method r) "OPTIONS"); [reflexivity|].
  destruct (negb (String.eqb (Method r) "POST")); [reflexivity|].
  assert (∀ codec, o_panic (serveCodec g codec (addCORS g w r) r h x (polled tick)) = false)
    as Hserve.
  { intros codec. unfold serveCodec.
    destruct (codec_Method (NewRequest codec r)) as [m|err]; [|reflexivity].
    pose proof (getMethod_entry g m) as Hentry.
    destruct (getMethod g m) as [[rsrv rpcMethod] err]. simpl in Hentry.
    assert (∀ l, rs_URL rsrv = Some l → is_Some (h !! l)) as Hurl.
    { destruct Hentry as [-> | [name Hname]]; [discriminate|].
      intros l Hl. eapply Hok; eauto. }
    destruct err as [err|]; [|apply dispatch_no_panic, Hurl].
    destruct (BackupHandler g); [apply dispatch_no_panic, Hurl | reflexivity]. }
  unfold selectCodec.
  destruct (String.eqb _ "" && (size (codecs g) =? 1)%nat) eqn:Hone.
  - apply andb_true_iff in Hone as [_ Hsize]. apply Nat.eqb_eq in Hsize.
    rewrite <- length_map_to_list in Hsize.
    destruct (map_to_list (codecs g)) as [|[k c] rest]; [discriminate|]. apply Hserve.
  - destruct (codecs g !! _); [apply Hserve | reflexivity].
Qed.

(** X18. That every entry points into the store holds of a new gateway and
    is kept by [AddURL], whatever it returns, and by a refresh. *)
Theorem registry_ok_invariant (g : Gateway) (h : store) (x : Ext) (u : string) :
  registry_ok NewGateway h
  ∧ (registry_ok g h →
     registry_ok (AddURL g h x u).1.1.1 (AddURL g h x u).1.1.2
     ∧ registry_ok (refreshURLs g h x).1.1 (refreshURLs g h x).1.2).
Proof.
  split.
  { intros name entry l Hname. simpl in Hname. rewrite lookup_empty in Hname. discriminate. }
  assert (∀ g h x u, registry_ok g h →
            registry_ok (AddURL g h x u).1.1.1 (AddURL g h x u).1.1.2) as Hadd.
  { intros g0 h0 x0 u0 Hok.
    destruct (AddURL g0 h0 x0 u0) as [[[g1 h1] x1] ret] eqn:Hres. simpl.
    destruct (AddURL_inv _ _ _ _ _ _ _ _ Hres) as [(_ & -> & Hext) | [_ Hsucc]].
    - intros name entry l Hname Hl. destruct (Hok name entry l Hname Hl) as [v Hv].
      exists v. apply Hext, Hv.
    - destruct Hsucc as (parsed & found & _ & _ & -> & _ & ->).
      intros name entry l. simpl. rewrite addServices_lookup.
      destruct (lastNamed found name) as [srv|].
      + intros [= <-] [= <-]. exists parsed. apply list_lookup_middle. reflexivity.
      + intros Hname Hl. destruct (Hok name entry l Hname Hl) as [v Hv].
        exists v. apply lookup_app_l_Some, Hv. }
  intros Hok. split; [apply Hadd, Hok|].
  unfold refreshURLs. generalize (snd <$> map_to_list (services g)). intros srvs.
  revert g h x Hok. induction srvs as [|srv rest IH]; intros g0 h0 x0 Hok; simpl; [exact Hok|].
  pose proof (Hadd g0 h0 x0 (origURL srv) Hok) as Hstep.
  destruct (AddURL g0 h0 x0 (origURL srv)) as [[[g1 h1] x1] ret]. simpl in Hstep.
  apply IH, Hstep.
Qed.

End GatewayMore.

(** ** More on the handler *)

Section HandlerMore.
Import gateway.
Context `{Externals}.

(** X19. The method check comes before everything but the CORS headers: an
    OPTIONS request is ended with nothing written, whether or not an origin
    matched, and a request that is neither OPTIONS nor POST gets the
    plain-text error 405 naming its method. Neither reads the body, picks a
    codec, calls the callback, forwards anything or touches the store. *)
Theorem ServeHTTP_method_check (g : Gateway) (tick : bool) (w : ResponseWriter)
    (r : HttpRequest) (h : store) (x : Ext) :
  let o := ServeHTTP g tick w r h x in
  (Method r = "OPTIONS" →
     o = done (addCORS g w r) h x (polled tick) ∧ written (o_w o) = written w)
  ∧ (Method r ≠ "OPTIONS" → Method r ≠ "POST" →
     o = done (writeErrorf (addCORS g w r) 405
                 "rpc: POST method required, received %q" [Method r]) h x (polled tick)
     ∧ written (o_w o)
       = (written w ++ [WriteHeader 405;
                        Fprint (fmt_Sprintf "rpc: POST method required, received %q"
                                            [Method r])])%list
     ∧ o_store o = h ∧ o_ext o = x ∧ o_log o = polled tick).
Proof.
  intros o. subst o. unfold ServeHTTP. split.
  - intros ->. simpl. split; [reflexivity | apply addCORS_written].
  - intros HOPT HPOST.
    apply String.eqb_neq in HOPT, HPOST. rewrite HOPT, HPOST. simpl.
    split; [reflexivity|]. rewrite addCORS_written, <- app_assoc. auto.
Qed.

Lemma no_write_no_writes (calls : list Call) :
  existsb isWrite calls = false → flat_map writes_of calls = [].
Proof.
  induction calls as [|c rest IH]; simpl; [reflexivity|].
  intros [Hc Hrest]%orb_false_iff. rewrite (IH Hrest).
  destruct c; simpl in *; try reflexivity; discriminate.
Qed.

Lemma forward_written (to : Route) (req : Request) (h : store) (x : Ext) (log : list Event) :
  ∃ resp, oneResponse resp
          ∧ written (o_w (forward to req h x log)) = (written (respWriter req) ++ resp)%list.
Proof.
  unfold forward. pose proof (Request_getClientRequest_frame req) as Hw.
  destruct (Request_getClientRequest req) as [req' [b|err]]; simpl in *.
  - destruct (runHandler to x h _) as [rec x'].
    destruct (json2_DecodeClientResponse (rec_Body rec)); simpl; rewrite Hw;
      eexists; (split; [constructor | reflexivity]).
  - rewrite Hw. eexists. split; [constructor | reflexivity].
Qed.

Lemma dispatch_written (g : Gateway) (to : Route) (rsrv : remoteService)
    (rpcMethod : gatewaytypes_Method) (codecReq : CodecRequest)
    (w : ResponseWriter) (r : HttpRequest) (h : store) (x : Ext) (log : list Event) :
  let o := dispatch g to rsrv rpcMethod codecReq w r h x log in
  o_panic o = false →
  (∃ calls after,
     o_log o = (log ++ [EvCallback calls after])%list
     ∧ existsb isWrite calls = true
     ∧ written (o_w o) = (written w ++ flat_map writes_of calls)%list)
  ∨ (∃ resp, oneResponse resp ∧ written (o_w o) = (written w ++ resp)%list).
Proof.
  intros o Hpanic. subst o.
  destruct (dispatch_cases g to rsrv rpcMethod codecReq w r h x log)
    as [Heq | (url & h' & x' & req0 & _ & -> & Hcases)].
  { rewrite Heq in Hpanic. discriminate. }
  destruct Hcases as [[_ ->] | (callback & req & calls & _ & Hrun & Hcases)].
  { right. apply forward_written. }
  pose proof (runCallback_spec (callback (newRequest rsrv rpcMethod codecReq w r url))
                (newRequest rsrv rpcMethod codecReq w r url)) as Hcb.
  rewrite Hrun in Hcb. simpl in Hcb. destruct Hcb as (Hw & _ & Hresp & _).
  destruct Hcases as [[Hr ->] | [Hr ->]]; rewrite Hr in Hresp.
  - left. exists calls, req. simpl. auto.
  - right. destruct (forward_written to req h' x' (log ++ [EvCallback calls req]))
      as (resp & Hone & ->).
    exists resp. split; [exact Hone|].
    rewrite Hw, (no_write_no_writes calls), app_nil_r by (symmetry; exact Hresp).
    reflexivity.
Qed.

(** X20. A request that is not OPTIONS, handled without panic, is answered
    once: either the callback wrote (and the response holds its writes and
    nothing of the gateway's), or the gateway wrote exactly one response, be
    it a plain-text error, an error through the codec or the backend's reply
    through the codec. *)
Theorem ServeHTTP_one_response (g : Gateway) (tick : bool) (w : ResponseWriter)
    (r : HttpRequest) (h : store) (x : Ext) :
  let o := ServeHTTP g tick w r h x in
  Method r ≠ "OPTIONS" →
  o_panic o = false →
  (∃ calls after,
     o_log o = (polled tick ++ [EvCallback calls after])%list
     ∧ existsb isWrite calls = true
     ∧ written (o_w o) = (written w ++ flat_map writes_of calls)%list)
  ∨ (∃ resp, oneResponse resp ∧ written (o_w o) = (written w ++ resp)%list).
Proof.
  intros o HOPT. subst o. unfold ServeHTTP.
  apply String.eqb_neq in HOPT. rewrite HOPT.
  destruct (negb (String.eqb (Method r) "POST")).
  { intros _. right. eexists. split; [constructor|].
    simpl. rewrite addCORS_written, <- app_assoc. reflexivity. }
  destruct (selectCodec g _) as [codec| |]; [| |discriminate].
  - unfold serveCodec.
    assert (∀ resp', written (codec_write (NewRequest codec r) (addCORS g w r) resp')
                     = (written w ++ [resp'])%list)
      as Hone by (intros; simpl; rewrite addCORS_written; reflexivity).
    destruct (codec_Method (NewRequest codec r)) as [m|err].
    + destruct (getMethod g m) as [[rsrv rpcMethod] [err|]].
      * destruct (BackupHandler g) as [bh|].
        -- intros Hp. pose proof (dispatch_written _ _ _ _ _ _ _ _ _ _ Hp) as Hd.
           rewrite addCORS_written in Hd. exact Hd.
        -- intros _. right. eexists. split; [constructor | apply Hone].
      * intros Hp. pose proof (dispatch_written _ _ _ _ _ _ _ _ _ _ Hp) as Hd.
        rewrite addCORS_written in Hd. exact Hd.
    + intros _. right. eexists. split; [constructor | apply Hone].
  - intros _. right. eexists. split; [constructor|].
    simpl. rewrite addCORS_written, <- app_assoc. reflexivity.
Qed.

(** X21. For a POST request decoded to a service name without dot, a dot and
    a method name. An unknown service, and an unknown method of a known
    service, are handed to the codec's error framer with status 400 and the
    error that tells which, unless a backup handler is configured; then both
    are routed to the backup handler, the first without service and URL, the
    second with the name of the known service and a pointer to its URL
    resolved as for a forward to it. A known method of a known service is
    routed to the external handler with the name of the service, the method
    record and the resolved URL. Routed to a handler means: the callback, if
    there is one, is run on that context; unless it wrote, the client
    request is built and, once built, sent to that handler and no other, and
    the handler's reply is written through the codec request. *)
Theorem ServeHTTP_routing (g : Gateway) (tick : bool) (w : ResponseWriter)
    (r : HttpRequest) (h : store) (x : Ext) (codec : Codec) (srvName mName : string) :
  let o := ServeHTTP g tick w r h x in
  let w' := addCORS g w r in
  let codecReq := NewRequest codec r in
  Method r = "POST" →
  selectCodec g (stripParams (Header_Get (ReqHeader r) "Content-Type")) = Selected codec →
  codec_Method codecReq = Ok (srvName ++ "." ++ mName) →
  strings.cut "."%char srvName = None →
  (services g !! srvName = None →
     (BackupHandler g = None →
        o = done (codec_write codecReq w' (CodecWriteError 400 errNoRemoteService))
                 h x (polled tick))
     ∧ (∀ bh, BackupHandler g = Some bh →
          routedTo g (Backup bh) bh
            (newRequest zeroRemoteService zeroMethod codecReq w' (consumed r) None)
            h x (polled tick) o))
  ∧ (∀ entry, services g !! srvName = Some entry →
       Methods (rs_Service entry) !! mName = None →
       (BackupHandler g = None →
          o = done (codec_write codecReq w' (CodecWriteError 400 errCannotHandleMethod))
                   h x (polled tick))
       ∧ (∀ bh l u, BackupHandler g = Some bh →
            rs_URL entry = Some l → h !! l = Some u →
            routedTo g (Backup bh) bh
              (newRequest entry zeroMethod codecReq w' (consumed r) (Some (List.length h)))
              (h ++ [URL_with_Host u (fst (srv_MaybeSRV x (Host u)))])%list
              (snd (srv_MaybeSRV x (Host u))) (polled tick) o))
  ∧ (∀ entry m l u, services g !! srvName = Some entry →
       Methods (rs_Service entry) !! mName = Some m →
       rs_URL entry = Some l → h !! l = Some u →
       routedTo g External externalHandler
         (newRequest entry m codecReq w' (consumed r) (Some (List.length h)))
         (h ++ [URL_with_Host u (fst (srv_MaybeSRV x (Host u)))])%list
         (snd (srv_MaybeSRV x (Host u))) (polled tick) o).
Proof.
  intros o w' codecReq HPOST Hsel Hm Hdot.
  assert (o = let '(rsrv, rpcMethod, err) := getMethod g (srvName ++ "." ++ mName) in
              match err with
              | Some err =>
                  match BackupHandler g with
                  | Some bh => dispatch g (Backup bh) rsrv rpcMethod codecReq w' (consumed r)
                                        h x (polled tick)
                  | None => done (codec_write codecReq w' (CodecWriteError 400 err))
                                 h x (polled tick)
                  end
              | None => dispatch g External rsrv rpcMethod codecReq w' (consumed r)
                                 h x (polled tick)
              end) as Ho.
  { subst o. unfold ServeHTTP. rewrite HPOST. simpl. rewrite Hsel.
    unfold serveCodec. fold codecReq. rewrite Hm. reflexivity. }
  rewrite (getMethod_dotted _ _ _ Hdot) in Ho.
  split; [|split].
  - intros Hnone. rewrite Hnone in Ho. split.
    + intros Hb. rewrite Hb in Ho. exact Ho.
    + intros bh Hb. rewrite Hb in Ho. rewrite Ho.
      apply (dispatch_routedTo_nil g (Backup bh)). reflexivity.
  - intros entry Hentry Hmeth. rewrite Hentry, Hmeth in Ho. split.
    + intros Hb. rewrite Hb in Ho. exact Ho.
    + intros bh l u Hb Hurl Hl. rewrite Hb in Ho. rewrite Ho.
      apply (dispatch_routedTo_url g (Backup bh) _ _ _ _ _ _ _ _ l u Hurl Hl).
  - intros entry m l u Hentry Hmeth Hurl Hl. rewrite Hentry, Hmeth in Ho. rewrite Ho.
    apply (dispatch_routedTo_url g External _ _ _ _ _ _ _ _ l u Hurl Hl).
Qed.

(** X22. What is forwarded, once the client request is built: the request of
    the context, method, headers, URL and request URI as they are, with the
    client request as its body and the length of that as its content length.
    The client request is the encoding of the effective method (the override
    if there is one, else the codec's) with the arguments of the context, or
    with the raw parameters of the codec when the context holds none. *)
Theorem forward_envelope (to : Route) (req : Request) (h : store) (x : Ext)
    (log : list Event) (b : bytes) :
  snd (Request_getClientRequest req) = Ok b →
  ∃ m params,
    Request_Method req = Ok m
    ∧ (args req ≠ "" → params = args req)
    ∧ (args req = "" → codec_ReadRequest_raw (codecReq req) = Ok params)
    ∧ json2_EncodeClientRequest m params = Ok b
    ∧ o_log (forward to req h x log)
      = (log ++ [EvEnvelope (Ok b);
                 EvForward to (mkHttpRequest (Method (http req)) (ReqHeader (http req))
                                 (ReqURL (http req)) (RequestURI (http req))
                                 b (Z.of_nat (String.length b)))])%list.
Proof.
  intros Hb.
  assert (∃ m params req',
            Request_getClientRequest req = (req', Ok b)
            ∧ http req' = http req
            ∧ Request_Method req = Ok m
            ∧ (args req ≠ "" → params = args req)
            ∧ (args req = "" → codec_ReadRequest_raw (codecReq req) = Ok params)
            ∧ json2_EncodeClientRequest m params = Ok b) as (m & params & req' & Hg & Hh & Hrest).
  { revert Hb. unfold Request_getClientRequest.
    destruct (args req) as [|c rest] eqn:Hargs.
    - simpl. destruct (codec_ReadRequest_raw (codecReq req)) as [raw|err] eqn:Hraw;
        [|discriminate].
      change (Request_Method (set_args req raw)) with (Request_Method req).
      destruct (Request_Method req) as [m|err] eqn:Hm; [|discriminate].
      simpl. intros Henc. exists m, raw, (set_args req raw). rewrite Henc.
      repeat split; auto. congruence.
    - simpl. destruct (Request_Method req) as [m|err] eqn:Hm; [|discriminate].
      simpl. rewrite Hargs. intros Henc. exists m, (String c rest), req. rewrite Henc.
      repeat split; auto. discriminate. }
  exists m, params. destruct Hrest as (HM & Ha & Hr & Henc).
  repeat (split; [assumption|]).
  unfold forward. rewrite Hg, Hh.
  destruct (runHandler to x h _) as [rec x'].
  destruct (json2_DecodeClientResponse (rec_Body rec)); simpl;
    rewrite <- app_assoc; reflexivity.
Qed.

(** X23. Without an origin, without a configured expression, or with an
    origin the expression does not match, the handler adds no header: an
    OPTIONS request leaves the response as it was given, and at the end of
    any handling a header other than [Content-Type] that no registered codec
    touches has the values it was given. *)
Theorem ServeHTTP_no_CORS (g : Gateway) (tick : bool) (w : ResponseWriter)
    (r : HttpRequest) (h : store) (x : Ext) :
  let origin := Header_Get (ReqHeader r) "Origin" in
  let o := ServeHTTP g tick w r h x in
  origin = "" ∨ CORSMatch g = None
  ∨ (∃ re, CORSMatch g = Some re ∧ regexp_MatchString re origin = false) →
  addCORS g w r = w
  ∧ (Method r = "OPTIONS" → o_w o = w)
  ∧ (∀ k, k ≠ "Content-Type" →
       (∀ key c ev hd, codecs g !! key = Some c →
          Header_Values (codec_Header (NewRequest c r) ev hd) k = Header_Values hd k) →
       Header_Values (RespHeader (o_w o)) k = Header_Values (RespHeader w) k).
Proof.
  intros origin o Hno.
  assert (addCORS g w r = w) as Hcors.
  { unfold addCORS. fold origin. destruct Hno as [-> | [-> | (re & -> & ->)]].
    - reflexivity.
    - rewrite andb_false_r. reflexivity.
    - rewrite andb_false_r. reflexivity. }
  split; [exact Hcors|]. split.
  - intros HOPT. subst o. unfold ServeHTTP. rewrite HOPT, Hcors. reflexivity.
  - intros k Hk Hkeeps. subst o.
    rewrite (ServeHTTP_Header_Values g tick w r h x k Hk Hkeeps), Hcors. reflexivity.
Qed.

(** X24. Whenever a handling called the callback and the callback returned
    without a call of [WriteError] or [WriteResponse]: [responded] is not
    set, the handler goes on to build the client request from the context as
    the callback left it (its method override and arguments included), and
    the one response written is the gateway's. *)
Theorem callback_without_write_forwards (g : Gateway) (tick : bool) (w : ResponseWriter)
    (r : HttpRequest) (h : store) (x : Ext) (calls : list Call) (after : Request) :
  let o := ServeHTTP g tick w r h x in
  EvCallback calls after ∈ o_log o →
  existsb isWrite calls = false →
  responded after = false
  ∧ (∃ tail,
       o_log o = (polled tick ++ EvCallback calls after
                    :: EvEnvelope (snd (Request_getClientRequest after)) :: tail)%list
       ∧ (tail = [] ∨ ∃ to r', tail = [EvForward to r']))
  ∧ ∃ resp, oneResponse resp ∧ written (o_w o) = (written w ++ resp)%list.
Proof.
  intros o Hin Hquiet.
  assert (∃ to rsrv rpcMethod codecReq r0,
            o = dispatch g to rsrv rpcMethod codecReq (addCORS g w r) r0 h x (polled tick))
    as (to & rsrv & rpcMethod & codecReq & r0 & Ho).
  { subst o. revert Hin. unfold ServeHTTP.
    destruct (String.eqb (Method r) "OPTIONS");
      [intros Hin; destruct (polled_no_callback _ _ _ Hin)|].
    destruct (negb (String.eqb (Method r) "POST"));
      [intros Hin; destruct (polled_no_callback _ _ _ Hin)|].
    destruct (selectCodec g _) as [codec| |];
      try (intros Hin; destruct (polled_no_callback _ _ _ Hin)).
    unfold serveCodec.
    destruct (codec_Method (NewRequest codec r)) as [m|err];
      [|intros Hin; destruct (polled_no_callback _ _ _ Hin)].
    destruct (getMethod g m) as [[rsrv rpcMethod] [err|]]; [|eauto 10].
    destruct (BackupHandler g) as [bh|];
      [eauto 10 | intros Hin; destruct (polled_no_callback _ _ _ Hin)]. }
  rewrite Ho in *. clear Ho o.
  destruct (dispatch_cases g to rsrv rpcMethod codecReq (addCORS g w r) r0 h x (polled tick))
    as [Heq | (url & h' & x' & req0 & _ & -> & Hcases)].
  { rewrite Heq in Hin. destruct (polled_no_callback _ _ _ Hin). }
  destruct Hcases as [[_ Heq] | (callback & req & calls0 & _ & Hrun & Hcases)].
  { rewrite Heq in Hin. apply forward_no_callback in Hin.
    destruct (polled_no_callback _ _ _ Hin). }
  pose proof (runCallback_spec
                (callback (newRequest rsrv rpcMethod codecReq (addCORS g w r) r0 url))
                (newRequest rsrv rpcMethod codecReq (addCORS g w r) r0 url)) as Hcb.
  rewrite Hrun in Hcb. simpl in Hcb. destruct Hcb as (Hw & _ & Hresp & _).
  assert (EvCallback calls after ∈ (polled tick ++ [EvCallback calls0 req])%list →
          calls0 = calls ∧ req = after) as Hsame.
  { rewrite elem_of_app, list_elem_of_singleton. intros [Hl | [= -> ->]].
    - destruct (polled_no_callback _ _ _ Hl).
    - split; reflexivity. }
  destruct Hcases as [[Hr Heq] | [Hr Heq]]; rewrite Heq in *.
  - simpl in Hin. destruct (Hsame Hin) as [-> ->]. rewrite Hquiet in Hresp.
    simpl in Hresp. congruence.
  - apply forward_no_callback in Hin. destruct (Hsame Hin) as [-> ->].
    split; [exact Hr|]. split.
    + destruct (forward_spec to after h' x' (polled tick ++ [EvCallback calls after]))
        as ((tail & -> & Htail) & _).
      exists tail. rewrite <- app_assoc. split; [reflexivity|].
      destruct Htail as [-> | [r' ->]]; eauto.
    + destruct (forward_written to after h' x' (polled tick ++ [EvCallback calls after]))
        as (resp & Hone & ->).
      exists resp. split; [exact Hone|].
      rewrite Hw, (no_write_no_writes calls Hquiet), app_nil_r, addCORS_written.
      reflexivity.
Qed.

End HandlerMore.

(** ** More of the extractor at concrete types *)

(** The arguments of [Bar] walk to a descriptor of that shape; [struct{}],
    its reply, walks to the object without fields. *)
Lemma processType_wellformed_witness :
  gatewayrpc.wellformed testdata.barArgsType
  ∧ gatewayrpc.wellformed (Type_ObjectOf ∅).
Proof.
  split.
  - apply (processType_wellformed testdata.ascii_DecodeRune testdata.ascii_IsUpper
             (reflect.RPtr reflect.unnamed testdata.BarArgs)).
    vm_compute. reflexivity.
  - apply (processType_wellformed testdata.ascii_DecodeRune testdata.ascii_IsUpper
             testdata.emptyStruct).
    vm_compute. reflexivity.
Defined.

(** The exported channel [C] fails the walk, the unexported one before it
    does not. *)
Lemma processType_struct_first_error_witness :
  testdata.walk testdata.WithChan = Err (gatewayrpc.errUnsupportedType testdata.tChan)
  ∧ testdata.walk testdata.HidesChan = Ok (Type_ObjectOf {[ "a" := Type_TypeOf Int ]}).
Proof.
  split.
  - apply (processType_struct_first_error testdata.ascii_DecodeRune testdata.ascii_IsUpper
             (testdata.pkg "WithChan")
             [reflect.mkField "A" (testdata.json "a") false testdata.tInt;
              reflect.mkField "hidden" [] false testdata.tChan]
             [reflect.mkField "B" (testdata.json "b") false testdata.tString]
             (reflect.mkField "C" [] false testdata.tChan)); reflexivity.
  - vm_compute. reflexivity.
Defined.

(** [getMethods] takes the handler with a pointer to a pointer, and the
    registration fails. *)
Lemma processType_double_pointer_witness :
  testdata.PtrPtr ∈ gatewayrpc.getMethods testdata.ascii_DecodeRune testdata.ascii_IsUpper
                      testdata.ptrEndpoint
  ∧ snd (testdata.RegisterService (gatewayrpc.mkServer unit tt []) testdata.ptrEndpoint "") ≠ None
  ∧ gatewayrpc.services unit
      (fst (testdata.RegisterService (gatewayrpc.mkServer unit tt []) testdata.ptrEndpoint ""))
    = [].
Proof.
  assert (testdata.PtrPtr ∈ gatewayrpc.getMethods testdata.ascii_DecodeRune
            testdata.ascii_IsUpper testdata.ptrEndpoint) as Hin.
  { vm_compute. apply list_elem_of_further, list_elem_of_here. }
  split; [exact Hin|].
  destruct (processType_double_pointer testdata.ascii_DecodeRune testdata.ascii_IsUpper
              reflect.unnamed reflect.unnamed testdata.FooArgs) as (_ & _ & Hreg).
  apply (Hreg unit testdata.acceptAll (gatewayrpc.mkServer unit tt []) testdata.ptrEndpoint ""
           testdata.PtrPtr testdata.TestEndpoint (testdata.ptr gatewayrpc.typeOfRequest)
           testdata.tInt (testdata.ptr testdata.FooRes) Hin).
  left. reflexivity.
Defined.

(** [Foo] is accepted, the plain method [Wat] is not. *)
Lemma getMethods_accepts_witness :
  testdata.Foo ∈ gatewayrpc.getMethods testdata.ascii_DecodeRune testdata.ascii_IsUpper
                   testdata.testEndpoint
  ∧ testdata.Wat ∉ gatewayrpc.getMethods testdata.ascii_DecodeRune testdata.ascii_IsUpper
                     testdata.testEndpoint.
Proof.
  split.
  - apply (getMethods_accepts testdata.ascii_DecodeRune testdata.ascii_IsUpper).
    split; [apply list_elem_of_further, list_elem_of_here|]. split; [reflexivity|].
    exists testdata.TestEndpoint, reflect.unnamed, (testdata.ptr testdata.FooArgs),
      (testdata.ptr testdata.FooRes).
    repeat split.
  - intros Hin.
    apply (getMethods_accepts testdata.ascii_DecodeRune testdata.ascii_IsUpper) in Hin.
    destruct Hin as (_ & _ & recv & reqName & args & reply & HIn & _). discriminate.
Defined.

(** The registration of the tests' endpoint. *)
Lemma RegisterService_success_witness :
  ∃ methods,
    gatewayrpc.GetServices unit
      (fst (testdata.RegisterService (gatewayrpc.mkServer unit tt []) testdata.testEndpoint ""))
    = [mkService "TestEndpoint" methods]
    ∧ is_Some (methods !! "Foo") ∧ is_Some (methods !! "Bar") ∧ methods !! "Wat" = None.
Proof.
  destruct (RegisterService_success testdata.ascii_DecodeRune testdata.ascii_IsUpper unit
              testdata.acceptAll (gatewayrpc.mkServer unit tt []) testdata.testEndpoint "")
    as (name' & methods & Hname & Hget & Hdom & _).
  - vm_compute. reflexivity.
  - injection Hname as <-. exists methods. split; [exact Hget|]. split; [|split].
    + apply Hdom. exists testdata.Foo. split; [|reflexivity].
      vm_compute. apply list_elem_of_further, list_elem_of_here.
    + apply Hdom. exists testdata.Bar. split; [|reflexivity].
      vm_compute. apply list_elem_of_here.
    + destruct (methods !! "Wat") as [e|] eqn:He; [|reflexivity].
      destruct (proj1 (Hdom "Wat")) as (m & Hm & Hn); [eauto|].
      vm_compute in Hm.
      apply elem_of_cons in Hm as [-> | Hm]; [discriminate|].
      apply list_elem_of_singleton in Hm as ->. discriminate.
Defined.

(** The options of a tag are dropped, an empty tag name gives the field's
    name. *)
Lemma getFieldKey_tag_witness :
  gatewayrpc.getFieldKey (reflect.mkField "A" [("json", "a,omitempty")] false testdata.tInt) = "a"
  ∧ gatewayrpc.getFieldKey (reflect.mkField "A" [("json", ",omitempty")] false testdata.tInt) = "A".
Proof.
  split.
  - apply (getFieldKey_tag (reflect.mkField "A" [("json", "a,omitempty")] false testdata.tInt)
             "a" "omitempty"); [reflexivity | right; reflexivity].
  - apply (getFieldKey_tag (reflect.mkField "A" [("json", ",omitempty")] false testdata.tInt)
             "" "omitempty"); [reflexivity | right; reflexivity].
Defined.

(** ** More of the gateway at concrete requests *)

Lemma getClientRequest_after_UpdateRequest_witness :
  let r' := fst (Request_UpdateRequest (H := world) fooRequest "Test.Test2" (Some false)) in
  Request_getClientRequest (H := world) fooRequest
  = (set_args (H := world) fooRequest "true", Ok "Test.Test true")
  ∧ Request_getClientRequest (H := world) r' = (r', Ok "Test.Test2 false").
Proof.
  intros r'. split; [reflexivity|].
  assert (∀ (v : @Value world) (b : bytes), json_Marshal (Externals := world) v = Ok b → b ≠ "")
    as Hmarshal.
  { intros v b. destruct v; intros [= <-]; discriminate. }
  destruct (getClientRequest_after_UpdateRequest (H := world) Hmarshal fooRequest r'
              "Test.Test2" false) as (a & Ha & Hget).
  - discriminate.
  - reflexivity.
  - rewrite Hget. injection Ha as <-. reflexivity.
Defined.

(** The context of the tests takes the parameters [true] of the codec
    request, and stays with them. *)
Lemma getClientRequest_context_witness :
  let r1 := fst (Request_getClientRequest (H := world) fooRequest) in
  r1 = set_args (H := world) fooRequest "true"
  ∧ fst (Request_getClientRequest (H := world) r1) = r1.
Proof.
  intros r1.
  destruct (getClientRequest_context (H := world) fooRequest r1 (Ok "Test.Test true") eq_refl)
    as (Hstable & _ & _ & _ & _ & _ & _ & Hraw & _).
  split; [apply Hraw; reflexivity | exact Hstable].
Defined.

(** With an encoder that refuses [false], the failed update has replaced the
    method all the same. *)
Lemma UpdateRequest_parts_witness :
  let failed := Request_UpdateRequest (H := strictWorld) strictRequest "Test.Test2" (Some false) in
  snd failed = Some (errOther "json: unsupported value")
  ∧ args (fst failed) = ""
  ∧ Request_Method (H := strictWorld) (fst failed) = Ok "Test.Test2"
  ∧ Request_Method (H := strictWorld)
      (fst (Request_UpdateRequest (H := strictWorld) strictRequest "" (Some true)))
    = Ok "Test.Test"
  ∧ snd (Request_UpdateRequest (H := strictWorld) strictRequest "Test.Test2" None) = None.
Proof.
  intros failed.
  destruct (UpdateRequest_parts (H := strictWorld) strictRequest "Test.Test2" (Some false))
    as (_ & _ & Hfail).
  destruct (Hfail false (errOther "json: unsupported value") eq_refl eq_refl)
    as (Herr & Hargs & HM).
  split; [exact Herr|]. split; [exact Hargs|]. split; [apply HM; discriminate|].
  split.
  - destruct (UpdateRequest_parts (H := strictWorld) strictRequest "" (Some true))
      as (Hkeep & _). rewrite Hkeep; reflexivity.
  - destruct (UpdateRequest_parts (H := strictWorld) strictRequest "Test.Test2" None)
      as (_ & Hnil & _). apply Hnil. reflexivity.
Defined.

(** [TestEndpoint.Foo] is routed; in [TestEndpoint.Foo.Bar] the method is
    [Foo.Bar], which the service does not have. *)
Lemma getMethod_route_witness :
  (getMethod (H := world) testGateway "TestEndpoint.Foo").2 = None
  ∧ (getMethod (H := world) testGateway "TestEndpoint.Foo.Bar").2 = Some errCannotHandleMethod
  ∧ (getMethod (H := world) testGateway "Unknown.X").2 = Some errNoRemoteService.
Proof.
  destruct (getMethod_route (H := world) testGateway) as [Hroute Hconv].
  split; [|split].
  - change "TestEndpoint.Foo" with ("TestEndpoint" ++ "." ++ "Foo").
    rewrite Hroute by reflexivity. reflexivity.
  - change "TestEndpoint.Foo.Bar" with ("TestEndpoint" ++ "." ++ "Foo.Bar").
    rewrite Hroute by reflexivity. reflexivity.
  - change "Unknown.X" with ("Unknown" ++ "." ++ "X").
    rewrite Hroute by reflexivity. reflexivity.
Defined.

(** Adding [backend] to a new gateway makes [TestEndpoint.Foo] routable, to
    the URL [http://backend] as given. *)
Lemma AddURL_success_witness :
  let added := AddURL (H := world) NewGateway [] x0 "backend" in
  added.2 = None
  ∧ added.1.1.2 !! 0%nat = Some backendURL
  ∧ (getMethod (H := world) added.1.1.1 "TestEndpoint.Foo").2 = None
  ∧ (getMethod (H := world) added.1.1.1 "TestEndpoint.Foo").1.1
    = entryOf 0%nat "http://backend" TestEndpoint.
Proof.
  intros added. split; [reflexivity|].
  destruct (AddURL_success (H := world) NewGateway added.1.1.1 [] added.1.1.2 x0 added.1.2
              "backend" eq_refl)
    as (parsed & found & Hparse & _ & _ & Hstore & _ & Hlook & Hroute).
  injection Hparse as <-. split; [exact Hstore|].
  pose proof (Hlook "TestEndpoint") as Hentry.
  change (services added.1.1.1 !! "TestEndpoint")
    with (Some (entryOf 0%nat "http://backend" TestEndpoint)) in Hentry.
  destruct (lastNamed found "TestEndpoint") as [srv|] eqn:Hlast; [|discriminate].
  injection Hentry as <-.
  specialize (Hroute TestEndpoint "Foo"
                (mkMethod_ "Foo" (Some testdata.fooArgsType)
                   (Some (Type_ObjectOf {[ "args" := testdata.fooArgsType ]})))
                Hlast eq_refl eq_refl).
  change (Service_Name TestEndpoint ++ "." ++ "Foo") with "TestEndpoint.Foo" in Hroute.
  rewrite Hroute. split; reflexivity.
Defined.

(** A backend that does not answer leaves [TestEndpoint] in the mapping. *)
Lemma registry_never_shrinks_witness :
  (AddURL (H := world) testGateway testStore x0 "elsewhere").2
  = Some (errOther "connection refused")
  ∧ is_Some (services (AddURL (H := world) testGateway testStore x0 "elsewhere").1.1.1
               !! "TestEndpoint")
  ∧ is_Some (services (refreshURLs (H := world) testGateway testStore x0).1.1
               !! "TestEndpoint").
Proof.
  destruct (registry_never_shrinks (H := world) testGateway testStore x0 "elsewhere")
    as (Hadd & _ & _ & Hrefresh & _).
  split; [reflexivity|]. split.
  - apply Hadd. eexists. reflexivity.
  - apply Hrefresh. eexists. reflexivity.
Defined.

(** [backend] is added as [http://backend], and a refresh of the gateway of
    the tests, whose one entry holds that string, is [AddURL] on it. *)
Lemma AddURL_withScheme_witness :
  AddURL (H := world) testGateway testStore x0 "backend"
  = AddURL (H := world) testGateway testStore x0 "http://backend"
  ∧ refreshURLs (H := world) testGateway testStore x0
    = (AddURL (H := world) testGateway testStore x0 "backend").1.
Proof.
  destruct (AddURL_withScheme (H := world) testGateway testStore x0 "backend")
    as (Hadd & _ & Hrefresh).
  split; [exact Hadd|].
  rewrite Hrefresh.
  - change (services testGateway) with registry. unfold registry.
    rewrite map_size_singleton. reflexivity.
  - intros name e Hname.
    change (services testGateway) with registry in Hname. unfold registry in Hname.
    apply lookup_singleton_Some in Hname as [_ <-]. reflexivity.
Defined.

(** An unknown service makes [GetMethodURL] panic; a known one gives the
    resolved copy. *)
Lemma GetMethodURL_cases_witness :
  GetMethodURL (H := world) testGateway testStore x0 "Unknown.X" = None
  ∧ GetMethodURL (H := world) testGateway testStore x0 "ping" = None
  ∧ GetMethodURL (H := world) testGateway testStore x0 "TestEndpoint.Foo"
    = Some (1%nat, [backendURL; URL_with_Host backendURL "10.0.0.1:8080"], 1%nat, None).
Proof.
  destruct (GetMethodURL_cases (H := world) testGateway testStore x0)
    as (Hnodot & Hunknown & Hknown).
  split; [|split].
  - apply (Hunknown "Unknown" "X"); reflexivity.
  - apply Hnodot. reflexivity.
  - apply (Hknown "TestEndpoint" "Foo"
             (mkRemoteService TestEndpoint (Some 0%nat) "http://backend") 0%nat backendURL);
      reflexivity.
Defined.

Lemma registry_ok_testGateway : registry_ok (H := world) testGateway testStore.
Proof.
  intros name entry l Hname Hl.
  change (services testGateway) with registry in Hname. unfold registry in Hname.
  apply lookup_singleton_Some in Hname as [_ <-].
  injection Hl as <-. exists backendURL. reflexivity.
Defined.

Lemma ServeHTTP_never_panics_witness :
  o_panic (ServeHTTP (H := world) testGateway true freshWriter
             (post "application/json" "TestEndpoint.Foo true") testStore x0) = false.
Proof.
  apply (ServeHTTP_never_panics (H := world)). exact registry_ok_testGateway.
Defined.

Lemma registry_ok_invariant_witness :
  registry_ok (H := world) (AddURL (H := world) testGateway testStore x0 "backend").1.1.1
    (AddURL (H := world) testGateway testStore x0 "backend").1.1.2.
Proof.
  apply (registry_ok_invariant (H := world) testGateway testStore x0 "backend").
  exact registry_ok_testGateway.
Defined.

(** A GET is answered 405; a preflight from an origin that does not match is
    ended with nothing added or written. *)
Lemma ServeHTTP_method_check_witness :
  written (o_w (ServeHTTP (H := world) testGateway false freshWriter get testStore x0))
  = [WriteHeader 405; Fprint "rpc: POST method required, received %q GET"]
  ∧ o_w (ServeHTTP (H := world) testGateway false freshWriter
           (preflight "https://evil.example") testStore x0) = freshWriter.
Proof.
  split.
  - destruct (ServeHTTP_method_check (H := world) testGateway false freshWriter get testStore x0)
      as [_ Hother].
    destruct Hother as (_ & Hw & _); [discriminate | discriminate |]. exact Hw.
  - destruct (ServeHTTP_method_check (H := world) testGateway false freshWriter
                (preflight "https://evil.example") testStore x0) as [Hopt _].
    destruct (Hopt eq_refl) as [Ho _]. rewrite Ho. reflexivity.
Defined.

(** The forwarded call is answered once, by the gateway. *)
Lemma ServeHTTP_one_response_witness :
  ∃ resp,
    oneResponse (H := world) resp
    ∧ written (o_w (ServeHTTP (H := world) testGateway false freshWriter
                      (post "application/json" "TestEndpoint.Foo true") testStore x0))
      = resp.
Proof.
  destruct (ServeHTTP_one_response (H := world) testGateway false freshWriter
              (post "application/json" "TestEndpoint.Foo true") testStore x0)
    as [(calls & after & Hlog & _) | (resp & Hone & Hw)].
  - discriminate.
  - reflexivity.
  - vm_compute in Hlog. discriminate.
  - exists resp. split; [exact Hone | exact Hw].
Defined.

(** An unknown method of [TestEndpoint]: the error framer without backup
    handler; with one, and the callback, the request goes to the backup
    handler after the callback, with the URL of [TestEndpoint] resolved. A
    known method goes to the backend. *)
Lemma ServeHTTP_routing_witness :
  let nope := post "application/json" "TestEndpoint.Nope true" in
  let foo := post "application/json" "TestEndpoint.Foo true" in
  let entry := mkRemoteService TestEndpoint (Some 0%nat) "http://backend" in
  let o := ServeHTTP (H := world) withBoth false freshWriter nope testStore x0 in
  let o' := ServeHTTP (H := world) withBackup false freshWriter foo testStore x0 in
  written (o_w (ServeHTTP (H := world) testGateway false freshWriter nope testStore x0))
  = [CodecWriteError 400 errCannotHandleMethod]
  ∧ o_store o = [backendURL; URL_with_Host backendURL "10.0.0.1:8080"]
  ∧ (∃ after,
       o_log o
       = [EvCallback [CMethod] after; EvEnvelope (Ok "TestEndpoint.Nope true");
          EvForward (Backup backup)
            (mkHttpRequest "POST" [("Content-Type", "application/json")] (Some 1%nat) ""
                           "TestEndpoint.Nope true" 22)])
  ∧ o_log o'
    = [EvEnvelope (Ok "TestEndpoint.Foo true");
       EvForward External
         (mkHttpRequest "POST" [("Content-Type", "application/json")] (Some 1%nat) ""
                        "TestEndpoint.Foo true" 21)]
  ∧ written (o_w o') = [CodecWriteResponse (PRaw "echo TestEndpoint.Foo true")].
Proof.
  intros nope foo entry o o'.
  split; [|split; [|split; [|split]]].
  - destruct (ServeHTTP_routing (H := world) testGateway false freshWriter nope testStore x0
                codec "TestEndpoint" "Nope" eq_refl eq_refl eq_refl eq_refl) as (_ & Hmeth & _).
    destruct (Hmeth entry eq_refl eq_refl) as [Hnone _].
    rewrite (Hnone eq_refl). reflexivity.
  - destruct (ServeHTTP_routing (H := world) withBoth false freshWriter nope testStore x0
                codec "TestEndpoint" "Nope" eq_refl eq_refl eq_refl eq_refl) as (_ & Hmeth & _).
    destruct (Hmeth entry eq_refl eq_refl) as [_ Hsome].
    destruct (Hsome backup 0%nat backendURL eq_refl eq_refl eq_refl) as (Hstore & _).
    exact Hstore.
  - destruct (ServeHTTP_routing (H := world) withBoth false freshWriter nope testStore x0
                codec "TestEndpoint" "Nope" eq_refl eq_refl eq_refl eq_refl) as (_ & Hmeth & _).
    destruct (Hmeth entry eq_refl eq_refl) as [_ Hsome].
    destruct (Hsome backup 0%nat backendURL eq_refl eq_refl eq_refl) as (_ & _ & Hrouted).
    eexists. apply Hrouted.
  - destruct (ServeHTTP_routing (H := world) withBackup false freshWriter foo testStore x0
                codec "TestEndpoint" "Foo" eq_refl eq_refl eq_refl eq_refl) as (_ & _ & Hknown).
    destruct (Hknown entry
                (mkMethod_ "Foo" (Some testdata.fooArgsType)
                   (Some (Type_ObjectOf {[ "args" := testdata.fooArgsType ]})))
                0%nat backendURL eq_refl eq_refl eq_refl eq_refl) as (_ & _ & Hrouted).
    apply Hrouted.
  - destruct (ServeHTTP_routing (H := world) withBackup false freshWriter foo testStore x0
                codec "TestEndpoint" "Foo" eq_refl eq_refl eq_refl eq_refl) as (_ & _ & Hknown).
    destruct (Hknown entry
                (mkMethod_ "Foo" (Some testdata.fooArgsType)
                   (Some (Type_ObjectOf {[ "args" := testdata.fooArgsType ]})))
                0%nat backendURL eq_refl eq_refl eq_refl eq_refl) as (_ & _ & Hrouted).
    destruct Hrouted as (_ & _ & Hw). unfold o'. rewrite Hw. reflexivity.
Defined.

(** The context of the tests, forwarded as it is. *)
Lemma forward_envelope_witness :
  o_log (forward (H := world) External fooRequest testStore x0 [])
  = [EvEnvelope (Ok "Test.Test true");
     EvForward External
       (mkHttpRequest "POST" [("Content-Type", "application/json")] None "/"
                      "Test.Test true" 14)].
Proof.
  destruct (forward_envelope (H := world) External fooRequest testStore x0 []
              "Test.Test true" eq_refl) as (m & params & _ & _ & _ & _ & Hlog).
  exact Hlog.
Defined.

(** An origin that does not match: nothing is added to a preflight, and the
    answer to a call has no header [Access-Control-Allow-Origin]. *)
Lemma ServeHTTP_no_CORS_witness :
  addCORS (H := world) testGateway freshWriter (preflight "https://evil.example") = freshWriter
  ∧ Header_Values
      (RespHeader (o_w (ServeHTTP (H := world) testGateway false freshWriter
                          (postFrom "https://evil.example" "TestEndpoint.Foo true")
                          testStore x0)))
      "Access-Control-Allow-Origin" = [].
Proof.
  split.
  - destruct (ServeHTTP_no_CORS (H := world) testGateway false freshWriter
                (preflight "https://evil.example") testStore x0) as (Hcors & _).
    + right. right. exists "https://app.". split; reflexivity.
    + exact Hcors.
  - destruct (ServeHTTP_no_CORS (H := world) testGateway false freshWriter
                (postFrom "https://evil.example" "TestEndpoint.Foo true") testStore x0)
      as (_ & _ & Hvalues).
    + right. right. exists "https://app.". split; reflexivity.
    + apply (Hvalues "Access-Control-Allow-Origin"); [discriminate|].
      intros key c ev hd Hc.
      change (codecs testGateway)
        with ({[ "application/json" := codec ]} : gmap string Codec) in Hc.
      apply lookup_singleton_Some in Hc as [_ <-].
      apply envelope_keeps. discriminate.
Defined.

(** The callback of the tests lets [TestEndpoint.Bar] with arguments [false]
    through: the backend's reply is the response. *)
Lemma callback_without_write_forwards_witness :
  let o := ServeHTTP (H := world) testGateway false freshWriter
             (post "application/json" "TestEndpoint.Bar false") testStore x0 in
  ∃ resp, oneResponse (H := world) resp ∧ written (o_w o) = resp
          ∧ resp = [CodecWriteResponse (PRaw "echo TestEndpoint.Bar false")].
Proof.
  intros o.
  pose (after := match o_log o with
                 | EvCallback _ a :: _ => a
                 | _ => fooRequest
                 end).
  destruct (callback_without_write_forwards (H := world) testGateway false freshWriter
              (post "application/json" "TestEndpoint.Bar false") testStore x0
              [CMethod; CReadRequest (H := world) tt] after)
    as (_ & _ & resp & Hone & Hw).
  - vm_compute. apply list_elem_of_here.
  - reflexivity.
  - exists resp. split; [exact Hone|]. split; [exact Hw|].
    vm_compute in Hw. symmetry. exact Hw.
Defined.
